(** * Scan conversion and display simulation: a shallow embedding

    The development follows the three programs of the repository:

    - the scan-conversion algorithms [ddaLine], [bresenhamLine] and
      [midpointCircle] of the algorithm visualizer (the HTML page and its
      React port carry the same three functions);
    - the raster / random scan display simulator ([bresenhamLinePixels],
      [initializeRasterBuffer], [animateRasterDisplay],
      [animateRandomDisplay]);
    - the visualizer's controller ([clearGraphicsCanvas],
      [handleStartVisualization], [animateGraphicsVisualization] and the
      effect that drives it).

    The rasterizers are embedded twice.  Module [Double] has them as the
    code computes them, on binary64 numbers (exact rationals rounded to
    nearest-even at 53 bits, infinities, NaN).  The integer model has them
    on [Z], with the [info] strings.  The two agree on the safe integers,
    those of absolute value at most 2^50 ([safe]): there every number the
    integer algorithms compute is an integer below 2^53, and every
    operation on it is exact.  Beyond 2^53 they differ, and the theorems
    about the three functions of the visualizer, whose arguments are typed
    in, are stated for safe integers and carry the binary64 functions in
    their statements.  The display simulator is modelled for segments
    with integer end points, as a mouse at integer positions draws them.
    [ddaLine] has, besides its
    binary64 embedding, a model over an abstract carrier of numbers (class
    [JSNumber]), for what holds whatever the arithmetic is and for the
    controllers, which only pass its pixels on.  A [while (true)] loop becomes
    a fixpoint over a budget of iterations that answers [None] when the
    budget runs out, and the termination lemmas give a budget that always
    suffices.  The canvas elements are taken as mounted (the handlers
    return at once when a canvas ref is still empty).

    Beyond the three programs' core, the development carries the plain
    HTML page of the visualizer as a state machine of its own (module
    [Page]: script variables instead of React state, and a timeout whose
    handle is dropped), and the display simulator as a whole component
    (module [Simulator]: the drawing gesture on the input canvas, the
    buttons, the theme, and the effects that start and stop the two
    loops). *)

From Stdlib Require Import ZArith QArith Qround Lia.
From stdpp Require Import base numbers list strings pretty.

Local Open Scope Z_scope.

(* ================================================================== *)
(** * Part I: definitions                                              *)
(* ================================================================== *)

(** ** Pixels *)

(** A pixel position, [{ x, y }]. *)
Record Point := mkPoint { point_x : Z; point_y : Z }.

#[global] Instance Point_eq_dec : EqDecision Point.
Proof. solve_decision. Defined.

(** One unit of rasterizer output, [{ x, y, info }].  The coordinate type
    is a parameter: the integer algorithms produce integers, [ddaLine]
    produces whatever [Math.round] returns. *)
Record PixelStep (C : Type) := mkPixelStep {
  pixel_x : C;
  pixel_y : C;
  pixel_info : string
}.
Arguments mkPixelStep {C} _ _ _.
Arguments pixel_x {C} _.
Arguments pixel_y {C} _.
Arguments pixel_info {C} _.

Definition position (p : PixelStep Z) : Point :=
  mkPoint (pixel_x p) (pixel_y p).

(** Two pixels are neighbours in the 8-connected sense. *)
Definition adjacent (p q : Point) : Prop :=
  Z.abs (point_x q - point_x p) <= 1 /\ Z.abs (point_y q - point_y p) <= 1.

(** Every two consecutive entries of a sequence are neighbours. *)
Definition eight_connected (l : list Point) : Prop :=
  forall (i : nat) (p q : Point),
    l !! i = Some p -> l !! S i = Some q -> adjacent p q.

(** ** Bresenham's line algorithm (visualizer) *)

(** The body of the loop after the exit test:
    [e2 = 2 * err; if (e2 > -dy) { err -= dy; x += sx; }
     if (e2 < dx) { err += dx; y += sy; }]. *)
Definition bresenham_advance (dx dy sx sy : Z) (s : Z * Z * Z) : Z * Z * Z :=
  let '(x, y, err) := s in
  let e2 := 2 * err in
  let '(err, x) :=
    if bool_decide (e2 > - dy) then (err - dy, x + sx) else (err, x) in
  let '(err, y) :=
    if bool_decide (e2 < dx) then (err + dx, y + sy) else (err, y) in
  (x, y, err).
Arguments bresenham_advance : simpl never.

(** [`Step ${i}: Pixel(${x}, ${y}), Error=${err}`] *)
Definition bresenham_info (i x y err : Z) : string :=
  "Step " +:+ pretty i +:+ ": Pixel(" +:+ pretty x +:+ ", " +:+ pretty y
    +:+ "), Error=" +:+ pretty err.
Arguments bresenham_info : simpl never.

(** The [while (true)] loop of [bresenhamLine]: push the current pixel,
    leave when [(x, y)] is the end point, otherwise advance. *)
Fixpoint bresenham_loop (fuel : nat) (x1 y1 dx dy sx sy x y err i : Z)
  : option (list (PixelStep Z)) :=
  match fuel with
  | O => None
  | S fuel' =>
      let step := mkPixelStep x y (bresenham_info i x y err) in
      if bool_decide (x = x1) && bool_decide (y = y1) then Some [step]
      else
        let '(x', y', err') := bresenham_advance dx dy sx sy (x, y, err) in
        cons step <$> bresenham_loop fuel' x1 y1 dx dy sx sy x' y' err' (i + 1)
  end.

Definition bresenhamLine (fuel : nat) (x0 y0 x1 y1 : Z)
  : option (list (PixelStep Z)) :=
  let dx := Z.abs (x1 - x0) in
  let dy := Z.abs (y1 - y0) in
  let sx := if bool_decide (x0 < x1) then 1 else -1 in
  let sy := if bool_decide (y0 < y1) then 1 else -1 in
  let err := dx - dy in
  bresenham_loop fuel x1 y1 dx dy sx sy x0 y0 err 0.

(** The loop invariant used below: after [a] steps along x and [b] steps
    along y the loop variables are determined, and the error term is
    [dx * (b + 1) - dy * (a + 1)]. *)
Definition line_inv (x0 y0 dx dy sx sy a b x y err : Z) : Prop :=
  0 <= a <= dx /\ 0 <= b <= dy /\
  x = x0 + sx * a /\ y = y0 + sy * b /\
  err = dx * (b + 1) - dy * (a + 1).

(** A budget of loop iterations that is enough for the line from
    [(x0, y0)] to [(x1, y1)]. *)
Definition line_fuel (x0 y0 x1 y1 : Z) : nat :=
  Z.to_nat (Z.abs (x1 - x0) + Z.abs (y1 - y0) + 1).

(** ** Bresenham's line algorithm (display simulator) *)

(** [Math.round] on a number that holds an integer. *)
Definition Math_round_int (z : Z) : Z := z.

(** [x >= 0 && x < canvasWidth && y >= 0 && y < canvasHeight] *)
Definition in_canvas (canvasWidth canvasHeight x y : Z) : bool :=
  bool_decide (x >= 0) && bool_decide (x < canvasWidth)
  && bool_decide (y >= 0) && bool_decide (y < canvasHeight).

Definition point_in_canvas (canvasWidth canvasHeight : Z) (p : Point) : bool :=
  in_canvas canvasWidth canvasHeight (point_x p) (point_y p).

(** The positions of a pixel sequence that lie on a canvas of the given
    size, in the order of the sequence. *)
Definition visible_positions (canvasWidth canvasHeight : Z)
    (l : list (PixelStep Z)) : list Point :=
  filter (fun q : Point => point_in_canvas canvasWidth canvasHeight q)
    (position <$> l).

Fixpoint bresenhamLinePixels_loop (fuel : nat)
    (x1 y1 dx dy sx sy canvasWidth canvasHeight x y err : Z)
  : option (list Point) :=
  match fuel with
  | O => None
  | S fuel' =>
      let pushed :=
        if in_canvas canvasWidth canvasHeight x y
        then [mkPoint (Math_round_int x) (Math_round_int y)] else [] in
      if bool_decide (x = x1) && bool_decide (y = y1) then Some pushed
      else
        let '(x', y', err') := bresenham_advance dx dy sx sy (x, y, err) in
        app pushed <$>
          bresenhamLinePixels_loop fuel' x1 y1 dx dy sx sy
            canvasWidth canvasHeight x' y' err'
  end.

Definition bresenhamLinePixels (fuel : nat)
    (x0 y0 x1 y1 canvasWidth canvasHeight : Z) : option (list Point) :=
  let dx := Z.abs (x1 - x0) in
  let dy := Z.abs (y1 - y0) in
  let sx := if bool_decide (x0 < x1) then 1 else -1 in
  let sy := if bool_decide (y0 < y1) then 1 else -1 in
  let err := dx - dy in
  bresenhamLinePixels_loop fuel x1 y1 dx dy sx sy
    canvasWidth canvasHeight x0 y0 err.

(** ** JavaScript numbers that need not be integers

    [ddaLine] divides and accumulates in floating point.  Its model is
    stated over any carrier with the operations the function uses; the only
    law taken from IEEE arithmetic is that [Math.round] leaves a number that
    holds an integer alone. *)
Class JSNumber := {
  num : Type;
  of_int : Z -> num;               (* the number that holds an integer *)
  num_add : num -> num -> num;     (* [a + b] *)
  num_div : num -> num -> num;     (* [a / b] *)
  Math_round_num : num -> num;     (* [Math.round(a)] *)
  toFixed2 : num -> string;        (* [a.toFixed(2)] *)
  Math_round_of_int : forall z : Z, Math_round_num (of_int z) = of_int z
}.

(** An idealised carrier: exact rationals and one value that is not a
    number.  It has no rounding error, and a quotient by zero is not a
    number (in [ddaLine] the only such quotient is [0 / 0]).  It shows
    that the class is inhabited and lets the model run on examples. *)
Inductive IdealNumber := Finite (q : Q) | NotANumber.

Definition ideal_add (a b : IdealNumber) : IdealNumber :=
  match a, b with
  | Finite p, Finite q => Finite (Qred (p + q))
  | _, _ => NotANumber
  end.

Definition ideal_div (a b : IdealNumber) : IdealNumber :=
  match a, b with
  | Finite p, Finite q =>
      if Qeq_bool q 0 then NotANumber else Finite (Qred (p / q))
  | _, _ => NotANumber
  end.

(** [Math.round(a)] is the floor of [a + 0.5]. *)
Definition ideal_round (a : IdealNumber) : IdealNumber :=
  match a with
  | Finite q => Finite (inject_Z (Qfloor (q + (1 # 2))))
  | NotANumber => NotANumber
  end.

Definition ideal_toFixed2 (a : IdealNumber) : string :=
  match a with
  | Finite q =>
      let hundredths := Qfloor (q * 100 + (1 # 2)) in
      let cents := (Z.abs hundredths mod 100)%Z in
      (if bool_decide (hundredths < 0)%Z then "-" else "")
        +:+ pretty (Z.abs hundredths / 100)%Z +:+ "."
        +:+ (if bool_decide (cents < 10)%Z then "0" else "") +:+ pretty cents
  | NotANumber => "NaN"
  end.

Lemma ideal_round_of_int (z : Z) :
  ideal_round (Finite (inject_Z z)) = Finite (inject_Z z).
Proof.
  unfold ideal_round. do 2 f_equal.
  unfold Qfloor, Qplus, inject_Z. simpl.
  rewrite Z.mul_1_r. symmetry. apply (Z.div_unique _ _ _ 1); lia.
Qed.

Definition ideal_numbers : JSNumber := {|
  num := IdealNumber;
  of_int z := Finite (inject_Z z);
  num_add := ideal_add;
  num_div := ideal_div;
  Math_round_num := ideal_round;
  toFixed2 := ideal_toFixed2;
  Math_round_of_int := ideal_round_of_int
|}.

(** ** The DDA line algorithm *)

(** [`Step ${i}: x=${x.toFixed(2)}, y=${y.toFixed(2)}`] *)
Definition dda_info `{JSNumber} (i : Z) (x y : num) : string :=
  "Step " +:+ pretty i +:+ ": x=" +:+ toFixed2 x +:+ ", y=" +:+ toFixed2 y.
Arguments dda_info : simpl never.

(** [for (let i = 0; i <= steps; i++) { push; x += xIncrement; y += yIncrement }] *)
Fixpoint dda_loop `{JSNumber} (fuel : nat) (steps i : Z)
    (x y xIncrement yIncrement : num) : option (list (PixelStep num)) :=
  if bool_decide (i <= steps) then
    match fuel with
    | O => None
    | S fuel' =>
        cons (mkPixelStep (Math_round_num x) (Math_round_num y) (dda_info i x y))
          <$> dda_loop fuel' steps (i + 1)
                (num_add x xIncrement) (num_add y yIncrement)
                xIncrement yIncrement
    end
  else Some [].

(** [steps] of [ddaLine]: the larger of [|dx|] and [|dy|]. *)
Definition dda_steps (x0 y0 x1 y1 : Z) : Z :=
  let dx := x1 - x0 in
  let dy := y1 - y0 in
  if bool_decide (Z.abs dx > Z.abs dy) then Z.abs dx else Z.abs dy.

Definition ddaLine `{JSNumber} (fuel : nat) (x0 y0 x1 y1 : Z)
  : option (list (PixelStep num)) :=
  let dx := x1 - x0 in
  let dy := y1 - y0 in
  let steps := dda_steps x0 y0 x1 y1 in
  let xIncrement := num_div (of_int dx) (of_int steps) in
  let yIncrement := num_div (of_int dy) (of_int steps) in
  dda_loop fuel steps 0 (of_int x0) (of_int y0) xIncrement yIncrement.

Definition dda_fuel (x0 y0 x1 y1 : Z) : nat :=
  Z.to_nat (dda_steps x0 y0 x1 y1 + 1).

(** ** The midpoint circle algorithm *)

(** The helper [drawCirclePoints(px, py, info)]: the eight octant images
    of [(px, py)], in the order in which they are pushed. *)
Definition drawCirclePoints (cx cy px py : Z) (info : string)
  : list (PixelStep Z) :=
  [ mkPixelStep (cx + px) (cy + py) info;
    mkPixelStep (cx + py) (cy + px) info;
    mkPixelStep (cx - px) (cy + py) info;
    mkPixelStep (cx - py) (cy + px) info;
    mkPixelStep (cx - px) (cy - py) info;
    mkPixelStep (cx - py) (cy - px) info;
    mkPixelStep (cx + px) (cy - py) info;
    mkPixelStep (cx + py) (cy - px) info ].

(** [`Initial: x=${x}, y=${y}, p=${p}`] *)
Definition circle_initial_info (x y p : Z) : string :=
  "Initial: x=" +:+ pretty x +:+ ", y=" +:+ pretty y +:+ ", p=" +:+ pretty p.
Arguments circle_initial_info : simpl never.

(** [`Step ${i}: x=${x}, y=${y}, p=${p}`] *)
Definition circle_step_info (i x y p : Z) : string :=
  "Step " +:+ pretty i +:+ ": x=" +:+ pretty x +:+ ", y=" +:+ pretty y
    +:+ ", p=" +:+ pretty p.
Arguments circle_step_info : simpl never.

(** One pass through the body of [while (x < y)] up to the push:
    [x++; if (p < 0) p = p + 2*x + 1; else { y--; p = p + 2*x + 1 - 2*y; }]. *)
Definition circle_advance (s : Z * Z * Z) : Z * Z * Z :=
  let '(x, y, p) := s in
  let x := x + 1 in
  if bool_decide (p < 0) then (x, y, p + 2 * x + 1)
  else let y := y - 1 in (x, y, p + 2 * x + 1 - 2 * y).
Arguments circle_advance : simpl never.

Fixpoint circle_loop (fuel : nat) (cx cy x y p i : Z)
  : option (list (PixelStep Z)) :=
  if bool_decide (x < y) then
    match fuel with
    | O => None
    | S fuel' =>
        let '(x', y', p') := circle_advance (x, y, p) in
        let i' := i + 1 in
        app (drawCirclePoints cx cy x' y' (circle_step_info i' x' y' p'))
          <$> circle_loop fuel' cx cy x' y' p' i'
    end
  else Some [].

Definition midpointCircle (fuel : nat) (cx cy r : Z)
  : option (list (PixelStep Z)) :=
  let x := 0 in
  let y := r in
  let p := 1 - r in
  app (drawCirclePoints cx cy x y (circle_initial_info x y p))
    <$> circle_loop fuel cx cy x y p 0.

Definition circle_fuel (r : Z) : nat := Z.to_nat r.

(** The images of [q] under the eight symmetries of the square centred at
    [(cx, cy)]: sign changes of the two offsets and their exchange. *)
Definition reflections (cx cy : Z) (q : Point) : list Point :=
  let u := point_x q - cx in
  let v := point_y q - cy in
  [ mkPoint (cx + u) (cy + v); mkPoint (cx + v) (cy + u);
    mkPoint (cx - u) (cy + v); mkPoint (cx - v) (cy + u);
    mkPoint (cx - u) (cy - v); mkPoint (cx - v) (cy - u);
    mkPoint (cx + u) (cy - v); mkPoint (cx + v) (cy - u) ].

Definition eight_way_symmetric (cx cy : Z) (pts : list Point) : Prop :=
  forall q q', q ∈ pts -> q' ∈ reflections cx cy q -> q' ∈ pts.

(** The squared distance of [q] from the centre lies between [(r-1)^2] and
    [(r+1)^2]; for [r >= 1] this is: the distance lies between [r - 1] and
    [r + 1]. *)
Definition within_tolerance (cx cy r : Z) (q : Point) : Prop :=
  let d2 := (point_x q - cx) * (point_x q - cx)
            + (point_y q - cy) * (point_y q - cy) in
  (r - 1) * (r - 1) <= d2 <= (r + 1) * (r + 1).

(** The invariant of the circle loop: [p] is the midpoint decision value
    [x^2 + 2x + 1 + y^2 - y - r^2], and stays within a band around [2x]. *)
Definition circle_inv (r x y p : Z) : Prop :=
  0 <= x /\ 0 <= y <= r /\ x <= y + 1 /\
  p = x * x + 2 * x + 1 + y * y - y - r * r /\
  2 * x - 2 * y + 1 <= p /\ p <= 2 * x + 2 /\ (x <= y -> p <= 2 * x + 1).

(** ** The display simulator: shared pieces *)

(** Outcome of code that indexes arrays: a value, an index outside the
    array, or a loop that used up its budget of iterations.  In JavaScript
    an index outside the array does not stop the program by itself:
    [buffer[row]] is [undefined] for a missing row and indexing that
    throws, a read past the end of a row gives [undefined], and a write
    past the end extends the row.  The model reports all of these as
    [OutOfRange]; the theorems on the raster simulator show that it never
    arises. *)
Inductive Result (A : Type) : Type :=
  | Ok (a : A)
  | OutOfRange
  | OutOfBudget.
Arguments Ok {A} _.
Arguments OutOfRange {A}.
Arguments OutOfBudget {A}.

#[global] Instance Result_ret : MRet Result := fun A a => Ok a.
#[global] Instance Result_bind : MBind Result := fun A B f m =>
  match m with
  | Ok a => f a
  | OutOfRange => OutOfRange
  | OutOfBudget => OutOfBudget
  end.

(** A loop that answers [None] has used up its budget. *)
Definition of_budget {A : Type} (o : option A) : Result A :=
  match o with Some a => Ok a | None => OutOfBudget end.

Definition Color := string.

(** A user-drawn segment, [{ x1, y1, x2, y2 }], with integer pixel
    coordinates. *)
Record Line := mkLine { line_x1 : Z; line_y1 : Z; line_x2 : Z; line_y2 : Z }.

#[global] Instance Line_eq_dec : EqDecision Line.
Proof. solve_decision. Defined.

(** [setCurrentPixelInfo({ x, y, info })] *)
Record PixelInfo := mkPixelInfo {
  info_x : string;
  info_y : string;
  info_text : string
}.

(** What the callbacks of one render close over. *)
Record Env := mkEnv {
  drawnLines : list Line;
  simulationSpeed : Z;
  isSimulating : bool;
  darkMode : bool
}.

(** One [fillRect(x, y, size, size)] in a given fill style. *)
Record FillRect := mkFillRect {
  rect_x : Z;
  rect_y : Z;
  rect_size : Z;
  rect_color : Color
}.

(** One stroked segment, with its stroke style and line width. *)
Record Stroke := mkStroke {
  stroke_line : Line;
  stroke_style : Color;
  stroke_width : Z
}.

(** A canvas element: its layout size, the size of its bitmap, and what
    has been painted on the bitmap since it was last cleared. *)
Record Canvas (Paint : Type) := mkCanvas {
  clientWidth : nat;
  clientHeight : nat;
  width : nat;
  height : nat;
  painted : list Paint
}.
Arguments mkCanvas {Paint} _ _ _ _ _.
Arguments clientWidth {Paint} _.
Arguments clientHeight {Paint} _.
Arguments width {Paint} _.
Arguments height {Paint} _.
Arguments painted {Paint} _.

(** [ctx.clearRect(0, 0, canvas.width, canvas.height)] *)
Definition clearCanvas {Paint} (canvas : Canvas Paint) : Canvas Paint :=
  mkCanvas (clientWidth canvas) (clientHeight canvas)
    (width canvas) (height canvas) [].

(** [resizeCanvas]: the bitmap takes the layout size when they differ
    (assigning [canvas.width] or [canvas.height] resets the bitmap). *)
Definition resizeCanvas {Paint} (canvas : Canvas Paint) : Canvas Paint :=
  if bool_decide (width canvas <> clientWidth canvas
                  \/ height canvas <> clientHeight canvas)
  then mkCanvas (clientWidth canvas) (clientHeight canvas)
         (clientWidth canvas) (clientHeight canvas) []
  else canvas.

Definition paint {Paint} (canvas : Canvas Paint) (what : Paint) : Canvas Paint :=
  mkCanvas (clientWidth canvas) (clientHeight canvas)
    (width canvas) (height canvas) (painted canvas ++ [what]).

(** The default pixel colour, [darkMode ? '#cbd5e1' : 'black']. *)
Definition line_color (darkMode : bool) : Color :=
  if darkMode then "#cbd5e1" else "black".

(** The colour a cleared framebuffer cell holds,
    [darkMode ? '#1f2937' : '#f0f2f5']. *)
Definition background_color (darkMode : bool) : Color :=
  if darkMode then "#1f2937" else "#f0f2f5".

(** [drawPixel(ctx, x, y, color, size)]: an absent or empty colour falls
    back to the default. *)
Definition final_color (darkMode : bool) (color : option Color) : Color :=
  match color with
  | Some c => if bool_decide (c = "") then line_color darkMode else c
  | None => line_color darkMode
  end.

Definition drawPixel (darkMode : bool) (canvas : Canvas FillRect)
    (x y : Z) (color : option Color) (size : Z) : Canvas FillRect :=
  let finalColor := final_color darkMode color in
  paint canvas (mkFillRect x y size finalColor).

(** ** The raster-scan simulator *)

Record RasterDisplayData := mkRasterData {
  buffer : list (list Color);
  currentScanline : nat;
  currentPixelInScanline : nat;
  pixelsToDraw : list Point
}.

(** The raster side of the component: the canvas, the mutable
    [rasterDisplayData.current], the last pixel info it has set, and
    whether a next tick is scheduled. *)
Record RasterSim := mkRasterSim {
  rasterCanvas : Canvas FillRect;
  rasterDisplayData : RasterDisplayData;
  rasterPixelInfo : PixelInfo;
  rasterScheduled : bool
}.

(** [buffer[row][col]] *)
Definition buffer_read (buffer : list (list Color)) (row col : Z)
  : Result Color :=
  if bool_decide (0 <= row) && bool_decide (0 <= col) then
    match buffer !! Z.to_nat row with
    | Some cells =>
        match cells !! Z.to_nat col with
        | Some c => Ok c
        | None => OutOfRange
        end
    | None => OutOfRange
    end
  else OutOfRange.

(** [buffer[row][col] = color] *)
Definition buffer_write (buffer : list (list Color)) (row col : Z)
    (color : Color) : Result (list (list Color)) :=
  if bool_decide (0 <= row) && bool_decide (0 <= col) then
    match buffer !! Z.to_nat row with
    | Some cells =>
        if bool_decide (Z.to_nat col < length cells)%nat
        then Ok (<[Z.to_nat row := <[Z.to_nat col := color]> cells]> buffer)
        else OutOfRange
    | None => OutOfRange
    end
  else OutOfRange.

(** [pixels.forEach(p => { if (in bounds) buffer[p.y][p.x] = lineColor })] *)
Fixpoint plot_pixels (width height : Z) (color : Color)
    (buffer : list (list Color)) (pixels : list Point)
  : Result (list (list Color)) :=
  match pixels with
  | [] => Ok buffer
  | p :: rest =>
      buffer' ←
        (if bool_decide (point_y p >= 0) && bool_decide (point_y p < height)
            && bool_decide (point_x p >= 0) && bool_decide (point_x p < width)
         then buffer_write buffer (point_y p) (point_x p) color
         else Ok buffer);
      plot_pixels width height color buffer' rest
  end.

(** [drawnLines.forEach(line => { pixels = bresenhamLinePixels(...); ... })] *)
Fixpoint plot_lines (width height : Z) (color : Color)
    (buffer : list (list Color)) (lines : list Line)
  : Result (list (list Color)) :=
  match lines with
  | [] => Ok buffer
  | line :: rest =>
      pixels ←
        of_budget
          (bresenhamLinePixels
             (line_fuel (line_x1 line) (line_y1 line) (line_x2 line) (line_y2 line))
             (line_x1 line) (line_y1 line) (line_x2 line) (line_y2 line)
             width height);
      buffer' ← plot_pixels width height color buffer pixels;
      plot_lines width height color buffer' rest
  end.

Definition initializeRasterBuffer (env : Env) (sim : RasterSim)
  : Result RasterSim :=
  let canvas := clearCanvas (resizeCanvas (rasterCanvas sim)) in
  let width := width canvas in
  let height := height canvas in
  let buffer := replicate height (replicate width (background_color (darkMode env))) in
  buffer ←
    plot_lines (Z.of_nat width) (Z.of_nat height) (line_color (darkMode env))
      buffer (drawnLines env);
  Ok (mkRasterSim canvas (mkRasterData buffer 0 0 [])
        (rasterPixelInfo sim) (rasterScheduled sim)).

(** [`Scanline: ${currentScanline}, Pixel: ${currentPixelInScanline}`] *)
Definition scan_info (currentScanline currentPixelInScanline : nat) : PixelInfo :=
  mkPixelInfo (pretty currentPixelInScanline) (pretty currentScanline)
    ("Scanline: " +:+ pretty currentScanline +:+ ", Pixel: "
       +:+ pretty currentPixelInScanline).
Arguments scan_info : simpl never.

Definition raster_done_info : PixelInfo :=
  mkPixelInfo "Done" "Done" "Raster refresh complete!".

(** One tick of the raster sweep.  The tick that finds the simulation
    stopped or the buffer empty returns without scheduling a next one;
    every other tick ends by scheduling the next tick. *)
Definition animateRasterDisplay (env : Env) (sim : RasterSim)
  : Result RasterSim :=
  let canvas := rasterCanvas sim in
  let data := rasterDisplayData sim in
  let width := width canvas in
  let height := height canvas in
  if negb (isSimulating env) || bool_decide (length (buffer data) = 0%nat) then
    Ok (mkRasterSim canvas data (rasterPixelInfo sim) false)
  else
    let currentScanline := currentScanline data in
    let currentPixelInScanline := currentPixelInScanline data in
    if bool_decide (currentScanline < height)%nat
       && bool_decide (currentPixelInScanline < width)%nat then
      pixelColor ←
        buffer_read (buffer data)
          (Z.of_nat currentScanline) (Z.of_nat currentPixelInScanline);
      let canvas :=
        drawPixel (darkMode env) canvas
          (Z.of_nat currentPixelInScanline) (Z.of_nat currentScanline)
          (Some pixelColor) 2 in
      let info := scan_info currentScanline currentPixelInScanline in
      let currentPixelInScanline := S currentPixelInScanline in
      let '(currentScanline, currentPixelInScanline) :=
        if bool_decide (width <= currentPixelInScanline)%nat
        then (S currentScanline, 0%nat)
        else (currentScanline, currentPixelInScanline) in
      Ok (mkRasterSim canvas
            (mkRasterData (buffer data) currentScanline currentPixelInScanline
               (pixelsToDraw data))
            info true)
    else
      Ok (mkRasterSim (clearCanvas canvas)
            (mkRasterData (buffer data) 0 0 (pixelsToDraw data))
            raster_done_info true).

(** [n] ticks in a row. *)
Fixpoint raster_ticks (env : Env) (n : nat) (sim : RasterSim)
  : Result RasterSim :=
  match n with
  | O => Ok sim
  | S n' => sim' ← animateRasterDisplay env sim; raster_ticks env n' sim'
  end.

(** The rectangle a drawing tick paints for the cell at [(row, col)]:
    [drawPixel(ctx, col, row, buffer[row][col], 2)]. *)
Definition cell_rect (darkMode : bool) (buffer : list (list Color))
    (cell : nat * nat) : FillRect :=
  mkFillRect (Z.of_nat cell.2) (Z.of_nat cell.1) 2
    (final_color darkMode (buffer !! cell.1 ≫= fun cells => cells !! cell.2)).

(** The cells of a [width] by [height] grid in row-major order: the rows
    from top to bottom, each from left to right. *)
Definition row_major (width height : nat) : list (nat * nat) :=
  row ← seq 0 height; (fun col => (row, col)) <$> seq 0 width.

(** The framebuffer has [height] rows of [width] cells. *)
Definition buffer_shape (width height : nat) (buffer : list (list Color)) : Prop :=
  length buffer = height /\ Forall (fun cells => length cells = width) buffer.

(** The cursor of the sweep, [(currentScanline, currentPixelInScanline)]. *)
Definition raster_cursor (sim : RasterSim) : nat * nat :=
  (currentScanline (rasterDisplayData sim),
   currentPixelInScanline (rasterDisplayData sim)).

(** The framebuffer of a simulator has the size of its canvas, as
    [initializeRasterBuffer] leaves it. *)
Definition raster_wf (sim : RasterSim) : Prop :=
  buffer_shape (width (rasterCanvas sim)) (height (rasterCanvas sim))
    (buffer (rasterDisplayData sim)).

(** ** The random-scan simulator *)

(** [randomDisplayData.current] *)
Record RandomDisplayData := mkRandomData {
  currentLineIndex : nat;
  currentSegmentProgress : nat;
  segmentLength : nat
}.

Record RandomSim := mkRandomSim {
  randomCanvas : Canvas Stroke;
  randomDisplayData : RandomDisplayData;
  randomPixelInfo : PixelInfo;
  randomScheduled : bool
}.

(** [darkMode ? 'rgba(203, 213, 225, 0.8)' : 'rgba(0, 0, 0, 0.8)'] *)
Definition faded_color (darkMode : bool) : Color :=
  if darkMode then "rgba(203, 213, 225, 0.8)" else "rgba(0, 0, 0, 0.8)".

(** [darkMode ? '#fde047' : '#eab308'] *)
Definition highlight_color (darkMode : bool) : Color :=
  if darkMode then "#fde047" else "#eab308".

(** The info of a tracing tick: [`Line ${currentLineIndex + 1}`],
    [`(${line.x1},${line.y1}) to (${line.x2},${line.y2})`],
    ['Tracing line segment']. *)
Definition tracing_info (currentLineIndex : nat) (line : Line) : PixelInfo :=
  mkPixelInfo ("Line " +:+ pretty (S currentLineIndex))
    ("(" +:+ pretty (line_x1 line) +:+ "," +:+ pretty (line_y1 line)
       +:+ ") to (" +:+ pretty (line_x2 line) +:+ "," +:+ pretty (line_y2 line)
       +:+ ")")
    "Tracing line segment".
Arguments tracing_info : simpl never.

Definition random_done_info : PixelInfo :=
  mkPixelInfo "Done" "Done" "Random scan refresh complete!".

(** One tick of the random-scan refresh: clear, stroke every segment
    faded, stroke the segment at [currentLineIndex] highlighted, advance
    the index and wrap it.  [drawnLines[currentLineIndex]] is defined
    exactly when [currentLineIndex < drawnLines.length], which is the test
    the tick branches on. *)
Definition animateRandomDisplay (env : Env) (sim : RandomSim) : RandomSim :=
  let canvas := resizeCanvas (randomCanvas sim) in
  let data := randomDisplayData sim in
  if negb (isSimulating env) || bool_decide (length (drawnLines env) = 0%nat) then
    mkRandomSim canvas data (randomPixelInfo sim) false
  else
    let canvas := clearCanvas canvas in
    let canvas :=
      foldl (fun canvas line =>
               paint canvas (mkStroke line (faded_color (darkMode env)) 2))
        canvas (drawnLines env) in
    let currentLineIndex := currentLineIndex data in
    let '(canvas, currentLineIndex, info) :=
      match drawnLines env !! currentLineIndex with
      | Some line =>
          let canvas :=
            paint canvas (mkStroke line (highlight_color (darkMode env)) 3) in
          let info := tracing_info currentLineIndex line in
          let currentLineIndex := S currentLineIndex in
          if bool_decide (length (drawnLines env) <= currentLineIndex)%nat
          then (canvas, 0%nat, random_done_info)
          else (canvas, currentLineIndex, info)
      | None => (canvas, 0%nat, random_done_info)
      end in
    mkRandomSim canvas
      (mkRandomData currentLineIndex (currentSegmentProgress data)
         (segmentLength data))
      info true.

(** The state after [n] ticks, and the states after each of [n] ticks. *)
Fixpoint random_ticks (env : Env) (n : nat) (sim : RandomSim) : RandomSim :=
  match n with
  | O => sim
  | S n' => random_ticks env n' (animateRandomDisplay env sim)
  end.

Fixpoint random_run (env : Env) (n : nat) (sim : RandomSim) : list RandomSim :=
  match n with
  | O => []
  | S n' =>
      let sim' := animateRandomDisplay env sim in
      sim' :: random_run env n' sim'
  end.

(** The segment a tick has stroked in the highlight width, if any: the
    highlighted stroke is the last one the tick paints. *)
Definition highlighted (sim : RandomSim) : option Line :=
  s ← last (painted (randomCanvas sim));
  if bool_decide (stroke_width s = 3) then Some (stroke_line s) else None.

(** ** What the simulator claims say *)

(** The first [k] ticks of a frame draw the first [k] cells of the
    framebuffer in row-major order, one cell per tick, on top of what the
    canvas showed, and leave the cursor on cell number [k]. *)
Definition sweeps_row_major (env : Env) (sim0 : RasterSim) : Prop :=
  let w := width (rasterCanvas sim0) in
  let h := height (rasterCanvas sim0) in
  forall k : nat, (k <= h * w)%nat ->
    exists sim_k,
      raster_ticks env k sim0 = Ok sim_k /\
      painted (rasterCanvas sim_k) =
        painted (rasterCanvas sim0) ++
          (cell_rect (darkMode env) (buffer (rasterDisplayData sim0))
             <$> take k (row_major w h)) /\
      raster_cursor sim_k = ((k / w)%nat, (k mod w)%nat).

(** After [width * height] ticks the cursor is on scanline [height]; the
    next tick clears the canvas, puts the cursor back on [(0, 0)], reports
    the end of the frame and schedules the tick after it, with the
    framebuffer untouched. *)
Definition wraps_after_sweep (env : Env) (sim0 : RasterSim) : Prop :=
  let w := width (rasterCanvas sim0) in
  let h := height (rasterCanvas sim0) in
  exists sim_end sim_next,
    raster_ticks env (h * w) sim0 = Ok sim_end /\
    raster_cursor sim_end = (h, 0%nat) /\
    animateRasterDisplay env sim_end = Ok sim_next /\
    painted (rasterCanvas sim_next) = [] /\
    raster_cursor sim_next = (0%nat, 0%nat) /\
    rasterPixelInfo sim_next = raster_done_info /\
    rasterScheduled sim_next = true /\
    buffer (rasterDisplayData sim_next) = buffer (rasterDisplayData sim0) /\
    width (rasterCanvas sim_next) = w /\
    height (rasterCanvas sim_next) = h /\
    raster_wf sim_next.

(** The index of the random-scan simulator after [k] ticks is the start
    index advanced by [k] modulo the number of segments; it is back at the
    start after [n] ticks and not before. *)
Definition index_cycles (env : Env) (sim : RandomSim) : Prop :=
  let n := length (drawnLines env) in
  let i := currentLineIndex (randomDisplayData sim) in
  (forall k : nat,
     currentLineIndex (randomDisplayData (random_ticks env k sim))
     = ((i + k) mod n)%nat) /\
  currentLineIndex (randomDisplayData (random_ticks env n sim)) = i /\
  (forall k : nat, (0 < k < n)%nat ->
     currentLineIndex (randomDisplayData (random_ticks env k sim)) <> i).

(** Each tick highlights the segment at the index, schedules the next
    tick, and reports the end of the refresh exactly when the index
    wraps to 0. *)
Definition tick_highlights (env : Env) (sim : RandomSim) : Prop :=
  let n := length (drawnLines env) in
  forall k : nat,
    let before := random_ticks env k sim in
    let after := animateRandomDisplay env before in
    highlighted after
      = drawnLines env !! currentLineIndex (randomDisplayData before) /\
    randomScheduled after = true /\
    (randomPixelInfo after = random_done_info <->
     S (currentLineIndex (randomDisplayData before)) = n).

(** Over [n] ticks every segment is highlighted once: the highlighted
    segments are the list, read from the start index round to it. *)
Definition highlights_each_once (env : Env) (sim : RandomSim) : Prop :=
  let i := currentLineIndex (randomDisplayData sim) in
  highlighted <$> random_run env (length (drawnLines env)) sim
    = Some <$> (drop i (drawnLines env) ++ take i (drawnLines env)) /\
  drop i (drawnLines env) ++ take i (drawnLines env) ≡ₚ drawnLines env.

(** ** A small simulator configuration, used to run the model *)

(** Two segments, one of them leaving the canvas, on a 4 by 3 canvas. *)
Definition example_env : Env :=
  mkEnv [mkLine 0 0 3 2; mkLine 2 1 6 (-1)] 50 true true.

Definition example_blank_raster : RasterSim :=
  mkRasterSim (mkCanvas 4 3 0 0 []) (mkRasterData [] 0 0 [])
    (mkPixelInfo "--" "--" "N/A") false.

(** The raster simulator right after [initializeRasterBuffer]. *)
Definition example_raster : RasterSim :=
  match initializeRasterBuffer example_env example_blank_raster with
  | Ok sim => sim
  | _ => example_blank_raster
  end.

(** The random-scan simulator with the index on the second segment. *)
Definition example_random : RandomSim :=
  mkRandomSim (mkCanvas 4 3 4 3 []) (mkRandomData 1 0 10)
    (mkPixelInfo "--" "--" "N/A") false.

(** ** The algorithm visualizer: controller and playback

    The React component keeps its data in [useState] cells, two refs that
    remember the pending animation frame and timeout, and the browser's
    queues of pending callbacks.  The model is a state record with one
    function per handler; an event applies a handler to the state.  Handles
    are numbers drawn from a counter; a pending callback is a handle paired
    with the values its closure captured. *)
Module Visualizer.
Section with_numbers.
Context `{JSNumber}.

(** What [parseInt] can return. *)
Inductive Parsed := Int (z : Z) | NaN | PosInfinity | NegInfinity.

Definition isNaN (v : Parsed) : bool :=
  match v with NaN => true | _ => false end.

(** [v <= 0] *)
Definition le_zero (v : Parsed) : bool :=
  match v with
  | Int z => bool_decide (z <= 0)
  | NegInfinity => true
  | NaN | PosInfinity => false
  end.

(** The values of the algorithm selector: ['dda'], ['bresenham'],
    ['midpointCircle']. *)
Inductive Algorithm := Dda | Bresenham | MidpointCircle.

Record Coords := mkCoords {
  x0 : Parsed; y0 : Parsed; x1 : Parsed; y1 : Parsed;
  cx : Parsed; cy : Parsed; radius : Parsed
}.

(** [{ x0: 50, y0: 50, x1: 200, y1: 150, cx: 250, cy: 250, radius: 100 }] *)
Definition default_coords : Coords :=
  mkCoords (Int 50) (Int 50) (Int 200) (Int 150) (Int 250) (Int 250) (Int 100).

(** A value shown in the pixel read-out: a number or a text. *)
Inductive Shown := ShownNumber (n : num) | ShownText (s : string).

Record Readout := mkReadout { x : Shown; y : Shown; info : string }.

(** [{ x: '--', y: '--', info: 'N/A' }] *)
Definition blank_readout : Readout :=
  mkReadout (ShownText "--") (ShownText "--") "N/A".

(** [{ x: 'Done', y: 'Done', info: 'Algorithm complete!' }] *)
Definition done_readout : Readout :=
  mkReadout (ShownText "Done") (ShownText "Done") "Algorithm complete!".

(** One [fillRect] on the graphics canvas. *)
Record PixelRect := mkPixelRect {
  at_x : num; at_y : num; side : Z; fill : Color
}.

(** The [useState] cells. *)
Record ReactState := mkReact {
  currentAlgorithm : Algorithm;
  coords : Coords;
  animationDelay : Z;
  pixelData : list (PixelStep num);
  currentIndex : nat;
  isAnimating : bool;
  currentPixelInfo : Readout;
  message : string;
  showMessage : bool;
  darkMode : bool
}.

(** The values [animateGraphicsVisualization] closes over. *)
Record Closure := mkClosure {
  seen_currentIndex : nat;
  seen_pixelData : list (PixelStep num);
  seen_animationDelay : Z;
  seen_darkMode : bool
}.

Record AppState := mkApp {
  react : ReactState;
  graphicsCanvas : Canvas PixelRect;
  graphicsAnimationFrameIdRef : option nat;
  graphicsTimeoutIdRef : option nat;
  (** pending [requestAnimationFrame] callbacks *)
  frames : list (nat * Closure);
  (** pending [setTimeout] callbacks *)
  timeouts : list (nat * Closure);
  next_handle : nat;
  (** how many times [animateGraphicsVisualization] has run *)
  invocations : nat
}.

(** *** State setters *)

Definition with_react (f : ReactState -> ReactState) (st : AppState) : AppState :=
  mkApp (f (react st)) (graphicsCanvas st) (graphicsAnimationFrameIdRef st)
    (graphicsTimeoutIdRef st) (frames st) (timeouts st) (next_handle st)
    (invocations st).

Definition with_canvas (f : Canvas PixelRect -> Canvas PixelRect)
    (st : AppState) : AppState :=
  mkApp (react st) (f (graphicsCanvas st)) (graphicsAnimationFrameIdRef st)
    (graphicsTimeoutIdRef st) (frames st) (timeouts st) (next_handle st)
    (invocations st).

Definition setCurrentAlgorithm (a : Algorithm) (r : ReactState) : ReactState :=
  mkReact a (coords r) (animationDelay r) (pixelData r) (currentIndex r)
    (isAnimating r) (currentPixelInfo r) (message r) (showMessage r) (darkMode r).

Definition setCoords (c : Coords) (r : ReactState) : ReactState :=
  mkReact (currentAlgorithm r) c (animationDelay r) (pixelData r) (currentIndex r)
    (isAnimating r) (currentPixelInfo r) (message r) (showMessage r) (darkMode r).

Definition setAnimationDelay (d : Z) (r : ReactState) : ReactState :=
  mkReact (currentAlgorithm r) (coords r) d (pixelData r) (currentIndex r)
    (isAnimating r) (currentPixelInfo r) (message r) (showMessage r) (darkMode r).

Definition setPixelData (l : list (PixelStep num)) (r : ReactState) : ReactState :=
  mkReact (currentAlgorithm r) (coords r) (animationDelay r) l (currentIndex r)
    (isAnimating r) (currentPixelInfo r) (message r) (showMessage r) (darkMode r).

Definition setCurrentIndex (f : nat -> nat) (r : ReactState) : ReactState :=
  mkReact (currentAlgorithm r) (coords r) (animationDelay r) (pixelData r)
    (f (currentIndex r))
    (isAnimating r) (currentPixelInfo r) (message r) (showMessage r) (darkMode r).

Definition setIsAnimating (b : bool) (r : ReactState) : ReactState :=
  mkReact (currentAlgorithm r) (coords r) (animationDelay r) (pixelData r)
    (currentIndex r) b (currentPixelInfo r) (message r) (showMessage r) (darkMode r).

Definition setCurrentPixelInfo (i : Readout) (r : ReactState) : ReactState :=
  mkReact (currentAlgorithm r) (coords r) (animationDelay r) (pixelData r)
    (currentIndex r) (isAnimating r) i (message r) (showMessage r) (darkMode r).

Definition setDarkMode (f : bool -> bool) (r : ReactState) : ReactState :=
  mkReact (currentAlgorithm r) (coords r) (animationDelay r) (pixelData r)
    (currentIndex r) (isAnimating r) (currentPixelInfo r) (message r)
    (showMessage r) (f (darkMode r)).

(** [showCustomMessage(msg)]: the message is set and shown (the timer that
    hides it three seconds later is not part of the model). *)
Definition showCustomMessage (msg : string) (r : ReactState) : ReactState :=
  mkReact (currentAlgorithm r) (coords r) (animationDelay r) (pixelData r)
    (currentIndex r) (isAnimating r) (currentPixelInfo r) msg true (darkMode r).

(** *** The browser's timers *)

Definition drop_handle (id : nat) (q : list (nat * Closure)) : list (nat * Closure) :=
  filter (fun entry : nat * Closure => entry.1 <> id) q.

(** [if (ref.current) { cancelAnimationFrame(ref.current); }] *)
Definition cancelAnimationFrame (id : option nat) (st : AppState) : AppState :=
  match id with
  | Some id =>
      mkApp (react st) (graphicsCanvas st) (graphicsAnimationFrameIdRef st)
        (graphicsTimeoutIdRef st) (drop_handle id (frames st)) (timeouts st)
        (next_handle st) (invocations st)
  | None => st
  end.

(** [if (ref.current) { clearTimeout(ref.current); }] *)
Definition clearTimeout (id : option nat) (st : AppState) : AppState :=
  match id with
  | Some id =>
      mkApp (react st) (graphicsCanvas st) (graphicsAnimationFrameIdRef st)
        (graphicsTimeoutIdRef st) (frames st) (drop_handle id (timeouts st))
        (next_handle st) (invocations st)
  | None => st
  end.

(** [graphicsAnimationFrameIdRef.current = requestAnimationFrame(callback)] *)
Definition requestAnimationFrame (callback : Closure) (st : AppState) : AppState :=
  mkApp (react st) (graphicsCanvas st) (Some (next_handle st))
    (graphicsTimeoutIdRef st) (frames st ++ [(next_handle st, callback)])
    (timeouts st) (S (next_handle st)) (invocations st).

(** [graphicsTimeoutIdRef.current = setTimeout(() => { ...
    requestAnimationFrame(callback) }, animationDelay)] *)
Definition setTimeout (callback : Closure) (st : AppState) : AppState :=
  mkApp (react st) (graphicsCanvas st) (graphicsAnimationFrameIdRef st)
    (Some (next_handle st)) (frames st)
    (timeouts st ++ [(next_handle st, callback)])
    (S (next_handle st)) (invocations st).

Definition clear_refs (st : AppState) : AppState :=
  mkApp (react st) (graphicsCanvas st) None None (frames st) (timeouts st)
    (next_handle st) (invocations st).

Definition count_invocation (st : AppState) : AppState :=
  mkApp (react st) (graphicsCanvas st) (graphicsAnimationFrameIdRef st)
    (graphicsTimeoutIdRef st) (frames st) (timeouts st) (next_handle st)
    (S (invocations st)).

(** *** Handlers *)

(** [drawPixel(ctx, x, y, color, size)] on the graphics canvas (every call
    in the component passes a colour). *)
Definition drawPixel (x y : num) (color : Color) (size : Z)
    (canvas : Canvas PixelRect) : Canvas PixelRect :=
  paint canvas (mkPixelRect x y size color).

Definition clearGraphicsCanvas (resetAll : bool) (st : AppState) : AppState :=
  let st := with_canvas clearCanvas st in
  let st := with_react (setPixelData []) st in
  let st := with_react (setCurrentIndex (fun _ => 0%nat)) st in
  let st := with_react (setIsAnimating false) st in
  let st := with_react (setCurrentPixelInfo blank_readout) st in
  let st := cancelAnimationFrame (graphicsAnimationFrameIdRef st) st in
  let st := clearTimeout (graphicsTimeoutIdRef st) st in
  let st := clear_refs st in
  if resetAll then
    let st := with_react (setCoords default_coords) st in
    let st := with_react (setCurrentAlgorithm Dda) st in
    with_react (setAnimationDelay 50) st
  else st.

(** [resizeGraphicsCanvas]: when the layout size differs from the bitmap
    size the bitmap is resized and the canvas cleared. *)
Definition resizeGraphicsCanvas (st : AppState) : AppState :=
  let canvas := graphicsCanvas st in
  if bool_decide (width canvas <> clientWidth canvas
                  \/ height canvas <> clientHeight canvas)
  then clearGraphicsCanvas false (with_canvas resizeCanvas st)
  else st.

Definition pixel_of_int (p : PixelStep Z) : PixelStep num :=
  mkPixelStep (of_int (pixel_x p)) (of_int (pixel_y p)) (pixel_info p).

(** What the [try] block of [handleStartVisualization] comes to. *)
Inductive Generated :=
  | Threw (msg : string)
  | Pixels (generatedPixels : list (PixelStep num))
  (** the checks passed and the rasterizer was called on an infinite
      argument, where the integer model of the rasterizers does not apply *)
  | CalledOnInfinity
  | BudgetExhausted.

Definition of_pixels (o : option (list (PixelStep num))) : Generated :=
  match o with Some l => Pixels l | None => BudgetExhausted end.

(** The pixels of an integer rasterizer as numbers. *)
Definition pixels_of_int (l : list (PixelStep Z)) : list (PixelStep num) :=
  pixel_of_int <$> l.

(** [currentAlgorithm === 'dda' ? ddaLine(x0, y0, x1, y1)
                                 : bresenhamLine(x0, y0, x1, y1)] *)
Definition line_pixels (algorithm : Algorithm) (x0 y0 x1 y1 : Z)
  : option (list (PixelStep num)) :=
  match algorithm with
  | Dda => ddaLine (dda_fuel x0 y0 x1 y1) x0 y0 x1 y1
  | _ => pixels_of_int <$> bresenhamLine (line_fuel x0 y0 x1 y1) x0 y0 x1 y1
  end.

Definition generate (algorithm : Algorithm) (c : Coords) : Generated :=
  match algorithm with
  | Dda | Bresenham =>
      if isNaN (x0 c) || isNaN (y0 c) || isNaN (x1 c) || isNaN (y1 c) then
        Threw "Please enter valid numeric coordinates for lines."
      else
        match x0 c, y0 c, x1 c, y1 c with
        | Int x0, Int y0, Int x1, Int y1 =>
            of_pixels (line_pixels algorithm x0 y0 x1 y1)
        | _, _, _, _ => CalledOnInfinity
        end
  | MidpointCircle =>
      if isNaN (cx c) || isNaN (cy c) || isNaN (radius c) then
        Threw "Please enter valid numeric coordinates and radius for circle."
      else if le_zero (radius c) then
        Threw "Radius must be a positive number."
      else
        match cx c, cy c, radius c with
        | Int cx, Int cy, Int r =>
            of_pixels (pixels_of_int <$> midpointCircle (circle_fuel r) cx cy r)
        | _, _, _ => CalledOnInfinity
        end
  end.

(** How a click on Start ends: the handler returns with a new state, or
    it has called a rasterizer outside the integer model. *)
Inductive StartOutcome :=
  | Completed (st : AppState)
  | RasterizerCalledOnInfinity
  | RasterizerBudgetExhausted.

Definition handleStartVisualization (st : AppState) : StartOutcome :=
  let st := clearGraphicsCanvas false st in
  let st := with_react (setCurrentIndex (fun _ => 0%nat)) st in
  match generate (currentAlgorithm (react st)) (coords (react st)) with
  | Threw msg =>
      let st := with_react (showCustomMessage msg) st in
      Completed (with_react (setIsAnimating false) st)
  | Pixels generatedPixels =>
      if bool_decide (0 < length generatedPixels)%nat then
        let st := with_react (setPixelData generatedPixels) st in
        Completed (with_react (setIsAnimating true) st)
      else
        let st :=
          with_react (showCustomMessage "No pixels generated. Check inputs.") st in
        Completed (with_react (setIsAnimating false) st)
  | CalledOnInfinity => RasterizerCalledOnInfinity
  | BudgetExhausted => RasterizerBudgetExhausted
  end.

(** ['#ef4444'] *)
Definition highlight : Color := "#ef4444".

(** One run of [animateGraphicsVisualization], with the values its closure
    captured.  The step branch ("onStep") draws and schedules the next run;
    the other branch ("onDone") reports completion. *)
Definition animateGraphicsVisualization (seen : Closure) (st : AppState)
  : AppState :=
  let st := count_invocation st in
  let currentIndex := seen_currentIndex seen in
  let pixelData := seen_pixelData seen in
  let normal := line_color (seen_darkMode seen) in
  match pixelData !! currentIndex with
  | Some pixel =>
      let st :=
        match currentIndex with
        | S previous =>
            match pixelData !! previous with
            | Some prevPixel =>
                with_canvas (drawPixel (pixel_x prevPixel) (pixel_y prevPixel) normal 2) st
            | None => st
            end
        | O => st
        end in
      let st := with_canvas (drawPixel (pixel_x pixel) (pixel_y pixel) highlight 4) st in
      let st :=
        with_react
          (setCurrentPixelInfo
             (mkReadout (ShownNumber (pixel_x pixel)) (ShownNumber (pixel_y pixel))
                (pixel_info pixel))) st in
      let st := with_react (setCurrentIndex S) st in
      setTimeout seen st
  | None =>
      let st :=
        match last pixelData with
        | Some lastPixel =>
            with_canvas (drawPixel (pixel_x lastPixel) (pixel_y lastPixel) normal 2) st
        | None => st
        end in
      let st := with_react (setCurrentPixelInfo done_readout) st in
      let st := with_react (setIsAnimating false) st in
      clear_refs st
  end.

(** The closure a render creates from the current state. *)
Definition render (st : AppState) : Closure :=
  mkClosure (currentIndex (react st)) (pixelData (react st))
    (animationDelay (react st)) (darkMode (react st)).

(** The effect that starts and stops the animation: the clean-up of its
    previous run, then its body. *)
Definition animation_effect (st : AppState) : AppState :=
  (* clean-up *)
  let st := cancelAnimationFrame (graphicsAnimationFrameIdRef st) st in
  let st := clearTimeout (graphicsTimeoutIdRef st) st in
  (* body *)
  if isAnimating (react st) && bool_decide (0 < length (pixelData (react st)))%nat
  then requestAnimationFrame (render st) st
  else
    let st := cancelAnimationFrame (graphicsAnimationFrameIdRef st) st in
    clearTimeout (graphicsTimeoutIdRef st) st.

(** *** Events *)

Inductive CoordField := Fx0 | Fy0 | Fx1 | Fy1 | Fcx | Fcy | Fradius.

(** [parseInt(value) || 0] *)
Definition or_zero (v : Parsed) : Parsed :=
  match v with
  | NaN => Int 0
  | Int z => Int z
  | PosInfinity => PosInfinity
  | NegInfinity => NegInfinity
  end.

(** [setCoords(prev => ({ ...prev, [id]: parseInt(value) || 0 }))] *)
Definition handleCoordChange (id : CoordField) (value : Parsed)
    (c : Coords) : Coords :=
  let v := or_zero value in
  match id with
  | Fx0 => mkCoords v (y0 c) (x1 c) (y1 c) (cx c) (cy c) (radius c)
  | Fy0 => mkCoords (x0 c) v (x1 c) (y1 c) (cx c) (cy c) (radius c)
  | Fx1 => mkCoords (x0 c) (y0 c) v (y1 c) (cx c) (cy c) (radius c)
  | Fy1 => mkCoords (x0 c) (y0 c) (x1 c) v (cx c) (cy c) (radius c)
  | Fcx => mkCoords (x0 c) (y0 c) (x1 c) (y1 c) v (cy c) (radius c)
  | Fcy => mkCoords (x0 c) (y0 c) (x1 c) (y1 c) (cx c) v (radius c)
  | Fradius => mkCoords (x0 c) (y0 c) (x1 c) (y1 c) (cx c) (cy c) v
  end.

Inductive Event :=
  (* the user *)
  | ClickStart
  | ClickClear
  | ClickReset
  | ChangeAlgorithm (a : Algorithm)
  | ChangeCoord (id : CoordField) (value : Parsed)
  | ChangeSpeed (delay : Z)
  | ToggleDarkMode
  | WindowResize (clientWidth clientHeight : nat)
  (* the browser and React *)
  | FrameFires (id : nat)
  | TimeoutFires (id : nat)
  | EffectRuns.

Definition find_handle (id : nat) (q : list (nat * Closure)) : option Closure :=
  snd <$> head (filter (fun entry : nat * Closure => entry.1 = id) q).

(** One event: one task of the browser's event loop.  A frame or a
    timeout fires only while it is pending, and firing removes it from its
    queue.  React runs the animation effect (the clean-up of its previous
    run, then its body) after a commit in which one of its dependencies
    changed, within the task that changed them or in a task of its own;
    in the model [EffectRuns] may happen at any moment and sees the state
    as it is then, which covers every such commit.  Every control is
    taken as enabled in every state: the component disables its Start
    button while an animation is on, the model lets [ClickStart] happen
    at any moment, so that the runs of the model include those of the
    component.  [None]: the Start handler did not return in the model. *)
Definition step (e : Event) (st : AppState) : option AppState :=
  match e with
  | ClickStart =>
      match handleStartVisualization st with
      | Completed st' => Some st'
      | _ => None
      end
  | ClickClear => Some (clearGraphicsCanvas false st)
  | ClickReset => Some (clearGraphicsCanvas true st)
  | ChangeAlgorithm a =>
      Some (clearGraphicsCanvas false (with_react (setCurrentAlgorithm a) st))
  | ChangeCoord id value =>
      Some (with_react
              (fun r => setCoords (handleCoordChange id value (coords r)) r) st)
  | ChangeSpeed delay => Some (with_react (setAnimationDelay delay) st)
  | ToggleDarkMode => Some (with_react (setDarkMode negb) st)
  | WindowResize w h =>
      Some (resizeGraphicsCanvas
              (with_canvas
                 (fun c => mkCanvas w h (width c) (height c) (painted c)) st))
  | FrameFires id =>
      match find_handle id (frames st) with
      | Some callback =>
          Some (animateGraphicsVisualization callback
                  (mkApp (react st) (graphicsCanvas st)
                     (graphicsAnimationFrameIdRef st) (graphicsTimeoutIdRef st)
                     (drop_handle id (frames st)) (timeouts st)
                     (next_handle st) (invocations st)))
      | None => Some st
      end
  | TimeoutFires id =>
      match find_handle id (timeouts st) with
      | Some callback =>
          Some (requestAnimationFrame callback
                  (mkApp (react st) (graphicsCanvas st)
                     (graphicsAnimationFrameIdRef st) (graphicsTimeoutIdRef st)
                     (frames st) (drop_handle id (timeouts st))
                     (next_handle st) (invocations st)))
      | None => Some st
      end
  | EffectRuns => Some (animation_effect st)
  end.

Fixpoint run (events : list Event) (st : AppState) : option AppState :=
  match events with
  | [] => Some st
  | e :: rest => st' ← step e st; run rest st'
  end.

(** The component as mounted: the default inputs, a clear canvas, nothing
    pending.  Handles start at 1: a handle is never 0, so the tests
    [if (ref.current)] of the source ask whether a handle is remembered. *)
Definition initial (clientWidth clientHeight : nat) : AppState :=
  mkApp
    (mkReact Dda default_coords 50 [] 0 false blank_readout "" false true)
    (mkCanvas clientWidth clientHeight clientWidth clientHeight [])
    None None [] [] 1 0.

Definition reachable (st : AppState) : Prop :=
  exists (w h : nat) (events : list Event), run events (initial w h) = Some st.

(** Every pending callback is the one the matching ref remembers, and at
    most one callback is pending. *)
Definition pending_tracked (st : AppState) : Prop :=
  (frames st = [] /\ timeouts st = []) \/
  (exists id callback,
      frames st = [(id, callback)] /\ timeouts st = [] /\
      graphicsAnimationFrameIdRef st = Some id) \/
  (exists id callback,
      frames st = [] /\ timeouts st = [(id, callback)] /\
      graphicsTimeoutIdRef st = Some id).

(** Nothing is pending and no animation is on. *)
Definition quiescent (st : AppState) : Prop :=
  frames st = [] /\ timeouts st = [] /\ isAnimating (react st) = false.

Definition is_start (e : Event) : bool :=
  match e with ClickStart => true | _ => false end.

(** The state a cancellation leaves, and that lasts until the next Start:
    nothing pending, no animation, an empty canvas, no pixel data, the
    blank read-out. *)
Definition cancelled (st : AppState) : Prop :=
  quiescent st /\
  painted (graphicsCanvas st) = [] /\
  pixelData (react st) = [] /\
  currentPixelInfo (react st) = blank_readout.

(** *** Validation *)

(** The parameters the Start handler rejects: a NaN among the parameters
    of the selected algorithm, or a circle radius that is not positive. *)
Definition rejected (algorithm : Algorithm) (c : Coords) : bool :=
  match algorithm with
  | Dda | Bresenham =>
      isNaN (x0 c) || isNaN (y0 c) || isNaN (x1 c) || isNaN (y1 c)
  | MidpointCircle =>
      isNaN (cx c) || isNaN (cy c) || isNaN (radius c) || le_zero (radius c)
  end.

Definition not_finite (v : Parsed) : bool :=
  match v with Int _ => false | _ => true end.

(** A parameter of the selected algorithm is NaN or infinite, or the
    radius of a circle is not positive. *)
Definition invalid (algorithm : Algorithm) (c : Coords) : bool :=
  match algorithm with
  | Dda | Bresenham =>
      not_finite (x0 c) || not_finite (y0 c)
      || not_finite (x1 c) || not_finite (y1 c)
  | MidpointCircle =>
      not_finite (cx c) || not_finite (cy c) || not_finite (radius c)
      || le_zero (radius c)
  end.

(** The Start handler returns having shown a message, with no pixel data
    and the surface as it was. *)
Definition reports_error_untouched (st : AppState) : Prop :=
  exists st',
    handleStartVisualization st = Completed st' /\
    showMessage (react st') = true /\
    pixelData (react st') = [] /\
    graphicsCanvas st' = graphicsCanvas st.

(** The checks of the Start button of the HTML page, which run after its
    [clearCanvas()], in the order and with the operator precedence of the
    source ([a || b || c || d && e] is [a || b || c || (d && e)]).  The
    answer is the text of the alert, if there is one. *)
Definition startBtn_checks (currentAlgorithm : Algorithm) (c : Coords)
  : option string :=
  let line :=
    match currentAlgorithm with Dda | Bresenham => true | _ => false end in
  let circle :=
    match currentAlgorithm with MidpointCircle => true | _ => false end in
  if isNaN (x0 c) || isNaN (y0 c) || isNaN (x1 c) || (isNaN (y1 c) && line)
  then Some "Please enter valid numeric coordinates for lines."
  else if isNaN (cx c) || isNaN (cy c) || (isNaN (radius c) && circle)
  then Some "Please enter valid numeric coordinates and radius for circle."
  else if le_zero (radius c) && circle
  then Some "Radius must be a positive number."
  else None.

End with_numbers.

Arguments drop_handle : simpl never.
Arguments find_handle : simpl never.
Arguments clearGraphicsCanvas : simpl never.
Arguments resizeGraphicsCanvas : simpl never.
Arguments handleStartVisualization : simpl never.
Arguments animateGraphicsVisualization : simpl never.
Arguments animation_effect : simpl never.

(** *** Example states

    The examples fix one carrier of numbers and never look inside it: the
    pixels they draw come from the integer algorithms. *)
Lemma example_numbers : JSNumber.
Proof. exact ideal_numbers. Qed.

(** Start is clicked with [x0 = Infinity] and Bresenham selected. *)
Definition example_infinite : AppState (H := example_numbers) :=
  mkApp
    (mkReact Bresenham
       (mkCoords PosInfinity (Int 0) (Int 3) (Int 1) (Int 0) (Int 0) (Int 5))
       50 [] 0 false blank_readout "" false true)
    (mkCanvas 500 500 500 500 []) None None [] [] 1 0.

(** Start is clicked with [x0 = NaN] while the canvas shows a pixel of an
    earlier run. *)
Definition example_nan : AppState (H := example_numbers) :=
  mkApp
    (mkReact Dda
       (mkCoords NaN (Int 0) (Int 3) (Int 1) (Int 0) (Int 0) (Int 5))
       50 [] 0 false blank_readout "" false true)
    (mkCanvas 500 500 500 500
       [mkPixelRect (of_int 7) (of_int 7) 2 "#cbd5e1"])
    None None [] [] 1 0.

(** Start is clicked with the circle selected and radius 0 while the
    canvas shows a pixel of an earlier run. *)
Definition example_after_drawing : AppState (H := example_numbers) :=
  mkApp
    (mkReact MidpointCircle
       (mkCoords (Int 50) (Int 50) (Int 200) (Int 150) (Int 250) (Int 250) (Int 0))
       50 [] 0 false done_readout "" false true)
    (mkCanvas 500 500 500 500
       [mkPixelRect (of_int 350) (of_int 250) 2 "#cbd5e1"])
    None None [] [] 1 0.

(** Start is clicked with the circle selected and radius 0. *)
Definition example_zero_radius : AppState (H := example_numbers) :=
  mkApp
    (mkReact MidpointCircle
       (mkCoords (Int 0) (Int 0) (Int 3) (Int 1) (Int 0) (Int 0) (Int 0))
       50 [] 0 false blank_readout "" false true)
    (mkCanvas 500 500 500 500 []) None None [] [] 1 0.

(** The events that lead into the middle of a playback: Bresenham from
    [(50, 50)] to [(52, 51)], the effect has requested the first frame,
    the frame has drawn the first pixel and set the timeout for the next. *)
Definition example_events : list Event :=
  [ChangeAlgorithm Bresenham; ChangeCoord Fx1 (Int 52); ChangeCoord Fy1 (Int 51);
   ClickStart; EffectRuns; FrameFires 1].

Definition example_playing : AppState (H := example_numbers) :=
  default (initial 500 500) (run example_events (initial 500 500)).

(** What may follow the cancellation: the timeout that was pending, the
    frame it would have requested, effect runs, a change of speed. *)
Definition example_aftermath : list Event :=
  [TimeoutFires 2; FrameFires 3; EffectRuns; ChangeSpeed 10;
   FrameFires 1; TimeoutFires 2; EffectRuns].

End Visualizer.

(** ** JavaScript numbers as they are: binary64

    A JavaScript number is an IEEE 754 binary64 value.  The finite ones
    are rationals [m * 2^u] with [|m| < 2^53] and [-1074 <= u <= 971]; the
    result of an operation is the exact result rounded to the nearest of
    them, to the one with even [m] on a tie, and to an infinity from
    [2^1024 - 2^970] on.  The sign of zero is not tracked: the programs
    below never divide by zero except in [0 / 0], and never print a zero
    of their own. *)
Module Double.

Inductive t := Finite (q : Q) | PosInfinity | NegInfinity | NaN.

(** The integer nearest to [n / d] (for [d > 0]), the even one on a tie. *)
Definition round_half_even (n d : Z) : Z :=
  let q := n / d in
  match 2 * (n mod d) ?= d with
  | Lt => q
  | Gt => q + 1
  | Eq => if Z.even q then q else q + 1
  end.

(** [floor (log2 (n / d))] for positive [n] and [d]. *)
Definition binade (n d : Z) : Z :=
  let k := Z.log2 n - Z.log2 d in
  if bool_decide (d * 2 ^ Z.max k 0 <= n * 2 ^ Z.max (- k) 0) then k else k - 1.

(** The binary64 value nearest to a fraction in lowest terms: with [u]
    the exponent of the last place ([52] below the binade, never below
    [-1074]), the fraction is rounded to a multiple [m * 2^u]. *)
Definition nearest (q : Q) : t :=
  if bool_decide (Qnum q = 0) then Finite 0
  else
    let d := Zpos (Qden q) in
    let u := Z.max (binade (Z.abs (Qnum q)) d - 52) (- 1074) in
    let m := round_half_even (Qnum q * 2 ^ Z.max (- u) 0) (d * 2 ^ Z.max u 0) in
    if bool_decide (2 ^ 1024 <= Z.abs m * 2 ^ Z.max u 0) then
      if bool_decide (0 < m) then PosInfinity else NegInfinity
    else Finite (Qred (m * 2 ^ Z.max u 0 # Z.to_pos (2 ^ Z.max (- u) 0))).

(** The binary64 value of the exact result [q]. *)
Definition round (q : Q) : t := nearest (Qred q).

(** The number that holds the integer [z], for [|z| <= 2^53] (and for
    every other integer that binary64 represents). *)
Definition int (z : Z) : t := Finite (inject_Z z).

(** What [parseInt] gives on a decimal numeral: the binary64 value of the
    integer. *)
Definition of_int (z : Z) : t := round (inject_Z z).

(** [- a] *)
Definition neg (a : t) : t :=
  match a with
  | Finite q => Finite (Qopp q)
  | PosInfinity => NegInfinity
  | NegInfinity => PosInfinity
  | NaN => NaN
  end.

(** [a + b] *)
Definition add (a b : t) : t :=
  match a, b with
  | Finite p, Finite q => round (Qplus p q)
  | NaN, _ | _, NaN => NaN
  | PosInfinity, NegInfinity | NegInfinity, PosInfinity => NaN
  | PosInfinity, _ | _, PosInfinity => PosInfinity
  | NegInfinity, _ | _, NegInfinity => NegInfinity
  end.

(** [a - b] *)
Definition sub (a b : t) : t := add a (neg b).

(** The sign of a number that is not NaN: -1, 0 or 1. *)
Definition sign (a : t) : Z :=
  match a with
  | Finite q => Z.sgn (Qnum q)
  | PosInfinity => 1
  | NegInfinity => -1
  | NaN => 0
  end.

(** [a * b] *)
Definition mul (a b : t) : t :=
  match a, b with
  | Finite p, Finite q => round (Qmult p q)
  | NaN, _ | _, NaN => NaN
  | _, _ =>
      match sign a * sign b with
      | Z0 => NaN
      | Zpos _ => PosInfinity
      | Zneg _ => NegInfinity
      end
  end.

(** [a / b] *)
Definition div (a b : t) : t :=
  match a, b with
  | NaN, _ | _, NaN => NaN
  | Finite p, Finite q =>
      if bool_decide (Qnum q = 0) then
        match Z.sgn (Qnum p) with
        | Z0 => NaN
        | Zpos _ => PosInfinity
        | Zneg _ => NegInfinity
        end
      else round (Qdiv p q)
  | Finite _, _ => Finite 0
  | _, Finite _ =>
      match sign a * (if bool_decide (sign b = 0) then 1 else sign b) with
      | Zneg _ => NegInfinity
      | _ => PosInfinity
      end
  | _, _ => NaN
  end.

(** [Math.abs(a)] *)
Definition abs (a : t) : t :=
  match a with
  | Finite q => Finite (Z.abs (Qnum q) # Qden q)
  | PosInfinity | NegInfinity => PosInfinity
  | NaN => NaN
  end.

(** [a < b] *)
Definition lt (a b : t) : bool :=
  match a, b with
  | Finite p, Finite q =>
      bool_decide (Qnum p * Zpos (Qden q) < Qnum q * Zpos (Qden p))
  | NaN, _ | _, NaN => false
  | _, NegInfinity => false
  | PosInfinity, _ => false
  | _, _ => true
  end.

(** [a === b] *)
Definition eq (a b : t) : bool :=
  match a, b with
  | Finite p, Finite q =>
      bool_decide (Qnum p * Zpos (Qden q) = Qnum q * Zpos (Qden p))
  | PosInfinity, PosInfinity | NegInfinity, NegInfinity => true
  | _, _ => false
  end.

(** [a > b], [a <= b], [a >= b] *)
Definition gt (a b : t) : bool := lt b a.
Definition le (a b : t) : bool := lt a b || eq a b.
Definition ge (a b : t) : bool := le b a.

(** [Math.round(a)]: the nearest integer, the larger one on a tie. *)
Definition Math_round (a : t) : t :=
  match a with
  | Finite q => Finite (inject_Z (Qfloor (Qplus q (1 # 2))))
  | _ => a
  end.

(** A pixel position as the rasterizers push it, [{ x, y }] (the [info]
    string, whose numerals need [Number::toString], is left out). *)
Record Pixel := mkPixel { x : t; y : t }.

(** *** [bresenhamLine] *)

(** [e2 = 2 * err; if (e2 > -dy) { err -= dy; x += sx; }
     if (e2 < dx) { err += dx; y += sy; }] *)
Definition bresenham_advance (dx dy sx sy : t) (s : t * t * t) : t * t * t :=
  let '(x, y, err) := s in
  let e2 := mul (int 2) err in
  let '(err, x) := if gt e2 (neg dy) then (sub err dy, add x sx) else (err, x) in
  let '(err, y) := if lt e2 dx then (add err dx, add y sy) else (err, y) in
  (x, y, err).

(** The [while (true)] loop; [None]: the loop has not left after [fuel]
    iterations. *)
Fixpoint bresenham_loop (fuel : nat) (x1 y1 dx dy sx sy x y err : t)
  : option (list Pixel) :=
  match fuel with
  | O => None
  | S fuel' =>
      if eq x x1 && eq y y1 then Some [mkPixel x y]
      else
        let '(x', y', err') := bresenham_advance dx dy sx sy (x, y, err) in
        cons (mkPixel x y) <$> bresenham_loop fuel' x1 y1 dx dy sx sy x' y' err'
  end.

Definition bresenhamLine (fuel : nat) (x0 y0 x1 y1 : t) : option (list Pixel) :=
  let dx := abs (sub x1 x0) in
  let dy := abs (sub y1 y0) in
  let sx := if lt x0 x1 then int 1 else int (-1) in
  let sy := if lt y0 y1 then int 1 else int (-1) in
  let err := sub dx dy in
  bresenham_loop fuel x1 y1 dx dy sx sy x0 y0 err.

(** *** [bresenhamLinePixels] *)

(** [x >= 0 && x < canvasWidth && y >= 0 && y < canvasHeight] *)
Definition in_canvas (canvasWidth canvasHeight x y : t) : bool :=
  ge x (int 0) && lt x canvasWidth && ge y (int 0) && lt y canvasHeight.

Fixpoint bresenhamLinePixels_loop (fuel : nat)
    (x1 y1 dx dy sx sy canvasWidth canvasHeight x y err : t)
  : option (list Pixel) :=
  match fuel with
  | O => None
  | S fuel' =>
      let pushed :=
        if in_canvas canvasWidth canvasHeight x y
        then [mkPixel (Math_round x) (Math_round y)] else [] in
      if eq x x1 && eq y y1 then Some pushed
      else
        let '(x', y', err') := bresenham_advance dx dy sx sy (x, y, err) in
        app pushed <$>
          bresenhamLinePixels_loop fuel' x1 y1 dx dy sx sy
            canvasWidth canvasHeight x' y' err'
  end.

Definition bresenhamLinePixels (fuel : nat)
    (x0 y0 x1 y1 canvasWidth canvasHeight : t) : option (list Pixel) :=
  let dx := abs (sub x1 x0) in
  let dy := abs (sub y1 y0) in
  let sx := if lt x0 x1 then int 1 else int (-1) in
  let sy := if lt y0 y1 then int 1 else int (-1) in
  let err := sub dx dy in
  bresenhamLinePixels_loop fuel x1 y1 dx dy sx sy canvasWidth canvasHeight
    x0 y0 err.

(** *** [midpointCircle] *)

Definition drawCirclePoints (cx cy px py : t) : list Pixel :=
  [ mkPixel (add cx px) (add cy py);
    mkPixel (add cx py) (add cy px);
    mkPixel (sub cx px) (add cy py);
    mkPixel (sub cx py) (add cy px);
    mkPixel (sub cx px) (sub cy py);
    mkPixel (sub cx py) (sub cy px);
    mkPixel (add cx px) (sub cy py);
    mkPixel (add cx py) (sub cy px) ].

(** [x++; if (p < 0) p = p + 2*x + 1; else { y--; p = p + 2*x + 1 - 2*y; }] *)
Definition circle_advance (s : t * t * t) : t * t * t :=
  let '(x, y, p) := s in
  let x := add x (int 1) in
  if lt p (int 0) then (x, y, add (add p (mul (int 2) x)) (int 1))
  else
    let y := sub y (int 1) in
    (x, y, sub (add (add p (mul (int 2) x)) (int 1)) (mul (int 2) y)).

Fixpoint circle_loop (fuel : nat) (cx cy x y p : t) : option (list Pixel) :=
  if lt x y then
    match fuel with
    | O => None
    | S fuel' =>
        let '(x', y', p') := circle_advance (x, y, p) in
        app (drawCirclePoints cx cy x' y') <$> circle_loop fuel' cx cy x' y' p'
    end
  else Some [].

Definition midpointCircle (fuel : nat) (cx cy r : t) : option (list Pixel) :=
  let x := int 0 in
  let y := r in
  let p := sub (int 1) r in
  app (drawCirclePoints cx cy x y) <$> circle_loop fuel cx cy x y p.

(** *** [ddaLine] *)

(** [for (let i = 0; i <= steps; i++) { push; x += xIncrement; y += yIncrement }] *)
Fixpoint dda_loop (fuel : nat) (steps i x y xIncrement yIncrement : t)
  : option (list Pixel) :=
  if le i steps then
    match fuel with
    | O => None
    | S fuel' =>
        cons (mkPixel (Math_round x) (Math_round y))
          <$> dda_loop fuel' steps (add i (int 1))
                (add x xIncrement) (add y yIncrement) xIncrement yIncrement
    end
  else Some [].

Definition ddaLine (fuel : nat) (x0 y0 x1 y1 : t) : option (list Pixel) :=
  let dx := sub x1 x0 in
  let dy := sub y1 y0 in
  let steps := if gt (abs dx) (abs dy) then abs dx else abs dy in
  let xIncrement := div dx steps in
  let yIncrement := div dy steps in
  dda_loop fuel steps (int 0) x0 y0 xIncrement yIncrement.

End Double.

(** The integers on which the integer algorithms stay exact: with end
    points, centre and radius of absolute value at most [2^50], every
    number the algorithms compute is an integer below [2^53]. *)
Definition safe (z : Z) : Prop := Z.abs z <= 2 ^ 50.

(** The pixel of the integer model as binary64 numbers. *)
Definition double_pixel (p : PixelStep Z) : Double.Pixel :=
  Double.mkPixel (Double.int (pixel_x p)) (Double.int (pixel_y p)).

Definition double_point (q : Point) : Double.Pixel :=
  Double.mkPixel (Double.int (point_x q)) (Double.int (point_y q)).

(** The pixels of [l] that lie on the canvas, as [bresenhamLinePixels]
    pushes them: the test is on the coordinates, the push is
    [Math.round] of them. *)
Definition double_visible (canvasWidth canvasHeight : Double.t)
    (l : list Double.Pixel) : list Double.Pixel :=
  (fun p => Double.mkPixel (Double.Math_round (Double.x p))
              (Double.Math_round (Double.y p)))
    <$> filter (fun p => Double.in_canvas canvasWidth canvasHeight
                           (Double.x p) (Double.y p)) l.

(** The pixels of [l] that lie on the canvas. *)
Definition double_on_canvas (canvasWidth canvasHeight : Double.t)
    (l : list Double.Pixel) : list Double.Pixel :=
  filter (fun p => Double.in_canvas canvasWidth canvasHeight
                     (Double.x p) (Double.y p)) l.

(** A number without a fractional part: an integer, an infinity or NaN. *)
Definition whole (a : Double.t) : Prop :=
  match a with
  | Double.Finite q => exists k : Z, q = inject_Z k
  | _ => True
  end.

(** Pixel number [k] of a DDA line lies [k] pixels from the start on the
    axis the loop counts on. *)
Definition double_major_step (x0 y0 x1 y1 k : Z) (p : Double.Pixel) : Prop :=
  if bool_decide (Z.abs (x1 - x0) > Z.abs (y1 - y0))
  then Double.x p = Double.int (x0 + Z.sgn (x1 - x0) * k)
  else Double.y p = Double.int (y0 + Z.sgn (y1 - y0) * k).


(** What [parseInt] returned, as the number it is. *)
Definition double_of_parsed (v : Visualizer.Parsed) : Double.t :=
  match v with
  | Visualizer.Int z => Double.of_int z
  | Visualizer.NaN => Double.NaN
  | Visualizer.PosInfinity => Double.PosInfinity
  | Visualizer.NegInfinity => Double.NegInfinity
  end.

Definition safe_parsed (v : Visualizer.Parsed) : Prop :=
  match v with Visualizer.Int z => safe z | _ => True end.

(** Every input field holds a safe integer (or no integer at all). *)
Definition safe_coords (c : Visualizer.Coords) : Prop :=
  safe_parsed (Visualizer.x0 c) /\ safe_parsed (Visualizer.y0 c) /\
  safe_parsed (Visualizer.x1 c) /\ safe_parsed (Visualizer.y1 c) /\
  safe_parsed (Visualizer.cx c) /\ safe_parsed (Visualizer.cy c) /\
  safe_parsed (Visualizer.radius c).

(** The call of the rasterizer that a click on Start makes, in binary64:
    the positions it returns. *)
Definition double_rasterize (fuel : nat) (a : Visualizer.Algorithm)
    (c : Visualizer.Coords) : option (list Double.Pixel) :=
  match a with
  | Visualizer.Dda =>
      Double.ddaLine fuel
        (double_of_parsed (Visualizer.x0 c)) (double_of_parsed (Visualizer.y0 c))
        (double_of_parsed (Visualizer.x1 c)) (double_of_parsed (Visualizer.y1 c))
  | Visualizer.Bresenham =>
      Double.bresenhamLine fuel
        (double_of_parsed (Visualizer.x0 c)) (double_of_parsed (Visualizer.y0 c))
        (double_of_parsed (Visualizer.x1 c)) (double_of_parsed (Visualizer.y1 c))
  | Visualizer.MidpointCircle =>
      Double.midpointCircle fuel
        (double_of_parsed (Visualizer.cx c)) (double_of_parsed (Visualizer.cy c))
        (double_of_parsed (Visualizer.radius c))
  end.

(** The binary64 rasterizer returns, with every budget from some budget
    on, as many pixels as [pixels] has. *)
Definition double_rasterize_returns {A : Type} (a : Visualizer.Algorithm)
    (c : Visualizer.Coords) (pixels : list A) : Prop :=
  exists (fuel : nat) (l : list Double.Pixel),
    (forall k : nat, double_rasterize (fuel + k) a c = Some l) /\
    length l = length pixels.

(** ** Measures of a rasterized line *)

(** The twice-signed area between the ideal line through [(x0, y0)] and
    [(x1, y1)] and the point [q]: it vanishes exactly on the line. *)
Definition cross (x0 y0 x1 y1 : Z) (q : Point) : Z :=
  (x1 - x0) * (point_y q - y0) - (y1 - y0) * (point_x q - x0).

(** [q] is within half a pixel of the ideal line, measured along the
    axis on which the line advances more slowly. *)
Definition near_line (x0 y0 x1 y1 : Z) (q : Point) : Prop :=
  2 * Z.abs (cross x0 y0 x1 y1 q)
  <= Z.max (Z.abs (x1 - x0)) (Z.abs (y1 - y0)).

(** The pixel number [k] of a line has advanced [k] pixels from the start
    along the axis on which the line is longer. *)
Definition on_major_step (x0 y0 x1 y1 : Z) (k : Z) (q : Point) : Prop :=
  if bool_decide (Z.abs (y1 - y0) <= Z.abs (x1 - x0))
  then point_x q = x0 + Z.sgn (x1 - x0) * k
  else point_y q = y0 + Z.sgn (y1 - y0) * k.

(** [q] lies in the rectangle spanned by the two end points. *)
Definition in_box (x0 y0 x1 y1 : Z) (q : Point) : Prop :=
  Z.min x0 x1 <= point_x q <= Z.max x0 x1 /\
  Z.min y0 y1 <= point_y q <= Z.max y0 y1.

(** The sharper loop invariant: at iteration [i], after [a] steps along x
    and [b] along y, the longer axis has been stepped [i] times and the
    position is within half a pixel of the ideal line. *)
Definition line_inv_tight (dx dy a b i : Z) : Prop :=
  - Z.max dx dy <= 2 * (dx * b - dy * a) <= Z.max dx dy /\
  (if bool_decide (dy <= dx) then a = i else b = i).

(** What the loop invariants say about the pixel pushed at iteration [k]. *)
Definition line_pixel (x0 y0 dx dy sx sy : Z) (k : Z) (p : PixelStep Z) : Prop :=
  exists a b,
    0 <= a <= dx /\ 0 <= b <= dy /\
    pixel_x p = x0 + sx * a /\ pixel_y p = y0 + sy * b /\
    line_inv_tight dx dy a b k.

(** ** Measures of a rasterized circle *)

(** [q] lies in the square of half side [r] around the centre. *)
Definition in_circle_box (cx cy r : Z) (q : Point) : Prop :=
  cx - r <= point_x q <= cx + r /\ cy - r <= point_y q <= cy + r.

(** The squared distance of [q] from the centre differs from [r^2] by at
    most [r + 1]. *)
Definition circle_error_bound (cx cy r : Z) (q : Point) : Prop :=
  let d2 := (point_x q - cx) * (point_x q - cx)
            + (point_y q - cy) * (point_y q - cy) in
  Z.abs (d2 - r * r) <= r + 1.

(** ** The playback of the visualizer

    What an undisturbed playback of the component looks like: the events
    it consists of and what the canvas shows on the way. *)

Module Playback.
Section with_numbers.
Context `{JSNumber}.
Import Visualizer.

(** The two rectangles the playback paints for one pixel: the red
    highlight when the pixel is the current one, the normal colour when the
    next step (or the end of the playback) comes. *)
Definition playback_rects (darkMode : bool) (p : PixelStep num) : list PixelRect :=
  [mkPixelRect (pixel_x p) (pixel_y p) 4 highlight;
   mkPixelRect (pixel_x p) (pixel_y p) 2 (line_color darkMode)].

(** The events of an undisturbed playback of [n] pixels: React runs the
    effect after the commit that changed [pixelData], [isAnimating] or the
    callback (the callback changes with [currentIndex]), the effect
    requests a frame, and the frame fires; this [n + 1] times, the last
    of which finds the index past the data.  [id] is the handle of the
    first frame; every round takes two handles, one for the frame and one
    for the timeout that the effect of the next round clears. *)
Fixpoint playback (id : nat) (rounds : nat) : list Event :=
  match rounds with
  | O => []
  | S rounds' => EffectRuns :: FrameFires id :: playback (S (S id)) rounds'
  end.

(** What the canvas shows on top of [base] when the playback of [l] has
    done [k] steps: both rectangles of the pixels before the current one,
    and the highlight of the current one. *)
Definition shown (darkMode : bool) (l : list (PixelStep num)) (k : nat)
  : list PixelRect :=
  match k with
  | O => []
  | S j =>
      flat_map (playback_rects darkMode) (take j l)
      ++ match l !! j with
         | Some p => [mkPixelRect (pixel_x p) (pixel_y p) 4 highlight]
         | None => []
         end
  end.

(** The playback of [l] has done [k] steps and waits for React to run
    the effect: the only callback that may be pending is the timeout the
    last step has set, which the ref remembers. *)
Definition playing (l : list (PixelStep num)) (k : nat) (st : AppState) : Prop :=
  pixelData (react st) = l /\ isAnimating (react st) = true /\
  currentIndex (react st) = k /\ frames st = [] /\
  (timeouts st = [] \/
   exists t c, timeouts st = [(t, c)] /\ graphicsTimeoutIdRef st = Some t).

(** No coordinate is NaN. *)
Definition no_NaN (c : Coords) : Prop :=
  isNaN (x0 c) = false /\ isNaN (y0 c) = false /\
  isNaN (x1 c) = false /\ isNaN (y1 c) = false /\
  isNaN (cx c) = false /\ isNaN (cy c) = false /\ isNaN (radius c) = false.

End with_numbers.
End Playback.

(** The events that select the circle and type radius 0, and the state
    they lead to. *)
Definition example_radius_events : list Visualizer.Event :=
  [Visualizer.ChangeAlgorithm Visualizer.MidpointCircle;
   Visualizer.ChangeCoord Visualizer.Fradius (Visualizer.Int 0)].

Definition example_radius_typed : Visualizer.AppState (H := Visualizer.example_numbers) :=
  default (Visualizer.initial 500 500)
    (Visualizer.run example_radius_events (Visualizer.initial 500 500)).

(** ** The algorithm visualizer as a plain HTML page

    The page keeps its data in script variables and in the document.  Its
    functions read the variables when they run: nothing is captured.  The
    input fields are modelled by what [parseInt] gives on their text.  The
    page's [ddaLine], [bresenhamLine] and [midpointCircle] are statement
    for statement those of the component, except that they push to the
    variable [pixelData] instead of returning the array. *)
Module Page.
Section with_numbers.
Context `{JSNumber}.

(** The controls of the panel: the seven input fields, the speed slider
    and its label, the name of the algorithm, and which group of inputs
    is hidden. *)
Record Panel := mkPanel {
  fields : Visualizer.Coords;
  animationSpeed : Z;
  speedValue : string;
  currentAlgo : string;
  lineInputs_hidden : bool;
  circleInputs_hidden : bool
}.

Record State := mkPage {
  panel : Panel;
  (** [currentX], [currentY] and the step info *)
  visualizationInfo : Visualizer.Readout;
  canvas : Canvas Visualizer.PixelRect;
  (** the texts of the alerts raised so far *)
  alerts : list string;
  (** the script variables *)
  currentAlgorithm : Visualizer.Algorithm;
  animationFrameId : option nat;
  pixelData : list (PixelStep num);
  currentIndex : nat;
  animationDelay : Z;
  (** pending [requestAnimationFrame] and [setTimeout] callbacks *)
  frames : list nat;
  timeouts : list nat;
  next_handle : nat;
  (** how many times [animateVisualization] has run *)
  invocations : nat
}.

Definition set_panel (p : Panel) (st : State) : State :=
  mkPage p (visualizationInfo st) (canvas st) (alerts st) (currentAlgorithm st)
    (animationFrameId st) (pixelData st) (currentIndex st) (animationDelay st)
    (frames st) (timeouts st) (next_handle st) (invocations st).

Definition set_canvas (c : Canvas Visualizer.PixelRect) (st : State) : State :=
  mkPage (panel st) (visualizationInfo st) c (alerts st) (currentAlgorithm st)
    (animationFrameId st) (pixelData st) (currentIndex st) (animationDelay st)
    (frames st) (timeouts st) (next_handle st) (invocations st).

Definition set_currentAlgorithm (a : Visualizer.Algorithm) (st : State) : State :=
  mkPage (panel st) (visualizationInfo st) (canvas st) (alerts st) a
    (animationFrameId st) (pixelData st) (currentIndex st) (animationDelay st)
    (frames st) (timeouts st) (next_handle st) (invocations st).

Definition set_animationFrameId (id : option nat) (st : State) : State :=
  mkPage (panel st) (visualizationInfo st) (canvas st) (alerts st)
    (currentAlgorithm st) id (pixelData st) (currentIndex st) (animationDelay st)
    (frames st) (timeouts st) (next_handle st) (invocations st).

Definition set_pixelData (l : list (PixelStep num)) (st : State) : State :=
  mkPage (panel st) (visualizationInfo st) (canvas st) (alerts st)
    (currentAlgorithm st) (animationFrameId st) l (currentIndex st)
    (animationDelay st) (frames st) (timeouts st) (next_handle st)
    (invocations st).

Definition set_currentIndex (i : nat) (st : State) : State :=
  mkPage (panel st) (visualizationInfo st) (canvas st) (alerts st)
    (currentAlgorithm st) (animationFrameId st) (pixelData st) i
    (animationDelay st) (frames st) (timeouts st) (next_handle st)
    (invocations st).

Definition set_animationDelay (d : Z) (st : State) : State :=
  mkPage (panel st) (visualizationInfo st) (canvas st) (alerts st)
    (currentAlgorithm st) (animationFrameId st) (pixelData st) (currentIndex st)
    d (frames st) (timeouts st) (next_handle st) (invocations st).

Definition set_frames (q : list nat) (st : State) : State :=
  mkPage (panel st) (visualizationInfo st) (canvas st) (alerts st)
    (currentAlgorithm st) (animationFrameId st) (pixelData st) (currentIndex st)
    (animationDelay st) q (timeouts st) (next_handle st) (invocations st).

(** [alert(msg)] *)
Definition alert (msg : string) (st : State) : State :=
  mkPage (panel st) (visualizationInfo st) (canvas st) (alerts st ++ [msg])
    (currentAlgorithm st) (animationFrameId st) (pixelData st) (currentIndex st)
    (animationDelay st) (frames st) (timeouts st) (next_handle st)
    (invocations st).

(** [updateVisualizationInfo(x, y, info)] *)
Definition updateVisualizationInfo (x y : Visualizer.Shown) (info : string)
    (st : State) : State :=
  mkPage (panel st) (Visualizer.mkReadout x y info) (canvas st) (alerts st)
    (currentAlgorithm st) (animationFrameId st) (pixelData st) (currentIndex st)
    (animationDelay st) (frames st) (timeouts st) (next_handle st)
    (invocations st).

(** [drawPixel(x, y, color, size)] *)
Definition drawPixel (x y : num) (color : Color) (size : Z) (st : State) : State :=
  set_canvas (paint (canvas st) (Visualizer.mkPixelRect x y size color)) st.

(** [if (animationFrameId) { cancelAnimationFrame(animationFrameId); }] *)
Definition cancelAnimationFrame (st : State) : State :=
  match animationFrameId st with
  | Some id => set_frames (filter (fun pending => pending <> id) (frames st)) st
  | None => st
  end.

(** [clearCanvas()]: the timeout of a running playback is not touched,
    the page keeps no handle of it. *)
Definition clearCanvas (st : State) : State :=
  let st := set_canvas (clearCanvas (canvas st)) st in
  let st := set_pixelData [] st in
  let st := set_currentIndex 0 st in
  let st :=
    updateVisualizationInfo (Visualizer.ShownText "--") (Visualizer.ShownText "--")
      "N/A" st in
  match animationFrameId st with
  | Some _ => set_animationFrameId None (cancelAnimationFrame st)
  | None => st
  end.

(** [resizeCanvas()] *)
Definition resizeCanvas (st : State) : State :=
  if bool_decide (width (canvas st) <> clientWidth (canvas st)
                  \/ height (canvas st) <> clientHeight (canvas st))
  then clearCanvas (set_canvas (resizeCanvas (canvas st)) st)
  else st.

(** The text of the label of a radio button. *)
Definition label (a : Visualizer.Algorithm) : string :=
  match a with
  | Visualizer.Dda => "DDA Line"
  | Visualizer.Bresenham => "Bresenham's Line"
  | Visualizer.MidpointCircle => "Midpoint Circle"
  end.

(** [toggleInputVisibility()]; the checked radio button is the one of
    [currentAlgorithm]. *)
Definition toggleInputVisibility (st : State) : State :=
  let p := panel st in
  let circle :=
    match currentAlgorithm st with
    | Visualizer.MidpointCircle => true
    | _ => false
    end in
  set_panel
    (mkPanel (fields p) (animationSpeed p) (speedValue p)
       (label (currentAlgorithm st)) circle (negb circle)) st.

(** [resetView()]: the controls go back to their first values; the
    variable [animationDelay] is not assigned. *)
Definition resetView (st : State) : State :=
  let st := clearCanvas st in
  let st :=
    set_panel
      (mkPanel Visualizer.default_coords (animationSpeed (panel st))
         (speedValue (panel st)) (currentAlgo (panel st))
         (lineInputs_hidden (panel st)) (circleInputs_hidden (panel st))) st in
  let st := set_currentAlgorithm Visualizer.Dda st in
  let st := toggleInputVisibility st in
  let st :=
    updateVisualizationInfo (Visualizer.ShownText "--") (Visualizer.ShownText "--")
      "N/A" st in
  set_panel
    (mkPanel (fields (panel st)) 50 "50 ms" "DDA Line"
       (lineInputs_hidden (panel st)) (circleInputs_hidden (panel st))) st.

(** [setTimeout(() => { animationFrameId =
    requestAnimationFrame(animateVisualization); }, animationDelay)]: the
    handle that [setTimeout] returns is dropped. *)
Definition setTimeout (st : State) : State :=
  mkPage (panel st) (visualizationInfo st) (canvas st) (alerts st)
    (currentAlgorithm st) (animationFrameId st) (pixelData st) (currentIndex st)
    (animationDelay st) (frames st) (timeouts st ++ [next_handle st])
    (S (next_handle st)) (invocations st).

(** [animationFrameId = requestAnimationFrame(animateVisualization)] *)
Definition requestAnimationFrame (st : State) : State :=
  mkPage (panel st) (visualizationInfo st) (canvas st) (alerts st)
    (currentAlgorithm st) (Some (next_handle st)) (pixelData st)
    (currentIndex st) (animationDelay st) (frames st ++ [next_handle st])
    (timeouts st) (S (next_handle st)) (invocations st).

Definition count_invocation (st : State) : State :=
  mkPage (panel st) (visualizationInfo st) (canvas st) (alerts st)
    (currentAlgorithm st) (animationFrameId st) (pixelData st) (currentIndex st)
    (animationDelay st) (frames st) (timeouts st) (next_handle st)
    (S (invocations st)).

(** [animateVisualization()] *)
Definition animateVisualization (st : State) : State :=
  let st := count_invocation st in
  match pixelData st !! currentIndex st with
  | Some pixel =>
      let st :=
        match currentIndex st with
        | S previous =>
            match pixelData st !! previous with
            | Some prevPixel =>
                drawPixel (pixel_x prevPixel) (pixel_y prevPixel) "black" 2 st
            | None => st
            end
        | O => st
        end in
      let st := drawPixel (pixel_x pixel) (pixel_y pixel) "#ef4444" 4 st in
      let st :=
        updateVisualizationInfo (Visualizer.ShownNumber (pixel_x pixel))
          (Visualizer.ShownNumber (pixel_y pixel)) (pixel_info pixel) st in
      let st := set_currentIndex (S (currentIndex st)) st in
      setTimeout st
  | None =>
      let st :=
        match last (pixelData st) with
        | Some lastPixel =>
            drawPixel (pixel_x lastPixel) (pixel_y lastPixel) "black" 2 st
        | None => st
        end in
      let st :=
        updateVisualizationInfo (Visualizer.ShownText "Done")
          (Visualizer.ShownText "Done") "Algorithm complete!" st in
      set_animationFrameId None st
  end.

(** The [switch] of the Start button: the selected rasterizer fills
    [pixelData].  [None]: a rasterizer was called on a value that is not an
    integer, where the integer model of the rasterizers does not apply, or
    ran out of budget. *)
Definition rasterize (a : Visualizer.Algorithm) (c : Visualizer.Coords)
  : option (list (PixelStep num)) :=
  match a with
  | Visualizer.Dda | Visualizer.Bresenham =>
      match Visualizer.x0 c, Visualizer.y0 c, Visualizer.x1 c, Visualizer.y1 c with
      | Visualizer.Int x0, Visualizer.Int y0, Visualizer.Int x1, Visualizer.Int y1 =>
          Visualizer.line_pixels a x0 y0 x1 y1
      | _, _, _, _ => None
      end
  | Visualizer.MidpointCircle =>
      match Visualizer.cx c, Visualizer.cy c, Visualizer.radius c with
      | Visualizer.Int cx, Visualizer.Int cy, Visualizer.Int r =>
          Visualizer.pixels_of_int <$> midpointCircle (circle_fuel r) cx cy r
      | _, _, _ => None
      end
  end.

(** The click listener of the Start button. *)
Definition startBtn_click (st : State) : option State :=
  let st := clearCanvas st in
  let st := set_currentIndex 0 st in
  match Visualizer.startBtn_checks (currentAlgorithm st) (fields (panel st)) with
  | Some msg => Some (alert msg st)
  | None =>
      pixels ← rasterize (currentAlgorithm st) (fields (panel st));
      let st := set_pixelData pixels st in
      let st := cancelAnimationFrame st in
      if bool_decide (0 < length (pixelData st))%nat
      then Some (animateVisualization st)
      else
        Some (updateVisualizationInfo (Visualizer.ShownText "Error")
                (Visualizer.ShownText "Error")
                "No pixels generated. Check inputs." st)
  end.

Inductive Event :=
  (* the user *)
  | StartClick
  | ClearClick
  | ResetClick
  | AlgorithmChange (a : Visualizer.Algorithm)
  | SpeedInput (value : Z)
  | FieldEdit (id : Visualizer.CoordField) (value : Visualizer.Parsed)
  | WindowResize (clientWidth clientHeight : nat)
  (* the browser *)
  | TimeoutFires (id : nat)
  | FrameFires (id : nat).

(** The user types into an input field: no listener runs. *)
Definition edit_field (id : Visualizer.CoordField) (value : Visualizer.Parsed)
    (c : Visualizer.Coords) : Visualizer.Coords :=
  match id with
  | Visualizer.Fx0 =>
      Visualizer.mkCoords value (Visualizer.y0 c) (Visualizer.x1 c)
        (Visualizer.y1 c) (Visualizer.cx c) (Visualizer.cy c) (Visualizer.radius c)
  | Visualizer.Fy0 =>
      Visualizer.mkCoords (Visualizer.x0 c) value (Visualizer.x1 c)
        (Visualizer.y1 c) (Visualizer.cx c) (Visualizer.cy c) (Visualizer.radius c)
  | Visualizer.Fx1 =>
      Visualizer.mkCoords (Visualizer.x0 c) (Visualizer.y0 c) value
        (Visualizer.y1 c) (Visualizer.cx c) (Visualizer.cy c) (Visualizer.radius c)
  | Visualizer.Fy1 =>
      Visualizer.mkCoords (Visualizer.x0 c) (Visualizer.y0 c) (Visualizer.x1 c)
        value (Visualizer.cx c) (Visualizer.cy c) (Visualizer.radius c)
  | Visualizer.Fcx =>
      Visualizer.mkCoords (Visualizer.x0 c) (Visualizer.y0 c) (Visualizer.x1 c)
        (Visualizer.y1 c) value (Visualizer.cy c) (Visualizer.radius c)
  | Visualizer.Fcy =>
      Visualizer.mkCoords (Visualizer.x0 c) (Visualizer.y0 c) (Visualizer.x1 c)
        (Visualizer.y1 c) (Visualizer.cx c) value (Visualizer.radius c)
  | Visualizer.Fradius =>
      Visualizer.mkCoords (Visualizer.x0 c) (Visualizer.y0 c) (Visualizer.x1 c)
        (Visualizer.y1 c) (Visualizer.cx c) (Visualizer.cy c) value
  end.

(** One event: one task of the browser's event loop.  A timeout or a
    frame fires only while it is pending, and firing removes it from its
    queue.  [None]: the Start listener did not return in the model. *)
Definition step (e : Event) (st : State) : option State :=
  match e with
  | StartClick => startBtn_click st
  | ClearClick => Some (clearCanvas st)
  | ResetClick => Some (resetView st)
  | AlgorithmChange a =>
      Some (clearCanvas (toggleInputVisibility (set_currentAlgorithm a st)))
  | SpeedInput value =>
      let p := panel st in
      Some (set_panel
              (mkPanel (fields p) value (pretty value +:+ " ms") (currentAlgo p)
                 (lineInputs_hidden p) (circleInputs_hidden p))
              (set_animationDelay value st))
  | FieldEdit id value =>
      let p := panel st in
      Some (set_panel
              (mkPanel (edit_field id value (fields p)) (animationSpeed p)
                 (speedValue p) (currentAlgo p) (lineInputs_hidden p)
                 (circleInputs_hidden p)) st)
  | WindowResize w h =>
      let c := canvas st in
      Some (resizeCanvas (set_canvas (mkCanvas w h (width c) (height c) (painted c)) st))
  | TimeoutFires id =>
      if bool_decide (id ∈ timeouts st) then
        Some (requestAnimationFrame
                (mkPage (panel st) (visualizationInfo st) (canvas st) (alerts st)
                   (currentAlgorithm st) (animationFrameId st) (pixelData st)
                   (currentIndex st) (animationDelay st) (frames st)
                   (filter (fun pending => pending <> id) (timeouts st))
                   (next_handle st) (invocations st)))
      else Some st
  | FrameFires id =>
      if bool_decide (id ∈ frames st) then
        Some (animateVisualization
                (set_frames (filter (fun pending => pending <> id) (frames st)) st))
      else Some st
  end.

Fixpoint run (events : list Event) (st : State) : option State :=
  match events with
  | [] => Some st
  | e :: rest => st' ← step e st; run rest st'
  end.

(** The page as loaded: the script has sized the canvas and called
    [resetView()]. *)
Definition loaded (clientWidth clientHeight : nat) : State :=
  mkPage
    (mkPanel Visualizer.default_coords 50 "50 ms" "DDA Line" false true)
    Visualizer.blank_readout
    (mkCanvas clientWidth clientHeight clientWidth clientHeight [])
    [] Visualizer.Dda None [] 0 50 [] [] 1 0.

(** The events of an undisturbed playback after the click on Start: the
    timeout fires and requests a frame, the frame fires and runs
    [animateVisualization]; [id] is the handle of the timeout of the first
    round, and every round takes two handles. *)
Fixpoint playback (id : nat) (rounds : nat) : list Event :=
  match rounds with
  | O => []
  | S rounds' => TimeoutFires id :: FrameFires (S id) :: playback (S (S id)) rounds'
  end.

(** The two rectangles the playback paints for one pixel. *)
Definition playback_rects (p : PixelStep num) : list Visualizer.PixelRect :=
  [Visualizer.mkPixelRect (pixel_x p) (pixel_y p) 4 "#ef4444";
   Visualizer.mkPixelRect (pixel_x p) (pixel_y p) 2 "black"].

(** What the canvas shows when the playback of [l] has done [k] steps. *)
Definition shown (l : list (PixelStep num)) (k : nat) : list Visualizer.PixelRect :=
  match k with
  | O => []
  | S j =>
      flat_map playback_rects (take j l)
      ++ match l !! j with
         | Some p => [Visualizer.mkPixelRect (pixel_x p) (pixel_y p) 4 "#ef4444"]
         | None => []
         end
  end.

(** The fields the checks of the Start button look at, whatever the
    algorithm: x0, y0, x1, cx and cy; and, for the selected algorithm only,
    y1 (lines) or the radius (circle). *)
Definition passes_checks (a : Visualizer.Algorithm) (c : Visualizer.Coords) : bool :=
  negb (Visualizer.isNaN (Visualizer.x0 c)) && negb (Visualizer.isNaN (Visualizer.y0 c))
  && negb (Visualizer.isNaN (Visualizer.x1 c))
  && negb (Visualizer.isNaN (Visualizer.cx c)) && negb (Visualizer.isNaN (Visualizer.cy c))
  && match a with
     | Visualizer.MidpointCircle =>
         negb (Visualizer.isNaN (Visualizer.radius c))
         && negb (Visualizer.le_zero (Visualizer.radius c))
     | _ => negb (Visualizer.isNaN (Visualizer.y1 c))
     end.

(** The playback of [l] has done [k] steps and waits for the timeout
    [t], the only callback pending. *)
Definition playing (l : list (PixelStep num)) (k t : nat) (st : State) : Prop :=
  pixelData st = l /\ currentIndex st = k /\ frames st = [] /\
  timeouts st = [t] /\ next_handle st = S t.

End with_numbers.

Arguments clearCanvas : simpl never.
Arguments animateVisualization : simpl never.
Arguments startBtn_click : simpl never.
Arguments resetView : simpl never.

End Page.

(** The events that lead the page into the middle of a playback:
    Bresenham from [(50, 50)] to [(52, 51)], the click on Start has drawn
    the first pixel and set the timeout for the next. *)
Definition example_page_events : list Page.Event :=
  [Page.AlgorithmChange Visualizer.Bresenham;
   Page.FieldEdit Visualizer.Fx1 (Visualizer.Int 52);
   Page.FieldEdit Visualizer.Fy1 (Visualizer.Int 51);
   Page.StartClick].

Definition example_page_playing : Page.State (H := Visualizer.example_numbers) :=
  default (Page.loaded 500 500)
    (Page.run example_page_events (Page.loaded 500 500)).

(** ** The framebuffer and the effects of the simulator *)

(** The pixels of a user-drawn segment: the positions [bresenhamLine]
    gives for its end points ([bresenhamLinePixels] returns those of them
    that are on the canvas). *)
Definition segment_pixels (line : Line) : list Point :=
  match bresenhamLine
          (line_fuel (line_x1 line) (line_y1 line) (line_x2 line) (line_y2 line))
          (line_x1 line) (line_y1 line) (line_x2 line) (line_y2 line) with
  | Some l => position <$> l
  | None => []
  end.

(** The cell in column [col] of row [row] is on one of the segments. *)
Definition lit (lines : list Line) (row col : nat) : bool :=
  bool_decide
    (Exists (fun line => mkPoint (Z.of_nat col) (Z.of_nat row) ∈ segment_pixels line)
       lines).

(** The colour of a cell of the framebuffer: [buffer[row][col]]. *)
Definition cell (buffer : list (list Color)) (row col : nat) : option Color :=
  buffer !! row ≫= fun cells => cells !! col.

(** The colour the framebuffer is meant to hold for a cell. *)
Definition cell_color (darkMode : bool) (lines : list Line) (row col : nat) : Color :=
  if lit lines row col then line_color darkMode else background_color darkMode.

(** The effect that starts and stops the raster loop: when the
    simulation is on it builds the framebuffer anew and schedules a tick,
    otherwise it cancels what is scheduled. *)
Definition raster_effect (env : Env) (sim : RasterSim) : Result RasterSim :=
  if isSimulating env then
    sim ← initializeRasterBuffer env sim;
    Ok (mkRasterSim (rasterCanvas sim) (rasterDisplayData sim)
          (rasterPixelInfo sim) true)
  else
    Ok (mkRasterSim (rasterCanvas sim) (rasterDisplayData sim)
          (rasterPixelInfo sim) false).

(** The effect that starts and stops the random-scan loop: when the
    simulation is on it puts the index back on the first segment and
    schedules a tick, otherwise it cancels what is scheduled and clears
    the canvas. *)
Definition random_effect (env : Env) (sim : RandomSim) : RandomSim :=
  if isSimulating env then
    mkRandomSim (randomCanvas sim)
      (mkRandomData 0 (currentSegmentProgress (randomDisplayData sim))
         (segmentLength (randomDisplayData sim)))
      (randomPixelInfo sim) true
  else
    mkRandomSim (clearCanvas (randomCanvas sim)) (randomDisplayData sim)
      (randomPixelInfo sim) false.

(** ** The display simulator as a whole

    The component of the display simulator: the four [useState] cells the
    simulators read ([Env]), the pen of the input canvas, the message box,
    the pixel read-out, the three canvases with the simulators' refs, and
    the timers of [handleMouseUp] that are waiting to switch the simulation
    back on.  Mouse positions are integer offsets into the input canvas.
    The component has one pixel read-out, [currentPixelInfo]; a tick is
    handed its value and leaves the new one. *)
Module Simulator.

(** One stroke on the input canvas: solid for a drawn segment, dashed
    ([setLineDash([5, 5])]) for the preview. *)
Record InputStroke := mkInputStroke {
  input_stroke : Stroke;
  input_dashed : bool
}.

(** [isDrawing], [startPoint], [currentLinePreview] *)
Record Pen := mkPen {
  isDrawing : bool;
  startPoint : Point;
  currentLinePreview : option Line
}.

Record State := mkSim {
  env : Env;
  pen : Pen;
  message : string;
  showMessage : bool;
  currentPixelInfo : PixelInfo;
  inputCanvas : Canvas InputStroke;
  raster : RasterSim;
  random : RandomSim;
  (** pending [setTimeout(() => setIsSimulating(true), 100)] *)
  restarts : nat
}.

(** How an event ends: with a new state, or in one of the ways the model
    cannot follow (the theorems show that none of them arises). *)
Inductive Outcome :=
  | Next (st : State)
  (** an index outside the framebuffer *)
  | AccessOutOfRange
  (** a rasterizer loop that used up its budget *)
  | RasterizerBudget
  (** [{ ...prev, x2, y2 }] on a preview that is [null]: a segment
      without a start *)
  | UndefinedPreview.

Definition set_env (e : Env) (st : State) : State :=
  mkSim e (pen st) (message st) (showMessage st) (currentPixelInfo st)
    (inputCanvas st) (raster st) (random st) (restarts st).

Definition set_pen (p : Pen) (st : State) : State :=
  mkSim (env st) p (message st) (showMessage st) (currentPixelInfo st)
    (inputCanvas st) (raster st) (random st) (restarts st).

Definition set_currentPixelInfo (i : PixelInfo) (st : State) : State :=
  mkSim (env st) (pen st) (message st) (showMessage st) i
    (inputCanvas st) (raster st) (random st) (restarts st).

Definition set_inputCanvas (c : Canvas InputStroke) (st : State) : State :=
  mkSim (env st) (pen st) (message st) (showMessage st) (currentPixelInfo st)
    c (raster st) (random st) (restarts st).

Definition set_raster (sim : RasterSim) (st : State) : State :=
  mkSim (env st) (pen st) (message st) (showMessage st) (currentPixelInfo st)
    (inputCanvas st) sim (random st) (restarts st).

Definition set_random (sim : RandomSim) (st : State) : State :=
  mkSim (env st) (pen st) (message st) (showMessage st) (currentPixelInfo st)
    (inputCanvas st) (raster st) sim (restarts st).

Definition set_restarts (n : nat) (st : State) : State :=
  mkSim (env st) (pen st) (message st) (showMessage st) (currentPixelInfo st)
    (inputCanvas st) (raster st) (random st) n.

Definition setIsSimulating (b : bool) (st : State) : State :=
  set_env (mkEnv (drawnLines (env st)) (simulationSpeed (env st)) b
             (darkMode (env st))) st.

(** [showCustomMessage(msg)] (the timer that hides the message three
    seconds later is not part of the model). *)
Definition showCustomMessage (msg : string) (st : State) : State :=
  mkSim (env st) (pen st) msg true (currentPixelInfo st)
    (inputCanvas st) (raster st) (random st) (restarts st).

(** [{ x: '--', y: '--', info: 'N/A' }] *)
Definition blank_info : PixelInfo := mkPixelInfo "--" "--" "N/A".

(** The stroke style of a drawn segment on the input canvas,
    [darkMode ? '#a78bfa' : '#6366f1']. *)
Definition input_color (darkMode : bool) : Color :=
  if darkMode then "#a78bfa" else "#6366f1".

Definition solid (darkMode : bool) (line : Line) : InputStroke :=
  mkInputStroke (mkStroke line (input_color darkMode) 2) false.

(** [drawnLines.forEach(line => { ... ctx.stroke(); })] *)
Definition draw_lines (darkMode : bool) (canvas : Canvas InputStroke)
    (lines : list Line) : Canvas InputStroke :=
  foldl (fun canvas line => paint canvas (solid darkMode line)) canvas lines.

(** The effect of the input canvas: resize, clear, draw every segment. *)
Definition input_effect (st : State) : State :=
  set_inputCanvas
    (draw_lines (darkMode (env st))
       (clearCanvas (resizeCanvas (inputCanvas st))) (drawnLines (env st))) st.

(** The effects of the two simulators; React runs them after a commit
    that changed the segments, the simulation flag, the speed or the
    theme (the callbacks they depend on change with these). *)
Definition simulator_effects (st : State) : Outcome :=
  match raster_effect (env st) (raster st) with
  | Ok sim =>
      Next (set_random (random_effect (env st) (random st)) (set_raster sim st))
  | OutOfRange => AccessOutOfRange
  | OutOfBudget => RasterizerBudget
  end.

(** [handleMouseDown] *)
Definition handleMouseDown (p : Point) (st : State) : State :=
  set_pen
    (mkPen true p (Some (mkLine (point_x p) (point_y p) (point_x p) (point_y p))))
    st.

(** [handleMouseMove]: the preview follows the mouse, and the input
    canvas shows the drawn segments and the dashed preview. *)
Definition handleMouseMove (p : Point) (st : State) : Outcome :=
  if negb (isDrawing (pen st)) then Next st
  else
    match currentLinePreview (pen st) with
    | None => UndefinedPreview
    | Some prev =>
        let start := startPoint (pen st) in
        let darkMode := darkMode (env st) in
        let canvas :=
          draw_lines darkMode (clearCanvas (inputCanvas st))
            (drawnLines (env st)) in
        let canvas :=
          paint canvas
            (mkInputStroke
               (mkStroke
                  (mkLine (point_x start) (point_y start) (point_x p) (point_y p))
                  (highlight_color darkMode) 2)
               true) in
        Next (set_inputCanvas canvas
                (set_pen
                   (mkPen true start
                      (Some (mkLine (line_x1 prev) (line_y1 prev)
                               (point_x p) (point_y p))))
                   st))
    end.

(** [handleMouseUp] (also the handler of [onMouseLeave]): the preview
    joins the drawn segments; a running simulation is stopped and a timer
    is set that switches it on again. *)
Definition handleMouseUp (st : State) : Outcome :=
  match isDrawing (pen st), currentLinePreview (pen st) with
  | true, Some line =>
      let e := env st in
      let st := set_pen (mkPen false (startPoint (pen st)) None) st in
      let st :=
        set_env (mkEnv (drawnLines e ++ [line]) (simulationSpeed e) false
                   (darkMode e)) st in
      let st :=
        if isSimulating e then set_restarts (S (restarts st)) st else st in
      simulator_effects (input_effect st)
  | _, _ => Next st
  end.

(** [handleStartSimulation] *)
Definition handleStartSimulation (st : State) : Outcome :=
  if bool_decide (length (drawnLines (env st)) = 0%nat) then
    Next (showCustomMessage
            "Please draw at least one line on the input canvas first!" st)
  else if isSimulating (env st) then Next st
  else simulator_effects (setIsSimulating true st).

(** [handlePauseSimulation] *)
Definition handlePauseSimulation (st : State) : Outcome :=
  if isSimulating (env st) then simulator_effects (setIsSimulating false st)
  else Next st.

(** [handleClearAll] *)
Definition handleClearAll (st : State) : Outcome :=
  let e := env st in
  let rasterData := rasterDisplayData (raster st) in
  let randomData := randomDisplayData (random st) in
  let st :=
    mkSim (mkEnv [] (simulationSpeed e) false (darkMode e)) (pen st)
      (message st) (showMessage st) blank_info
      (clearCanvas (inputCanvas st))
      (mkRasterSim (clearCanvas (rasterCanvas (raster st)))
         (mkRasterData [] 0 0 (pixelsToDraw rasterData))
         (rasterPixelInfo (raster st)) (rasterScheduled (raster st)))
      (mkRandomSim (clearCanvas (randomCanvas (random st)))
         (mkRandomData 0 (currentSegmentProgress randomData)
            (segmentLength randomData))
         (randomPixelInfo (random st)) (randomScheduled (random st)))
      (restarts st) in
  simulator_effects (input_effect st).

(** [toggleDarkMode]: the call of [initializeRasterBuffer] in the
    handler still sees the old theme; the effects that follow the commit
    see the new one. *)
Definition toggleDarkMode (st : State) : Outcome :=
  let e := env st in
  let rasterSim :=
    mkRasterSim (clearCanvas (rasterCanvas (raster st)))
      (rasterDisplayData (raster st)) (rasterPixelInfo (raster st))
      (rasterScheduled (raster st)) in
  match (if isSimulating e then initializeRasterBuffer e rasterSim
         else Ok rasterSim) with
  | Ok rasterSim =>
      let st :=
        mkSim (mkEnv (drawnLines e) (simulationSpeed e) (isSimulating e)
                 (negb (darkMode e)))
          (pen st) (message st) (showMessage st) (currentPixelInfo st)
          (clearCanvas (inputCanvas st)) rasterSim
          (mkRandomSim (clearCanvas (randomCanvas (random st)))
             (randomDisplayData (random st)) (randomPixelInfo (random st))
             (randomScheduled (random st)))
          (restarts st) in
      simulator_effects (input_effect st)
  | OutOfRange => AccessOutOfRange
  | OutOfBudget => RasterizerBudget
  end.

(** [setSimulationSpeed(parseInt(e.target.value))] *)
Definition handleSpeedChange (value : Z) (st : State) : Outcome :=
  if bool_decide (value = simulationSpeed (env st)) then Next st
  else
    simulator_effects
      (set_env (mkEnv (drawnLines (env st)) value (isSimulating (env st))
                  (darkMode (env st))) st).

(** A tick of the raster loop, when one is scheduled. *)
Definition raster_tick (st : State) : Outcome :=
  if rasterScheduled (raster st) then
    let sim :=
      mkRasterSim (rasterCanvas (raster st)) (rasterDisplayData (raster st))
        (currentPixelInfo st) true in
    match animateRasterDisplay (env st) sim with
    | Ok sim' => Next (set_currentPixelInfo (rasterPixelInfo sim') (set_raster sim' st))
    | OutOfRange => AccessOutOfRange
    | OutOfBudget => RasterizerBudget
    end
  else Next st.

(** A tick of the random-scan loop, when one is scheduled. *)
Definition random_tick (st : State) : Outcome :=
  if randomScheduled (random st) then
    let sim :=
      mkRandomSim (randomCanvas (random st)) (randomDisplayData (random st))
        (currentPixelInfo st) true in
    let sim' := animateRandomDisplay (env st) sim in
    Next (set_currentPixelInfo (randomPixelInfo sim') (set_random sim' st))
  else Next st.

Inductive Event :=
  (* the user *)
  | MouseDown (p : Point)
  | MouseMove (p : Point)
  | MouseUp
  | ClickStart
  | ClickPause
  | ClickClearAll
  | ToggleDarkMode
  | ChangeSpeed (value : Z)
  (** the layout gives the three canvases new sizes *)
  | Relayout (input rasterSize randomSize : nat * nat)
  (* the browser *)
  | RestartFires
  | RasterTick
  | RandomTick.

Definition relayout {Paint} (size : nat * nat) (c : Canvas Paint) : Canvas Paint :=
  mkCanvas size.1 size.2 (width c) (height c) (painted c).

(** One event: one task of the browser's event loop, with the effects
    React runs after the commit. *)
Definition step (e : Event) (st : State) : Outcome :=
  match e with
  | MouseDown p => Next (handleMouseDown p st)
  | MouseMove p => handleMouseMove p st
  | MouseUp => handleMouseUp st
  | ClickStart => handleStartSimulation st
  | ClickPause => handlePauseSimulation st
  | ClickClearAll => handleClearAll st
  | ToggleDarkMode => toggleDarkMode st
  | ChangeSpeed value => handleSpeedChange value st
  | Relayout input rasterSize randomSize =>
      Next (mkSim (env st) (pen st) (message st) (showMessage st)
              (currentPixelInfo st) (relayout input (inputCanvas st))
              (mkRasterSim (relayout rasterSize (rasterCanvas (raster st)))
                 (rasterDisplayData (raster st)) (rasterPixelInfo (raster st))
                 (rasterScheduled (raster st)))
              (mkRandomSim (relayout randomSize (randomCanvas (random st)))
                 (randomDisplayData (random st)) (randomPixelInfo (random st))
                 (randomScheduled (random st)))
              (restarts st))
  | RestartFires =>
      match restarts st with
      | O => Next st
      | S n =>
          let st := set_restarts n st in
          if isSimulating (env st) then Next st
          else simulator_effects (setIsSimulating true st)
      end
  | RasterTick => raster_tick st
  | RandomTick => random_tick st
  end.

Fixpoint run (events : list Event) (st : State) : Outcome :=
  match events with
  | [] => Next st
  | e :: rest =>
      match step e st with
      | Next st' => run rest st'
      | fault => fault
      end
  end.

(** The component as mounted: no segment, speed 50, not simulating, the
    dark theme; the input canvas has been sized by its effect, the two
    display canvases have the size of their [width] and [height]
    attributes. *)
Definition initial (input rasterSize randomSize : nat * nat) : State :=
  mkSim (mkEnv [] 50 false true) (mkPen false (mkPoint 0 0) None) "" false
    blank_info
    (mkCanvas input.1 input.2 input.1 input.2 [])
    (mkRasterSim (mkCanvas rasterSize.1 rasterSize.2 500 400 [])
       (mkRasterData [] 0 0 []) blank_info false)
    (mkRandomSim (mkCanvas randomSize.1 randomSize.2 500 400 [])
       (mkRandomData 0 0 10) blank_info false)
    0.

Definition reachable (st : State) : Prop :=
  exists input rasterSize randomSize events,
    run events (initial input rasterSize randomSize) = Next st.

(** The framebuffer is empty, as before the first frame and after Clear
    All, or has the size of the raster canvas. *)
Definition raster_ok (sim : RasterSim) : Prop :=
  buffer (rasterDisplayData sim) = [] \/ raster_wf sim.

(** What the component keeps: the framebuffer fits the raster canvas,
    and while the pen is down there is a preview. *)
Definition consistent (st : State) : Prop :=
  raster_ok (raster st) /\
  (isDrawing (pen st) = true -> is_Some (currentLinePreview (pen st))).

(** The events of one drawing gesture: press at [p], move over [moves],
    release. *)
Definition gesture (p : Point) (moves : list Point) : list Event :=
  MouseDown p :: (MouseMove <$> moves) ++ [MouseUp].

(** The segment a gesture draws: from where the mouse went down to where
    it last was. *)
Definition gesture_line (p : Point) (moves : list Point) : Line :=
  let q := default p (last moves) in
  mkLine (point_x p) (point_y p) (point_x q) (point_y q).

(** A session: a segment is drawn, the simulation is started, and a
    second segment is drawn while it runs. *)
Definition example_first_events : list Event :=
  gesture (mkPoint 0 0) [mkPoint 2 1; mkPoint 3 2] ++ [ClickStart].

Definition example_second_events : list Event :=
  example_first_events ++ gesture (mkPoint 0 2) [mkPoint 3 0].

(** The state [events] lead to from [st]. *)
Definition after (events : list Event) (st : State) : State :=
  match run events st with
  | Next st' => st'
  | _ => st
  end.

Definition example_simulating : State :=
  Eval vm_compute in after example_first_events (initial (4, 3) (4, 3) (4, 3))%nat.

Definition example_restart_pending : State :=
  Eval vm_compute in after example_second_events (initial (4, 3) (4, 3) (4, 3))%nat.

Arguments simulator_effects : simpl never.
Arguments input_effect : simpl never.

End Simulator.

(* ================================================================== *)
(** * Part II: properties                                              *)
(* ================================================================== *)

(** ** Lists of neighbours *)

Lemma eight_connected_single (p : Point) : eight_connected [p].
Proof. intros [|i] a b Ha Hb; simpl in *; discriminate. Qed.

Lemma eight_connected_cons (p q : Point) (l : list Point) :
  adjacent p q -> eight_connected (q :: l) -> eight_connected (p :: q :: l).
Proof.
  intros Hpq Hl [|i] a b Ha Hb; simpl in *.
  - by simplify_eq.
  - by apply (Hl i).
Qed.

(** ** The Bresenham loop *)

Section bresenham_loop_facts.
Variables x0 y0 x1 y1 dx dy sx sy : Z.
Hypothesis dx_nonneg : 0 <= dx.
Hypothesis dy_nonneg : 0 <= dy.
Hypothesis sx_unit : sx = 1 \/ sx = -1.
Hypothesis sy_unit : sy = 1 \/ sy = -1.
Hypothesis x1_reached : x1 = x0 + sx * dx.
Hypothesis y1_reached : y1 = y0 + sy * dy.

Local Abbreviation inv := (line_inv x0 y0 dx dy sx sy).

Lemma line_inv_end a b x y err :
  inv a b x y err -> (x = x1 /\ y = y1) <-> (a = dx /\ b = dy).
Proof.
  intros (Ha & Hb & -> & -> & _). subst x1 y1.
  split; intros [H1 H2].
  - split; destruct sx_unit, sy_unit; subst sx sy; lia.
  - by subst.
Qed.

Lemma bresenham_advance_inv a b x y err :
  inv a b x y err -> ~ (a = dx /\ b = dy) ->
  exists a' b' x' y' err',
    bresenham_advance dx dy sx sy (x, y, err) = (x', y', err') /\
    inv a' b' x' y' err' /\
    a <= a' <= a + 1 /\ b <= b' <= b + 1 /\ a + b < a' + b' /\
    adjacent (mkPoint x y) (mkPoint x' y').
Proof.
  intros (Ha & Hb & Hx & Hy & Herr) Hne.
  unfold bresenham_advance.
  assert (Hab : dx * b <= dx * dy) by nia.
  assert (Hba : dy * a <= dy * dx) by nia.
  assert (Hcomm : dy * dx = dx * dy) by lia.
  repeat case_bool_decide.
  - exists (a + 1), (b + 1); do 3 eexists; split; [reflexivity|].
    assert (a < dx) by nia. assert (b < dy) by nia.
    unfold line_inv, adjacent; simpl.
    repeat split; try lia; destruct sx_unit, sy_unit; subst sx sy; lia.
  - exists (a + 1), b; do 3 eexists; split; [reflexivity|].
    assert (a < dx) by nia.
    unfold line_inv, adjacent; simpl.
    repeat split; try lia; destruct sx_unit, sy_unit; subst sx sy; lia.
  - exists a, (b + 1); do 3 eexists; split; [reflexivity|].
    assert (b < dy) by nia.
    unfold line_inv, adjacent; simpl.
    repeat split; try lia; destruct sx_unit, sy_unit; subst sx sy; lia.
  - exfalso. apply Hne. nia.
Qed.

Lemma bresenham_loop_spec (fuel : nat) :
  forall a b x y err i,
    inv a b x y err -> (dx - a) + (dy - b) < Z.of_nat fuel ->
    exists l,
      bresenham_loop fuel x1 y1 dx dy sx sy x y err i = Some l /\
      head (position <$> l) = Some (mkPoint x y) /\
      last (position <$> l) = Some (mkPoint x1 y1) /\
      eight_connected (position <$> l) /\
      Z.of_nat (length l) <= (dx - a) + (dy - b) + 1.
Proof.
  induction fuel as [|fuel IH]; intros a b x y err i Hinv Hfuel.
  { destruct Hinv as (? & ? & _). lia. }
  pose proof (line_inv_end _ _ _ _ _ Hinv) as Hend.
  simpl. destruct (decide (x = x1 /\ y = y1)) as [[-> ->]|Hne].
  - rewrite !bool_decide_eq_true_2 by done. simpl.
    eexists; split; [reflexivity|]. simpl.
    split_and!; [done|done|apply eight_connected_single|].
    destruct Hinv as (? & ? & _). lia.
  - assert (bool_decide (x = x1) && bool_decide (y = y1) = false) as ->.
    { apply andb_false_iff.
      destruct (decide (x = x1)); [right|left];
        apply bool_decide_eq_false_2; tauto. }
    destruct (bresenham_advance_inv a b x y err Hinv)
      as (a' & b' & x' & y' & err' & -> & Hinv' & Ha' & Hb' & Hprog & Hadj);
      [tauto|].
    destruct (IH a' b' x' y' err' (i + 1) Hinv') as (l & -> & Hhd & Hlast & Hconn & Hlen);
      [lia|].
    eexists; split; [reflexivity|].
    destruct l as [|q l]; [discriminate|].
    rewrite !fmap_cons in *.
    assert (Hq : position q = mkPoint x' y') by (simpl in Hhd; congruence).
    split_and!; [done| | |].
    + simpl in *. exact Hlast.
    + apply eight_connected_cons; [by rewrite Hq|done].
    + simpl in *. lia.
Qed.

End bresenham_loop_facts.

(** More budget never changes the answer of the loop. *)
Lemma bresenham_loop_more_fuel (fuel k : nat) :
  forall x1 y1 dx dy sx sy x y err i l,
    bresenham_loop fuel x1 y1 dx dy sx sy x y err i = Some l ->
    bresenham_loop (fuel + k) x1 y1 dx dy sx sy x y err i = Some l.
Proof.
  induction fuel as [|fuel IH]; intros x1 y1 dx dy sx sy x y err i l; simpl;
    [discriminate|].
  destruct (bool_decide (x = x1) && bool_decide (y = y1)); [done|].
  destruct (bresenham_advance dx dy sx sy (x, y, err)) as [[x' y'] err'].
  destruct (bresenham_loop fuel x1 y1 dx dy sx sy x' y' err' (i + 1))
    as [l'|] eqn:Hl'; [|discriminate].
  intros Hl. by rewrite (IH _ _ _ _ _ _ _ _ _ _ _ Hl').
Qed.

Lemma bresenham_loop_deterministic (f1 f2 : nat) x1 y1 dx dy sx sy x y err i l1 l2 :
  bresenham_loop f1 x1 y1 dx dy sx sy x y err i = Some l1 ->
  bresenham_loop f2 x1 y1 dx dy sx sy x y err i = Some l2 ->
  l1 = l2.
Proof.
  intros H1 H2.
  apply (bresenham_loop_more_fuel _ f2) in H1.
  apply (bresenham_loop_more_fuel _ f1) in H2.
  rewrite (Nat.add_comm f2 f1) in H2. congruence.
Qed.

(** The set-up of [bresenhamLine] establishes the invariant. *)
Lemma bresenham_setup (x0 y0 x1 y1 : Z) :
  let dx := Z.abs (x1 - x0) in
  let dy := Z.abs (y1 - y0) in
  let sx := if bool_decide (x0 < x1) then 1 else -1 in
  let sy := if bool_decide (y0 < y1) then 1 else -1 in
  0 <= dx /\ 0 <= dy /\ (sx = 1 \/ sx = -1) /\ (sy = 1 \/ sy = -1) /\
  x1 = x0 + sx * dx /\ y1 = y0 + sy * dy /\
  line_inv x0 y0 dx dy sx sy 0 0 x0 y0 (dx - dy).
Proof.
  intros dx dy sx sy. subst dx dy sx sy. unfold line_inv.
  repeat case_bool_decide; repeat split; try tauto; lia.
Qed.

Lemma bresenhamLine_spec (x0 y0 x1 y1 : Z) (k : nat) :
  exists l,
    bresenhamLine (line_fuel x0 y0 x1 y1 + k) x0 y0 x1 y1 = Some l /\
    head (position <$> l) = Some (mkPoint x0 y0) /\
    last (position <$> l) = Some (mkPoint x1 y1) /\
    eight_connected (position <$> l) /\
    Z.of_nat (length l) <= Z.abs (x1 - x0) + Z.abs (y1 - y0) + 1.
Proof.
  destruct (bresenham_setup x0 y0 x1 y1) as (Hdx & Hdy & Hsx & Hsy & Hx1 & Hy1 & Hinv).
  destruct (bresenham_loop_spec x0 y0 x1 y1 _ _ _ _ Hdx Hdy Hsx Hsy Hx1 Hy1
              (line_fuel x0 y0 x1 y1 + k) 0 0 x0 y0 _ 0 Hinv)
    as (l & Hl & Hhd & Hlast & Hconn & Hlen).
  { unfold line_fuel. lia. }
  exists l. unfold bresenhamLine. rewrite Hl.
  split_and!; try done. lia.
Qed.

(** ** The midpoint circle loop *)

(** Pick, by arithmetic, the entry of an explicit list that a point equals. *)
Ltac pick_point :=
  solve [repeat (apply elem_of_cons; first [left; f_equal; lia | right])].

Lemma drawCirclePoints_symmetric (cx cy px py : Z) (info : string) :
  eight_way_symmetric cx cy (position <$> drawCirclePoints cx cy px py info).
Proof.
  intros q q' Hq Hq'. unfold reflections in Hq'.
  unfold drawCirclePoints in *. rewrite !fmap_cons, fmap_nil in *.
  unfold position in *; simpl in *.
  repeat (apply elem_of_cons in Hq as [->|Hq]); [..|by apply elem_of_nil in Hq];
    simpl in Hq';
    (repeat (apply elem_of_cons in Hq' as [->|Hq']);
      [..|by apply elem_of_nil in Hq']); pick_point.
Qed.

Lemma drawCirclePoints_tolerance (cx cy r x y p : Z) (info : string) :
  1 <= r -> circle_inv r x y p ->
  Forall (within_tolerance cx cy r) (position <$> drawCirclePoints cx cy x y info).
Proof.
  intros Hr (Hx & Hy & Hxy & Hp & Hlo & Hhi & _).
  assert (Hd : - y <= x * x + y * y - r * r <= y + 1) by lia.
  assert (Hlow : (r - 1) * (r - 1) <= x * x + y * y) by nia.
  assert (Hupp : x * x + y * y <= (r + 1) * (r + 1)) by nia.
  unfold drawCirclePoints. rewrite !fmap_cons, fmap_nil.
  repeat apply Forall_cons_2; try apply Forall_nil_2;
    unfold within_tolerance, position; simpl; nia.
Qed.

Lemma circle_inv_initial (r : Z) : 0 <= r -> circle_inv r 0 r (1 - r).
Proof. intros Hr. unfold circle_inv. split_and!; try lia. Qed.

Lemma circle_advance_inv (r x y p : Z) :
  circle_inv r x y p -> x < y ->
  exists x' y' p',
    circle_advance (x, y, p) = (x', y', p') /\
    circle_inv r x' y' p' /\ y' - x' < y - x.
Proof.
  intros (Hx & Hy & Hxy & Hp & Hlo & Hhi & Hhi') Hlt.
  unfold circle_advance, circle_inv. case_bool_decide.
  - do 3 eexists; split; [reflexivity|]. split_and!; try lia.
  - do 3 eexists; split; [reflexivity|]. split_and!; try lia.
Qed.

Lemma eight_way_symmetric_app (cx cy : Z) (l1 l2 : list Point) :
  eight_way_symmetric cx cy l1 -> eight_way_symmetric cx cy l2 ->
  eight_way_symmetric cx cy (l1 ++ l2).
Proof.
  intros H1 H2 q q' Hq Hq'. apply elem_of_app in Hq as [Hq|Hq].
  - apply elem_of_app; left. by apply (H1 q).
  - apply elem_of_app; right. by apply (H2 q).
Qed.

Lemma eight_way_symmetric_nil (cx cy : Z) : eight_way_symmetric cx cy [].
Proof. intros q q' Hq. by apply elem_of_nil in Hq. Qed.

Lemma circle_loop_spec (cx cy r : Z) (fuel : nat) :
  1 <= r ->
  forall x y p i,
    circle_inv r x y p -> y - x <= Z.of_nat fuel ->
    exists l,
      circle_loop fuel cx cy x y p i = Some l /\
      Forall (within_tolerance cx cy r) (position <$> l) /\
      eight_way_symmetric cx cy (position <$> l).
Proof.
  intros Hr. induction fuel as [|fuel IH]; intros x y p i Hinv Hfuel.
  - simpl. rewrite bool_decide_eq_false_2 by lia.
    exists []. split_and!; [done|constructor|apply eight_way_symmetric_nil].
  - simpl. case_bool_decide as Hlt.
    + destruct (circle_advance_inv r x y p Hinv Hlt)
        as (x' & y' & p' & -> & Hinv' & Hdec).
      destruct (IH x' y' p' (i + 1) Hinv') as (l & -> & Htol & Hsym); [lia|].
      exists (drawCirclePoints cx cy x' y' (circle_step_info (i + 1) x' y' p') ++ l).
      split; [reflexivity|]. rewrite fmap_app. split.
      * apply Forall_app; split; [|done].
        by apply (drawCirclePoints_tolerance _ _ _ _ _ p').
      * apply eight_way_symmetric_app; [|done].
        apply drawCirclePoints_symmetric.
    + exists []. split_and!; [done|constructor|apply eight_way_symmetric_nil].
Qed.

Lemma circle_loop_more_fuel (fuel k : nat) :
  forall cx cy x y p i l,
    circle_loop fuel cx cy x y p i = Some l ->
    circle_loop (fuel + k) cx cy x y p i = Some l.
Proof.
  induction fuel as [|fuel IH]; intros cx cy x y p i l; simpl.
  - case_bool_decide as Hlt; [discriminate|].
    intros <-. destruct k; simpl; by rewrite bool_decide_eq_false_2.
  - case_bool_decide as Hlt; [|done].
    destruct (circle_advance (x, y, p)) as [[x' y'] p'].
    destruct (circle_loop fuel cx cy x' y' p' (i + 1)) as [l'|] eqn:Hl';
      [|discriminate].
    intros Hl. by rewrite (IH _ _ _ _ _ _ _ Hl').
Qed.

Lemma midpointCircle_spec (cx cy r : Z) (k : nat) :
  1 <= r ->
  exists l,
    midpointCircle (circle_fuel r + k) cx cy r = Some l /\
    Forall (within_tolerance cx cy r) (position <$> l) /\
    eight_way_symmetric cx cy (position <$> l).
Proof.
  intros Hr.
  destruct (circle_loop_spec cx cy r (circle_fuel r + k) Hr 0 r (1 - r) 0)
    as (l & Hl & Htol & Hsym).
  { apply circle_inv_initial. lia. }
  { unfold circle_fuel. lia. }
  unfold midpointCircle. rewrite Hl.
  exists (drawCirclePoints cx cy 0 r (circle_initial_info 0 r (1 - r)) ++ l).
  split; [reflexivity|]. rewrite fmap_app. split.
  - apply Forall_app; split; [|done].
    apply (drawCirclePoints_tolerance _ _ _ _ _ (1 - r)); [done|].
    apply circle_inv_initial. lia.
  - apply eight_way_symmetric_app; [|done]. apply drawCirclePoints_symmetric.
Qed.

(** ** The DDA loop *)

Lemma dda_loop_spec `{JSNumber} (fuel : nat) :
  forall steps i x y xIncrement yIncrement,
    i <= steps + 1 -> steps + 1 - i <= Z.of_nat fuel ->
    exists l,
      dda_loop fuel steps i x y xIncrement yIncrement = Some l /\
      Z.of_nat (length l) = steps + 1 - i.
Proof.
  induction fuel as [|fuel IH]; intros steps i x y xi yi Hi Hfuel; simpl.
  - rewrite bool_decide_eq_false_2 by lia. exists []. simpl. split; [done|lia].
  - case_bool_decide as Hle.
    + destruct (IH steps (i + 1) (num_add x xi) (num_add y yi) xi yi)
        as (l & -> & Hlen); [lia|lia|].
      eexists; split; [reflexivity|]. simpl. lia.
    + exists []. simpl. split; [done|lia].
Qed.


Lemma dda_steps_max (x0 y0 x1 y1 : Z) :
  dda_steps x0 y0 x1 y1 = Z.max (Z.abs (x1 - x0)) (Z.abs (y1 - y0)).
Proof. unfold dda_steps. case_bool_decide; lia. Qed.

(** ** The two Bresenham loops run in lockstep *)

Lemma bresenhamLinePixels_loop_filter (fuel : nat) :
  forall x1 y1 dx dy sx sy w h x y err i,
    bresenhamLinePixels_loop fuel x1 y1 dx dy sx sy w h x y err =
    visible_positions w h <$> bresenham_loop fuel x1 y1 dx dy sx sy x y err i.
Proof.
  induction fuel as [|fuel IH]; intros x1 y1 dx dy sx sy w h x y err i;
    simpl; [done|].
  assert (Hpush :
    forall l : list Point,
      (if in_canvas w h x y
       then [mkPoint (Math_round_int x) (Math_round_int y)] else []) ++
      filter (fun q : Point => point_in_canvas w h q) l
      = filter (fun q : Point => point_in_canvas w h q) (mkPoint x y :: l)).
  { intros l. unfold Math_round_int.
    destruct (in_canvas w h x y) eqn:Hin.
    - rewrite filter_cons_True; [done|]. unfold point_in_canvas; simpl.
      by rewrite Hin.
    - rewrite filter_cons_False; [done|]. unfold point_in_canvas; simpl.
      rewrite Hin. by intros []. }
  destruct (bool_decide (x = x1) && bool_decide (y = y1)).
  - simpl. f_equal. unfold visible_positions. rewrite fmap_cons, fmap_nil.
    change (position (mkPixelStep x y (bresenham_info i x y err)))
      with (mkPoint x y).
    rewrite <- Hpush. by rewrite filter_nil, app_nil_r.
  - destruct (bresenham_advance dx dy sx sy (x, y, err)) as [[x' y'] err'].
    rewrite (IH _ _ _ _ _ _ _ _ _ _ _ (i + 1)).
    destruct (bresenham_loop fuel x1 y1 dx dy sx sy x' y' err' (i + 1));
      simpl; [|done].
    f_equal. unfold visible_positions. rewrite fmap_cons.
    change (position (mkPixelStep x y (bresenham_info i x y err)))
      with (mkPoint x y).
    apply Hpush.
Qed.

(** ** The raster simulator: every access is inside the framebuffer *)


Lemma point_in_canvas_bounds (w h : Z) (q : Point) :
  point_in_canvas w h q = true <->
  0 <= point_x q < w /\ 0 <= point_y q < h.
Proof.
  unfold point_in_canvas, in_canvas.
  rewrite !andb_true_iff, !bool_decide_eq_true. lia.
Qed.

Lemma bresenhamLinePixels_returns (x0 y0 x1 y1 w h : Z) (k : nat) :
  exists l,
    bresenhamLine (line_fuel x0 y0 x1 y1 + k) x0 y0 x1 y1 = Some l /\
    bresenhamLinePixels (line_fuel x0 y0 x1 y1 + k) x0 y0 x1 y1 w h
      = Some (visible_positions w h l).
Proof.
  destruct (bresenhamLine_spec x0 y0 x1 y1 k) as (l & Hl & _).
  exists l. split; [done|].
  unfold bresenhamLinePixels, bresenhamLine in *.
  by rewrite (bresenhamLinePixels_loop_filter _ _ _ _ _ _ _ _ _ _ _ _ 0), Hl.
Qed.

Lemma buffer_write_shape (w h : nat) (buffer : list (list Color))
    (row col : Z) (color : Color) :
  buffer_shape w h buffer ->
  0 <= row < Z.of_nat h -> 0 <= col < Z.of_nat w ->
  exists buffer',
    buffer_write buffer row col color = Ok buffer' /\ buffer_shape w h buffer'.
Proof.
  intros [Hlen Hrows] Hrow Hcol. unfold buffer_write.
  rewrite !bool_decide_eq_true_2 by lia. simpl.
  destruct (buffer !! Z.to_nat row) as [cells|] eqn:Hcells.
  - assert (Hw : length cells = w).
    { eapply (proj1 (Forall_lookup _ _) Hrows); eassumption. }
    rewrite bool_decide_eq_true_2 by lia.
    eexists; split; [reflexivity|]. split.
    + by rewrite length_insert.
    + apply Forall_insert; [done|]. by rewrite length_insert.
  - apply lookup_ge_None in Hcells. lia.
Qed.

Lemma plot_pixels_shape (w h : nat) (color : Color) (pixels : list Point) :
  forall buffer,
    buffer_shape w h buffer ->
    exists buffer',
      plot_pixels (Z.of_nat w) (Z.of_nat h) color buffer pixels = Ok buffer' /\
      buffer_shape w h buffer'.
Proof.
  induction pixels as [|p rest IH]; intros buffer Hshape; simpl.
  - by exists buffer.
  - destruct (bool_decide (point_y p >= 0) && bool_decide (point_y p < Z.of_nat h)
              && bool_decide (point_x p >= 0) && bool_decide (point_x p < Z.of_nat w))
      eqn:Hguard.
    + rewrite !andb_true_iff, !bool_decide_eq_true in Hguard.
      destruct (buffer_write_shape w h buffer (point_y p) (point_x p) color Hshape)
        as (buffer' & -> & Hshape'); [lia|lia|].
      simpl. by apply IH.
    + simpl. by apply IH.
Qed.

Lemma plot_lines_shape (w h : nat) (color : Color) (lines : list Line) :
  forall buffer,
    buffer_shape w h buffer ->
    exists buffer',
      plot_lines (Z.of_nat w) (Z.of_nat h) color buffer lines = Ok buffer' /\
      buffer_shape w h buffer'.
Proof.
  induction lines as [|line rest IH]; intros buffer Hshape; simpl.
  - by exists buffer.
  - destruct (bresenhamLinePixels_returns (line_x1 line) (line_y1 line)
                (line_x2 line) (line_y2 line) (Z.of_nat w) (Z.of_nat h) 0)
      as (l & _ & Hpx).
    rewrite Nat.add_0_r in Hpx. rewrite Hpx. simpl.
    destruct (plot_pixels_shape w h color (visible_positions (Z.of_nat w) (Z.of_nat h) l)
                buffer Hshape) as (buffer' & -> & Hshape').
    simpl. by apply IH.
Qed.

Lemma replicate_shape (w h : nat) (c : Color) :
  buffer_shape w h (replicate h (replicate w c)).
Proof.
  split; [by rewrite length_replicate|].
  apply Forall_replicate. by rewrite length_replicate.
Qed.

Lemma initializeRasterBuffer_ok (env : Env) (sim : RasterSim) :
  exists sim0,
    initializeRasterBuffer env sim = Ok sim0 /\
    width (rasterCanvas sim0) = clientWidth (rasterCanvas sim) /\
    height (rasterCanvas sim0) = clientHeight (rasterCanvas sim) /\
    painted (rasterCanvas sim0) = [] /\
    buffer_shape (width (rasterCanvas sim0)) (height (rasterCanvas sim0))
      (buffer (rasterDisplayData sim0)) /\
    currentScanline (rasterDisplayData sim0) = 0%nat /\
    currentPixelInScanline (rasterDisplayData sim0) = 0%nat.
Proof.
  unfold initializeRasterBuffer.
  set (canvas := clearCanvas (resizeCanvas (rasterCanvas sim))).
  destruct (plot_lines_shape (width canvas) (height canvas)
              (line_color (darkMode env)) (drawnLines env)
              (replicate (height canvas)
                 (replicate (width canvas) (background_color (darkMode env))))
              (replicate_shape _ _ _)) as (buffer' & -> & Hshape).
  simpl. eexists; split; [reflexivity|]. simpl.
  split_and!; try done.
  - subst canvas. unfold resizeCanvas. case_bool_decide as Hne; simpl; [done|].
    destruct (decide (width (rasterCanvas sim) = clientWidth (rasterCanvas sim)));
      [done|]. exfalso; apply Hne; by left.
  - subst canvas. unfold resizeCanvas. case_bool_decide as Hne; simpl; [done|].
    destruct (decide (height (rasterCanvas sim) = clientHeight (rasterCanvas sim)));
      [done|]. exfalso; apply Hne; by right.
Qed.

(** ** The raster sweep *)

Lemma row_major_S (w h : nat) :
  row_major w (S h) = row_major w h ++ ((fun col => (h, col)) <$> seq 0 w).
Proof.
  unfold row_major. rewrite seq_S, bind_app. simpl. by rewrite app_nil_r.
Qed.

Lemma row_major_length (w h : nat) : length (row_major w h) = (h * w)%nat.
Proof.
  induction h as [|h IH]; [done|].
  rewrite row_major_S, length_app, IH, length_fmap, length_seq. lia.
Qed.

Lemma row_major_lookup (w h k : nat) :
  (k < h * w)%nat -> row_major w h !! k = Some ((k / w)%nat, (k mod w)%nat).
Proof.
  induction h as [|h IH]; intros Hk; [lia|].
  rewrite row_major_S.
  destruct (decide (k < h * w)%nat) as [Hlt|Hge].
  - rewrite lookup_app_l by (by rewrite row_major_length). by apply IH.
  - rewrite lookup_app_r by (rewrite row_major_length; lia).
    rewrite row_major_length, list_lookup_fmap.
    rewrite lookup_seq_lt by lia. simpl.
    assert (Hk' : k = (w * h + (k - h * w))%nat) by lia.
    assert (Hc : (k - h * w < w)%nat) by lia.
    rewrite <- (Nat.div_unique k w h (k - h * w) Hc Hk').
    by rewrite <- (Nat.mod_unique k w h (k - h * w) Hc Hk').
Qed.

(** The cursor after one more cell, in quotient and remainder form. *)
Lemma cursor_next (w k : nat) :
  (0 < w)%nat ->
  (if bool_decide (w <= S (k mod w))%nat
   then (S (k / w), 0%nat) else ((k / w)%nat, S (k mod w)))
  = ((S k / w)%nat, (S k mod w)%nat).
Proof.
  intros Hw.
  pose proof (Nat.div_mod_eq k w) as Hk.
  pose proof (Nat.mod_upper_bound k w ltac:(lia)) as Hc.
  case_bool_decide as Hwrap.
  - assert (HSk : S k = (w * S (k / w) + 0)%nat) by lia.
    rewrite <- (Nat.div_unique (S k) w (S (k / w)) 0 ltac:(lia) HSk).
    by rewrite <- (Nat.mod_unique (S k) w (S (k / w)) 0 ltac:(lia) HSk).
  - assert (HSk : S k = (w * (k / w) + S (k mod w))%nat) by lia.
    rewrite <- (Nat.div_unique (S k) w (k / w) (S (k mod w)) ltac:(lia) HSk).
    by rewrite <- (Nat.mod_unique (S k) w (k / w) (S (k mod w)) ltac:(lia) HSk).
Qed.

Lemma buffer_read_shape (w h : nat) (buffer : list (list Color)) (row col : nat) :
  buffer_shape w h buffer -> (row < h)%nat -> (col < w)%nat ->
  exists color,
    (buffer !! row ≫= fun cells => cells !! col) = Some color /\
    buffer_read buffer (Z.of_nat row) (Z.of_nat col) = Ok color.
Proof.
  intros [Hlen Hrows] Hrow Hcol. unfold buffer_read.
  rewrite !bool_decide_eq_true_2 by lia. simpl. rewrite !Nat2Z.id.
  destruct (buffer !! row) as [cells|] eqn:Hcells.
  - assert (Hw : length cells = w).
    { eapply (proj1 (Forall_lookup _ _) Hrows); eassumption. }
    simpl. destruct (cells !! col) as [color|] eqn:Hcolor.
    + by exists color.
    + apply lookup_ge_None in Hcolor. lia.
  - apply lookup_ge_None in Hcells. lia.
Qed.

(** A tick with the cursor on a cell draws that cell and moves on. *)
Lemma animateRasterDisplay_draws (env : Env) (sim : RasterSim) :
  isSimulating env = true -> raster_wf sim ->
  (currentScanline (rasterDisplayData sim) < height (rasterCanvas sim))%nat ->
  (currentPixelInScanline (rasterDisplayData sim) < width (rasterCanvas sim))%nat ->
  animateRasterDisplay env sim =
    Ok (mkRasterSim
          (paint (rasterCanvas sim)
             (cell_rect (darkMode env) (buffer (rasterDisplayData sim))
                (raster_cursor sim)))
          (let '(row, col) :=
             if bool_decide (width (rasterCanvas sim)
                             <= S (currentPixelInScanline (rasterDisplayData sim)))%nat
             then (S (currentScanline (rasterDisplayData sim)), 0%nat)
             else (currentScanline (rasterDisplayData sim),
                   S (currentPixelInScanline (rasterDisplayData sim))) in
           mkRasterData (buffer (rasterDisplayData sim)) row col
             (pixelsToDraw (rasterDisplayData sim)))
          (scan_info (currentScanline (rasterDisplayData sim))
             (currentPixelInScanline (rasterDisplayData sim)))
          true).
Proof.
  intros Hsim Hwf Hrow Hcol. unfold animateRasterDisplay.
  destruct Hwf as [Hlen Hrows].
  rewrite Hsim. simpl.
  rewrite bool_decide_eq_false_2 by lia.
  rewrite !bool_decide_eq_true_2 by done. simpl.
  destruct (buffer_read_shape _ _ _ _ _ (conj Hlen Hrows) Hrow Hcol)
    as (color & Hlookup & ->).
  simpl. unfold drawPixel, cell_rect, raster_cursor. simpl. rewrite Hlookup.
  by case_bool_decide.
Qed.

(** A tick with the cursor past the last row clears and starts over. *)
Lemma animateRasterDisplay_wraps (env : Env) (sim : RasterSim) :
  isSimulating env = true -> raster_wf sim ->
  (0 < height (rasterCanvas sim))%nat ->
  currentScanline (rasterDisplayData sim) = height (rasterCanvas sim) ->
  animateRasterDisplay env sim =
    Ok (mkRasterSim (clearCanvas (rasterCanvas sim))
          (mkRasterData (buffer (rasterDisplayData sim)) 0 0
             (pixelsToDraw (rasterDisplayData sim)))
          raster_done_info true).
Proof.
  intros Hsim [Hlen Hrows] Hh Hrow. unfold animateRasterDisplay.
  rewrite Hsim. simpl.
  rewrite bool_decide_eq_false_2 by lia.
  rewrite (bool_decide_eq_false_2 (_ < _)%nat) by lia. done.
Qed.

Lemma raster_ticks_S_r (env : Env) (n : nat) :
  forall sim,
    raster_ticks env (S n) sim
    = raster_ticks env n sim ≫= animateRasterDisplay env.
Proof.
  induction n as [|n IH]; intros sim.
  - simpl. by destruct (animateRasterDisplay env sim).
  - change (raster_ticks env (S (S n)) sim)
      with (animateRasterDisplay env sim ≫= raster_ticks env (S n)).
    change (raster_ticks env (S n) sim)
      with (animateRasterDisplay env sim ≫= raster_ticks env n).
    destruct (animateRasterDisplay env sim) as [sim'| |]; simpl; [|done..].
    apply IH.
Qed.

(** From the start of a frame, the first [k] ticks draw the first [k] cells
    in row-major order and leave the cursor on cell number [k]. *)
Lemma raster_sweep (env : Env) (sim : RasterSim) (k : nat) :
  let canvas := rasterCanvas sim in
  let data := rasterDisplayData sim in
  isSimulating env = true -> raster_wf sim -> raster_cursor sim = (0%nat, 0%nat) ->
  (0 < width canvas)%nat -> (k <= height canvas * width canvas)%nat ->
  exists sim_k,
    raster_ticks env k sim = Ok sim_k /\
    rasterCanvas sim_k =
      mkCanvas (clientWidth canvas) (clientHeight canvas)
        (width canvas) (height canvas)
        (painted canvas ++
           (cell_rect (darkMode env) (buffer data)
              <$> take k (row_major (width canvas) (height canvas)))) /\
    rasterDisplayData sim_k =
      mkRasterData (buffer data) (k / width canvas) (k mod width canvas)
        (pixelsToDraw data).
Proof.
  destruct sim as [[cw ch w h ptd] [buf r c px] info sched].
  unfold raster_wf, raster_cursor; simpl.
  intros Hsim Hwf [= -> ->] Hw.
  induction k as [|k IH]; intros Hk.
  - eexists; split; [reflexivity|]. simpl.
    rewrite app_nil_r, Nat.Div0.div_0_l, Nat.Div0.mod_0_l. done.
  - destruct IH as (sim_k & Hticks & Hcanvas & Hdata); [lia|].
    rewrite raster_ticks_S_r, Hticks. simpl.
    assert (Hrow : (k / w < h)%nat) by (apply Nat.Div0.div_lt_upper_bound; lia).
    assert (Hcol : (k mod w < w)%nat) by (apply Nat.mod_upper_bound; lia).
    rewrite animateRasterDisplay_draws;
      [|done|unfold raster_wf; by rewrite Hcanvas, Hdata
       |by rewrite Hcanvas, Hdata|by rewrite Hcanvas, Hdata].
    eexists; split; [reflexivity|]. simpl.
    unfold raster_cursor. rewrite Hcanvas, Hdata. simpl. split.
    + unfold paint; simpl.
      rewrite (take_S_r _ _ _ (row_major_lookup w h k ltac:(lia))).
      by rewrite fmap_app, app_assoc.
    + pose proof (cursor_next w k Hw) as Hnext.
      destruct (bool_decide (w <= S (k mod w))%nat);
        injection Hnext as <- <-; done.
Qed.

(** ** The random-scan refresh *)

Lemma animateRandomDisplay_traces (env : Env) (sim : RandomSim) (line : Line) :
  isSimulating env = true ->
  drawnLines env !! currentLineIndex (randomDisplayData sim) = Some line ->
  let i := currentLineIndex (randomDisplayData sim) in
  let n := length (drawnLines env) in
  let sim' := animateRandomDisplay env sim in
  highlighted sim' = Some line /\
  currentLineIndex (randomDisplayData sim') = (S i mod n)%nat /\
  randomPixelInfo sim' =
    (if bool_decide (S i = n) then random_done_info else tracing_info i line) /\
  randomScheduled sim' = true.
Proof.
  intros Hsim Hline i n sim'. subst sim'. unfold animateRandomDisplay.
  assert (Hi : (i < n)%nat) by (by eapply lookup_lt_Some).
  rewrite Hsim. simpl. rewrite bool_decide_eq_false_2 by (fold n; lia).
  rewrite Hline. fold i n.
  destruct (decide (S i = n)) as [Hwrap|Hstay].
  - rewrite bool_decide_eq_true_2 by lia. simpl.
    unfold highlighted, paint; simpl. rewrite last_snoc. simpl.
    rewrite (bool_decide_eq_true_2 (S i = n)) by done.
    split_and!; try done. by rewrite Hwrap, Nat.Div0.mod_same.
  - rewrite bool_decide_eq_false_2 by lia. simpl.
    unfold highlighted, paint; simpl. rewrite last_snoc. simpl.
    rewrite (bool_decide_eq_false_2 (S i = n)) by done.
    split_and!; try done. by rewrite Nat.mod_small by lia.
Qed.

Lemma random_ticks_index (env : Env) (k : nat) :
  forall sim,
    isSimulating env = true ->
    (currentLineIndex (randomDisplayData sim) < length (drawnLines env))%nat ->
    currentLineIndex (randomDisplayData (random_ticks env k sim))
    = ((currentLineIndex (randomDisplayData sim) + k)
         mod length (drawnLines env))%nat.
Proof.
  induction k as [|k IH]; intros sim Hsim Hi; simpl.
  - rewrite Nat.add_0_r. by rewrite Nat.mod_small.
  - destruct (lookup_lt_is_Some_2 _ _ Hi) as [line Hline].
    destruct (animateRandomDisplay_traces env sim line Hsim Hline)
      as (_ & Hidx & _).
    rewrite IH; [|done|].
    + rewrite Hidx, Nat.Div0.add_mod_idemp_l. f_equal. lia.
    + rewrite Hidx. apply Nat.mod_upper_bound. lia.
Qed.

(** From index [i], the next [k] ticks highlight the next [k] segments of
    the list, as long as the end of the list is not passed. *)
Lemma random_run_stretch (env : Env) (k : nat) :
  forall sim,
    isSimulating env = true ->
    (currentLineIndex (randomDisplayData sim) + k <= length (drawnLines env))%nat ->
    highlighted <$> random_run env k sim
    = Some <$> take k (drop (currentLineIndex (randomDisplayData sim)) (drawnLines env)).
Proof.
  induction k as [|k IH]; intros sim Hsim Hk; [done|].
  set (i := currentLineIndex (randomDisplayData sim)) in *.
  destruct (lookup_lt_is_Some_2 (drawnLines env) i ltac:(lia)) as [line Hline].
  destruct (animateRandomDisplay_traces env sim line Hsim Hline)
    as (Hhl & Hidx & _).
  fold i in Hidx.
  rewrite (drop_S _ _ _ Hline). simpl. rewrite Hhl. f_equal.
  destruct k as [|k]; [done|].
  rewrite IH; [|done|rewrite Hidx, Nat.mod_small; lia].
  by rewrite Hidx, Nat.mod_small by lia.
Qed.

Lemma random_run_app (env : Env) (a b : nat) :
  forall sim,
    random_run env (a + b) sim
    = random_run env a sim ++ random_run env b (random_ticks env a sim).
Proof.
  induction a as [|a IH]; intros sim; simpl; [done|]. by rewrite IH.
Qed.

(** A full cycle from index [i] highlights the list rotated by [i]. *)
Lemma random_run_cycle (env : Env) (sim : RandomSim) :
  isSimulating env = true ->
  (currentLineIndex (randomDisplayData sim) < length (drawnLines env))%nat ->
  highlighted <$> random_run env (length (drawnLines env)) sim
  = Some <$> (drop (currentLineIndex (randomDisplayData sim)) (drawnLines env)
              ++ take (currentLineIndex (randomDisplayData sim)) (drawnLines env)).
Proof.
  intros Hsim Hi.
  set (i := currentLineIndex (randomDisplayData sim)) in *.
  set (n := length (drawnLines env)) in *.
  replace n with ((n - i) + i)%nat at 1 by lia.
  rewrite random_run_app, !fmap_app. f_equal.
  - rewrite random_run_stretch; [|done|fold i n; lia]. fold i.
    rewrite take_ge; [done|]. rewrite length_drop. fold n. lia.
  - assert (Hzero :
      currentLineIndex (randomDisplayData (random_ticks env (n - i) sim)) = 0%nat).
    { rewrite random_ticks_index by done. fold i n.
      replace (i + (n - i))%nat with n by lia. apply Nat.Div0.mod_same. }
    rewrite random_run_stretch; [|done|rewrite Hzero; fold n; lia].
    by rewrite Hzero, drop_0.
Qed.

Lemma tracing_info_not_done (i : nat) (line : Line) :
  tracing_info i line <> random_done_info.
Proof. unfold tracing_info, random_done_info. discriminate. Qed.

Lemma random_ticks_in_range (env : Env) (k : nat) (sim : RandomSim) :
  isSimulating env = true ->
  (currentLineIndex (randomDisplayData sim) < length (drawnLines env))%nat ->
  (currentLineIndex (randomDisplayData (random_ticks env k sim))
   < length (drawnLines env))%nat.
Proof.
  intros Hsim Hi. rewrite random_ticks_index by done.
  apply Nat.mod_upper_bound. lia.
Qed.

(** ** Every tick of the raster simulator stays inside the framebuffer *)

Lemma animateRasterDisplay_safe (env : Env) (sim : RasterSim) :
  raster_wf sim ->
  exists sim', animateRasterDisplay env sim = Ok sim' /\ raster_wf sim'.
Proof.
  intros Hwf. unfold animateRasterDisplay.
  destruct (negb (isSimulating env)
            || bool_decide (length (buffer (rasterDisplayData sim)) = 0%nat)).
  { eexists; split; [reflexivity|]. exact Hwf. }
  destruct (bool_decide (currentScanline (rasterDisplayData sim)
                         < height (rasterCanvas sim))%nat
            && bool_decide (currentPixelInScanline (rasterDisplayData sim)
                            < width (rasterCanvas sim))%nat) eqn:Hcell.
  - apply andb_true_iff in Hcell as [Hrow Hcol].
    apply bool_decide_eq_true in Hrow, Hcol.
    destruct (buffer_read_shape _ _ _ _ _ Hwf Hrow Hcol) as (color & _ & ->).
    simpl.
    destruct (bool_decide (width (rasterCanvas sim)
                           <= S (currentPixelInScanline (rasterDisplayData sim)))%nat);
      eexists; (split; [reflexivity|]); exact Hwf.
  - eexists; split; [reflexivity|]. exact Hwf.
Qed.


(** ** The visualizer's playback *)

Section visualizer_facts.
Context `{JSNumber}.
Import Visualizer.

Lemma drop_handle_nil (id : nat) : drop_handle id [] = [].
Proof. reflexivity. Qed.

Lemma drop_handle_same (id : nat) (callback : Closure) :
  drop_handle id [(id, callback)] = [].
Proof. unfold drop_handle. by rewrite filter_cons_False, filter_nil by (simpl; tauto). Qed.

Lemma find_handle_nil (id : nat) : find_handle id [] = None.
Proof. reflexivity. Qed.

Lemma find_handle_single (id id' : nat) (callback : Closure) :
  find_handle id [(id', callback)] = if decide (id' = id) then Some callback else None.
Proof.
  unfold find_handle. destruct (decide (id' = id)) as [Heq|Hne].
  - by rewrite filter_cons_True.
  - by rewrite filter_cons_False.
Qed.

(** A run of [animateGraphicsVisualization] either sets one timeout and
    remembers it, or clears both refs; it never touches the frame queue. *)
Lemma animateGraphicsVisualization_queues (seen : Closure) (st : AppState) :
  let st' := animateGraphicsVisualization seen st in
  frames st' = frames st /\
  invocations st' = S (invocations st) /\
  ((timeouts st' = timeouts st ++ [(next_handle st, seen)] /\
    graphicsTimeoutIdRef st' = Some (next_handle st)) \/
   (timeouts st' = timeouts st /\
    graphicsAnimationFrameIdRef st' = None /\ graphicsTimeoutIdRef st' = None)).
Proof.
  intros st'. subst st'. unfold animateGraphicsVisualization.
  destruct (seen_pixelData seen !! seen_currentIndex seen) as [pixel|].
  - destruct (seen_currentIndex seen) as [|previous];
      [|destruct (seen_pixelData seen !! previous)]; simpl;
      (split_and!; [done|done|by left]).
  - destruct (last (seen_pixelData seen)); simpl;
      (split_and!; [done|done|by right]).
Qed.

Lemma clearGraphicsCanvas_cancelled (resetAll : bool) (st : AppState) :
  pending_tracked st -> cancelled (clearGraphicsCanvas resetAll st).
Proof.
  destruct st as [r c raf tmo fr tm nh inv].
  unfold pending_tracked, cancelled, quiescent, clearGraphicsCanvas; simpl.
  intros [[-> ->] | [(id & cb & -> & -> & ->) | (id & cb & -> & -> & ->)]];
    destruct resetAll; try destruct raf; try destruct tmo; simpl;
    rewrite ?drop_handle_same, ?drop_handle_nil; done.
Qed.

Lemma clearGraphicsCanvas_invocations (resetAll : bool) (st : AppState) :
  invocations (clearGraphicsCanvas resetAll st) = invocations st.
Proof.
  destruct st as [r c raf tmo fr tm nh inv]. unfold clearGraphicsCanvas.
  destruct resetAll, raf, tmo; reflexivity.
Qed.

Lemma cancelled_pending_tracked (st : AppState) :
  cancelled st -> pending_tracked st.
Proof. intros ((Hf & Ht & _) & _). by left. Qed.

Lemma initial_pending_tracked (w h : nat) : pending_tracked (initial w h).
Proof. by left. Qed.

Lemma animation_effect_pending_tracked (st : AppState) :
  pending_tracked st -> pending_tracked (animation_effect st).
Proof.
  destruct st as [r c raf tmo fr tm nh inv].
  unfold pending_tracked, animation_effect; simpl.
  intros [[-> ->] | [(id & cb & -> & -> & ->) | (id & cb & -> & -> & ->)]];
    try destruct raf; try destruct tmo; simpl;
    rewrite ?drop_handle_same, ?drop_handle_nil;
    destruct (isAnimating r && bool_decide (0 < length (pixelData r))%nat);
    simpl; rewrite ?drop_handle_same, ?drop_handle_nil; eauto 10.
Qed.

Lemma frames_with_react (f : ReactState -> ReactState) (st : AppState) :
  frames (with_react f st) = frames st.
Proof. reflexivity. Qed.

Lemma timeouts_with_react (f : ReactState -> ReactState) (st : AppState) :
  timeouts (with_react f st) = timeouts st.
Proof. reflexivity. Qed.

Lemma invocations_with_react (f : ReactState -> ReactState) (st : AppState) :
  invocations (with_react f st) = invocations st.
Proof. reflexivity. Qed.

(** A click on Start leaves nothing pending and runs no callback. *)
Lemma handleStartVisualization_queues (st st' : AppState) :
  pending_tracked st -> handleStartVisualization st = Completed st' ->
  frames st' = [] /\ timeouts st' = [] /\ invocations st' = invocations st.
Proof.
  intros Htracked. unfold handleStartVisualization.
  destruct (clearGraphicsCanvas_cancelled false st Htracked)
    as ((Hf & Ht & _) & _).
  pose proof (clearGraphicsCanvas_invocations false st) as Hinv.
  destruct (generate _ _) as [msg|pixels| |]; try discriminate.
  - intros [= <-].
    rewrite !frames_with_react, !timeouts_with_react, !invocations_with_react.
    auto.
  - destruct (bool_decide _); intros [= <-];
      rewrite !frames_with_react, !timeouts_with_react, !invocations_with_react;
      auto.
Qed.

Lemma handleStartVisualization_pending_tracked (st st' : AppState) :
  pending_tracked st -> handleStartVisualization st = Completed st' ->
  pending_tracked st'.
Proof.
  intros Htracked Hstart.
  destruct (handleStartVisualization_queues st st' Htracked Hstart)
    as (Hf & Ht & _).
  by left.
Qed.

Lemma step_pending_tracked (e : Event) (st st' : AppState) :
  pending_tracked st -> step e st = Some st' -> pending_tracked st'.
Proof.
  intros Htracked. destruct e; simpl.
  - destruct (handleStartVisualization st) as [st''| |] eqn:Hstart;
      intros [= <-]. by eapply handleStartVisualization_pending_tracked.
  - intros [= <-]. apply cancelled_pending_tracked.
    by apply clearGraphicsCanvas_cancelled.
  - intros [= <-]. apply cancelled_pending_tracked.
    by apply clearGraphicsCanvas_cancelled.
  - intros [= <-]. apply cancelled_pending_tracked.
    by apply clearGraphicsCanvas_cancelled.
  - by intros [= <-].
  - by intros [= <-].
  - by intros [= <-].
  - intros [= <-]. unfold resizeGraphicsCanvas. case_bool_decide; [|done].
    apply cancelled_pending_tracked. by apply clearGraphicsCanvas_cancelled.
  - destruct st as [r c raf tmo fr tm nh inv].
    unfold pending_tracked in Htracked. simpl in *.
    destruct Htracked
      as [[-> ->] | [(id' & cb & -> & -> & ->) | (id' & cb & -> & -> & ->)]];
      simpl in *;
      rewrite ?find_handle_nil, ?find_handle_single;
      try (intros [= <-]; unfold pending_tracked; simpl; eauto 10; fail).
    destruct (decide (id' = id)) as [->|Hne];
      [|intros [= <-]; unfold pending_tracked; simpl; eauto 10].
    rewrite drop_handle_same. intros [= <-].
    match goal with
    | |- pending_tracked (animateGraphicsVisualization ?seen ?st0) =>
        destruct (animateGraphicsVisualization_queues seen st0)
          as (Hf & _ & [[Ht Href] | (Ht & _ & _)])
    end; simpl in *.
    + right; right. eauto.
    + by left.
  - destruct st as [r c raf tmo fr tm nh inv].
    unfold pending_tracked in Htracked. simpl in *.
    destruct Htracked
      as [[-> ->] | [(id' & cb & -> & -> & ->) | (id' & cb & -> & -> & ->)]];
      simpl in *;
      rewrite ?find_handle_nil, ?find_handle_single;
      try (intros [= <-]; unfold pending_tracked; simpl; eauto 10; fail).
    destruct (decide (id' = id)) as [->|Hne];
      [|intros [= <-]; unfold pending_tracked; simpl; eauto 10].
    rewrite drop_handle_same. intros [= <-].
    unfold pending_tracked; simpl. eauto 10.
  - intros [= <-]. by apply animation_effect_pending_tracked.
Qed.

Lemma run_pending_tracked (events : list Event) :
  forall st st',
    pending_tracked st -> run events st = Some st' -> pending_tracked st'.
Proof.
  induction events as [|e rest IH]; intros st st' Htracked; simpl.
  - by intros [= <-].
  - destruct (step e st) as [st1|] eqn:Hstep; [|discriminate]. simpl.
    apply IH. by eapply step_pending_tracked.
Qed.

Lemma reachable_pending_tracked (st : AppState) :
  reachable st -> pending_tracked st.
Proof.
  intros (w & h & events & Hrun).
  eapply run_pending_tracked; [apply initial_pending_tracked|exact Hrun].
Qed.

End visualizer_facts.

Section visualizer_steps.
Context `{JSNumber}.
Import Visualizer.

Lemma clearGraphicsCanvas_false_react (st : AppState) :
  react (clearGraphicsCanvas false st)
  = setCurrentPixelInfo blank_readout
      (setIsAnimating false
         (setCurrentIndex (fun _ => 0%nat) (setPixelData [] (react st)))).
Proof.
  destruct st as [r c raf tmo fr tm nh inv]. unfold clearGraphicsCanvas.
  by destruct raf, tmo.
Qed.

Lemma clearGraphicsCanvas_painted (resetAll : bool) (st : AppState) :
  painted (graphicsCanvas (clearGraphicsCanvas resetAll st)) = [].
Proof.
  destruct st as [r c raf tmo fr tm nh inv]. unfold clearGraphicsCanvas.
  by destruct resetAll, raf, tmo.
Qed.

Lemma generate_rejected (algorithm : Algorithm) (c : Coords) :
  rejected algorithm c = true -> exists msg, generate algorithm c = Threw msg.
Proof.
  unfold rejected, generate. destruct algorithm.
  - intros ->. eauto.
  - intros ->. eauto.
  - intros Hrej.
    destruct (isNaN (cx c) || isNaN (cy c) || isNaN (radius c)); [eauto|].
    simpl in Hrej. rewrite Hrej. eauto.
Qed.

Lemma startBtn_checks_rejected (algorithm : Algorithm) (c : Coords) :
  rejected algorithm c = true -> is_Some (startBtn_checks algorithm c).
Proof.
  unfold rejected, startBtn_checks.
  destruct algorithm, (isNaN (x0 c)), (isNaN (y0 c)), (isNaN (x1 c)),
    (isNaN (y1 c)), (isNaN (cx c)), (isNaN (cy c)), (isNaN (radius c)),
    (le_zero (radius c)); simpl; intros Hrej; try discriminate; eauto.
Qed.

Lemma react_with_react (f : ReactState -> ReactState) (st : AppState) :
  react (with_react f st) = f (react st).
Proof. reflexivity. Qed.

Lemma graphicsCanvas_with_react (f : ReactState -> ReactState) (st : AppState) :
  graphicsCanvas (with_react f st) = graphicsCanvas st.
Proof. reflexivity. Qed.

(** When the [try] block throws, the handler returns with the message
    shown, no pixel data, no animation, and the canvas cleared. *)
Lemma handleStartVisualization_threw (st : AppState) (msg : string) :
  generate (currentAlgorithm (react st)) (coords (react st)) = Threw msg ->
  exists st',
    handleStartVisualization st = Completed st' /\
    message (react st') = msg /\
    showMessage (react st') = true /\
    pixelData (react st') = [] /\
    isAnimating (react st') = false /\
    painted (graphicsCanvas st') = [] /\
    invocations st' = invocations st.
Proof.
  intros Hgen. unfold handleStartVisualization.
  rewrite react_with_react, clearGraphicsCanvas_false_react. simpl.
  rewrite Hgen.
  eexists; split; [reflexivity|].
  rewrite !react_with_react, !graphicsCanvas_with_react, !invocations_with_react,
    clearGraphicsCanvas_false_react, clearGraphicsCanvas_painted,
    clearGraphicsCanvas_invocations.
  done.
Qed.

Lemma with_react_pending_tracked (f : ReactState -> ReactState) (st : AppState) :
  pending_tracked st -> pending_tracked (with_react f st).
Proof. by destruct st. Qed.

Lemma with_canvas_pending_tracked (f : Canvas PixelRect -> Canvas PixelRect)
    (st : AppState) :
  pending_tracked st -> pending_tracked (with_canvas f st).
Proof. by destruct st. Qed.

(** Until Start is clicked again, an event leaves a cancelled state
    cancelled and runs no callback. *)
Lemma step_cancelled (e : Event) (st : AppState) :
  is_start e = false -> cancelled st ->
  exists st',
    step e st = Some st' /\ cancelled st' /\ invocations st' = invocations st.
Proof.
  intros Hstart Hc. pose proof (cancelled_pending_tracked st Hc) as Htracked.
  destruct e; try discriminate; simpl.
  - eexists; split; [reflexivity|]. split.
    + by apply clearGraphicsCanvas_cancelled.
    + apply clearGraphicsCanvas_invocations.
  - eexists; split; [reflexivity|]. split.
    + by apply clearGraphicsCanvas_cancelled.
    + apply clearGraphicsCanvas_invocations.
  - eexists; split; [reflexivity|]. split.
    + by apply clearGraphicsCanvas_cancelled, with_react_pending_tracked.
    + rewrite clearGraphicsCanvas_invocations. by destruct st.
  - eexists; split; [reflexivity|]. by destruct st.
  - eexists; split; [reflexivity|]. by destruct st.
  - eexists; split; [reflexivity|]. by destruct st.
  - eexists; split; [reflexivity|]. unfold resizeGraphicsCanvas.
    case_bool_decide.
    + split.
      * by apply clearGraphicsCanvas_cancelled, with_canvas_pending_tracked,
          with_canvas_pending_tracked.
      * rewrite clearGraphicsCanvas_invocations. by destruct st.
    + by destruct st.
  - pose proof Hc as ((Hf & _) & _).
    rewrite Hf, find_handle_nil. by exists st.
  - pose proof Hc as ((_ & Ht & _) & _).
    rewrite Ht, find_handle_nil. by exists st.
  - eexists; split; [reflexivity|].
    destruct st as [r c raf tmo fr tm nh inv].
    destruct Hc as ((Hf & Ht & Hanim) & Hp & Hd & Hi). simpl in *. subst fr tm.
    unfold animation_effect, cancelled, quiescent.
    destruct raf, tmo; simpl; rewrite ?drop_handle_nil, Hanim; simpl;
      rewrite ?drop_handle_nil; done.
Qed.

Lemma run_cancelled (events : list Event) :
  forall st,
    forallb (fun e => negb (is_start e)) events = true -> cancelled st ->
    exists st',
      run events st = Some st' /\ cancelled st' /\
      invocations st' = invocations st.
Proof.
  induction events as [|e rest IH]; intros st Hev Hc; simpl.
  - by exists st.
  - simpl in Hev. apply andb_true_iff in Hev as [He Hrest].
    apply negb_true_iff in He.
    destruct (step_cancelled e st He Hc) as (st1 & -> & Hc1 & Hinv1). simpl.
    destruct (IH st1 Hrest Hc1) as (st' & Hrun & Hc' & Hinv').
    exists st'. split_and!; [done|done|congruence].
Qed.

End visualizer_steps.

Lemma midpointCircle_more_fuel (fuel k : nat) (xc yc r : Z) l :
  midpointCircle fuel xc yc r = Some l ->
  midpointCircle (fuel + k) xc yc r = Some l.
Proof.
  unfold midpointCircle.
  destruct (circle_loop fuel xc yc 0 r (1 - r) 0) as [l'|] eqn:Hloop;
    [|discriminate].
  intros Hl. by rewrite (circle_loop_more_fuel _ k _ _ _ _ _ _ _ Hloop).
Qed.


(** ** The sharper invariant of the Bresenham loop *)

Section bresenham_tight.
Variables x0 y0 x1 y1 dx dy sx sy : Z.
Hypothesis dx_nonneg : 0 <= dx.
Hypothesis dy_nonneg : 0 <= dy.
Hypothesis sx_unit : sx = 1 \/ sx = -1.
Hypothesis sy_unit : sy = 1 \/ sy = -1.
Hypothesis x1_reached : x1 = x0 + sx * dx.
Hypothesis y1_reached : y1 = y0 + sy * dy.

Lemma line_inv_tight_end a b x y err i :
  line_inv x0 y0 dx dy sx sy a b x y err -> line_inv_tight dx dy a b i ->
  0 <= i <= Z.max dx dy /\ ((a = dx /\ b = dy) <-> i = Z.max dx dy).
Proof.
  intros (Ha & Hb & _) [Hnear Hi]. case_bool_decide as Hmajor.
  - subst i. rewrite Z.max_l in * by lia. split; [lia|]. split; [lia|].
    intros ->. split; [done|]. nia.
  - subst i. rewrite Z.max_r in * by lia. split; [lia|]. split; [lia|].
    intros ->. split; [|done]. nia.
Qed.

Lemma bresenham_advance_tight a b x y err i :
  line_inv x0 y0 dx dy sx sy a b x y err -> line_inv_tight dx dy a b i ->
  ~ (a = dx /\ b = dy) ->
  exists a' b' x' y' err',
    bresenham_advance dx dy sx sy (x, y, err) = (x', y', err') /\
    line_inv x0 y0 dx dy sx sy a' b' x' y' err' /\
    line_inv_tight dx dy a' b' (i + 1).
Proof.
  intros (Ha & Hb & Hx & Hy & Herr) [Hnear Hi] Hne.
  unfold bresenham_advance, line_inv, line_inv_tight.
  destruct (decide (dy <= dx)) as [Hmajor|Hmajor].
  - rewrite bool_decide_eq_true_2 in Hi by done.
    rewrite !(bool_decide_eq_true_2 (dy <= dx)) by done.
    rewrite Z.max_l in * by lia. subst i.
    assert (Hlt : a < dx) by nia.
    assert (Hstep : 2 * err > - dy).
    { destruct (decide (dx = dy)) as [->|]; [|nia].
      assert (a <= b) by nia. nia. }
    rewrite (bool_decide_eq_true_2 (2 * err > - dy)) by done.
    case_bool_decide as Hy'.
    + exists (a + 1), (b + 1). do 3 eexists. split; [reflexivity|].
      assert (b < dy) by nia.
      split_and!; try lia; nia.
    + exists (a + 1), b. do 3 eexists. split; [reflexivity|].
      split_and!; try lia; nia.
  - rewrite bool_decide_eq_false_2 in Hi by done.
    rewrite !(bool_decide_eq_false_2 (dy <= dx)) by done.
    rewrite Z.max_r in * by lia. subst i.
    assert (Hlt : b < dy) by nia.
    assert (Hstep : 2 * err < dx) by nia.
    rewrite (bool_decide_eq_true_2 (2 * err < dx)) by done.
    case_bool_decide as Hx'.
    + exists (a + 1), (b + 1). do 3 eexists. split; [reflexivity|].
      assert (a < dx) by nia.
      split_and!; try lia; nia.
    + exists a, (b + 1). do 3 eexists. split; [reflexivity|].
      split_and!; try lia; nia.
Qed.

Lemma bresenham_loop_tight (fuel : nat) :
  forall a b x y err i,
    line_inv x0 y0 dx dy sx sy a b x y err -> line_inv_tight dx dy a b i ->
    Z.max dx dy - i < Z.of_nat fuel ->
    exists l,
      bresenham_loop fuel x1 y1 dx dy sx sy x y err i = Some l /\
      Z.of_nat (length l) = Z.max dx dy - i + 1 /\
      forall (k : nat) p, l !! k = Some p ->
        line_pixel x0 y0 dx dy sx sy (i + Z.of_nat k) p.
Proof.
  induction fuel as [|fuel IH]; intros a b x y err i Hinv Htight Hfuel.
  { destruct (line_inv_tight_end _ _ _ _ _ _ Hinv Htight). lia. }
  pose proof (line_inv_end x0 y0 x1 y1 dx dy sx sy sx_unit sy_unit
                x1_reached y1_reached _ _ _ _ _ Hinv) as Hend.
  destruct (line_inv_tight_end _ _ _ _ _ _ Hinv Htight) as [Hi Hlast].
  assert (Hhere : line_pixel x0 y0 dx dy sx sy i
                    (mkPixelStep x y (bresenham_info i x y err))).
  { exists a, b. destruct Hinv as (? & ? & ? & ? & ?).
    do 4 (split; [done|]). exact Htight. }
  simpl. destruct (decide (x = x1 /\ y = y1)) as [[-> ->]|Hne].
  - rewrite !bool_decide_eq_true_2 by done. simpl.
    eexists; split; [reflexivity|]. split; [simpl; lia|].
    intros [|k] p; simpl; [|done]. intros [= <-]. by rewrite Z.add_0_r.
  - assert (bool_decide (x = x1) && bool_decide (y = y1) = false) as ->.
    { apply andb_false_iff.
      destruct (decide (x = x1)); [right|left];
        apply bool_decide_eq_false_2; tauto. }
    destruct (bresenham_advance_tight a b x y err i Hinv Htight)
      as (a' & b' & x' & y' & err' & -> & Hinv' & Htight'); [tauto|].
    destruct (IH a' b' x' y' err' (i + 1) Hinv' Htight')
      as (l & -> & Hlen & Hpix); [lia|].
    eexists; split; [reflexivity|]. split; [simpl; lia|].
    intros [|k] p; simpl.
    + intros [= <-]. by rewrite Z.add_0_r.
    + intros Hp. apply Hpix in Hp.
      by replace (i + Z.of_nat (S k)) with (i + 1 + Z.of_nat k) by lia.
Qed.

End bresenham_tight.

(** ** Binary64 arithmetic *)

Lemma Qred_inject_Z (z : Z) : Qred (inject_Z z) = inject_Z z.
Proof.
  unfold Qred, inject_Z.
  pose proof (Z.ggcd_gcd z 1) as Hg.
  pose proof (Z.ggcd_correct_divisors z 1) as Hd.
  destruct (Z.ggcd z 1) as [g [aa bb]]. simpl in *.
  rewrite Z.gcd_1_r in Hg. subst g. destruct Hd as [Ha Hb].
  assert (bb = 1) as -> by lia. assert (aa = z) as -> by lia. done.
Qed.

(** ** Binary64 arithmetic is exact on integers below 2^53 *)

Lemma round_half_even_whole (n : Z) : Double.round_half_even n 1 = n.
Proof.
  unfold Double.round_half_even. by rewrite Z.div_1_r, Z.mod_1_r.
Qed.

Lemma binade_whole (n : Z) : 0 < n -> Double.binade n 1 = Z.log2 n.
Proof.
  intros Hn. unfold Double.binade.
  change (Z.log2 1) with 0. rewrite !Z.sub_0_r.
  pose proof (Z.log2_nonneg n) as Hk.
  pose proof (Z.log2_spec n Hn) as [Hlo _].
  rewrite Z.max_l, Z.max_r by lia.
  rewrite bool_decide_eq_true_2; [done|]. simpl. lia.
Qed.

Lemma nearest_int (z : Z) :
  Z.abs z < 2 ^ 53 -> Double.nearest (inject_Z z) = Double.int z.
Proof.
  intros Hz. unfold Double.nearest, Double.int. simpl Qnum. simpl Qden.
  case_bool_decide as Hzero; [by subst z|].
  rewrite binade_whole by lia.
  assert (He : Z.log2 (Z.abs z) < 53).
  { apply Z.log2_lt_pow2; lia. }
  pose proof (Z.log2_nonneg (Z.abs z)) as He0.
  set (e := Z.log2 (Z.abs z)) in *.
  rewrite (Z.max_l (e - 52)) by lia.
  rewrite (Z.max_l (- (e - 52)) 0), (Z.max_r (e - 52) 0) by lia.
  change (2 ^ 0) with 1. rewrite !Z.mul_1_r, round_half_even_whole.
  set (j := - (e - 52)).
  assert (Hj : 0 < 2 ^ j) by (apply Z.pow_pos_nonneg; lia).
  assert (Hm : Z.abs (z * 2 ^ j) < 2 ^ 53).
  { rewrite Z.abs_mul, (Z.abs_eq (2 ^ j)) by lia.
    pose proof (Z.log2_spec (Z.abs z) ltac:(lia)) as [_ Hhi]. fold e in Hhi.
    replace 53 with (Z.succ e + j) by lia.
    rewrite Z.pow_add_r by lia. nia. }
  rewrite bool_decide_eq_false_2.
  2:{ assert (2 ^ 53 < 2 ^ 1024) by (apply Z.pow_lt_mono_r; lia). lia. }
  f_equal. rewrite <- (Qred_inject_Z z). apply Qred_complete.
  unfold Qeq, inject_Z. simpl. rewrite Z2Pos.id by done. lia.
Qed.

Lemma round_int (q : Q) (z : Z) :
  Qeq q (inject_Z z) -> Z.abs z < 2 ^ 53 -> Double.round q = Double.int z.
Proof.
  intros Hq Hz. unfold Double.round.
  rewrite (Qred_complete _ _ Hq), Qred_inject_Z. by apply nearest_int.
Qed.

Lemma of_int_exact (z : Z) : Z.abs z < 2 ^ 53 -> Double.of_int z = Double.int z.
Proof. intros Hz. by apply round_int. Qed.

Lemma add_int (a b : Z) :
  Z.abs (a + b) < 2 ^ 53 ->
  Double.add (Double.int a) (Double.int b) = Double.int (a + b).
Proof.
  intros Hab. simpl. apply round_int; [|done]. by rewrite inject_Z_plus.
Qed.

Lemma neg_int (a : Z) : Double.neg (Double.int a) = Double.int (- a).
Proof. reflexivity. Qed.

Lemma sub_int (a b : Z) :
  Z.abs (a - b) < 2 ^ 53 ->
  Double.sub (Double.int a) (Double.int b) = Double.int (a - b).
Proof.
  intros Hab. unfold Double.sub. rewrite neg_int. by apply add_int.
Qed.

Lemma mul_int (a b : Z) :
  Z.abs (a * b) < 2 ^ 53 ->
  Double.mul (Double.int a) (Double.int b) = Double.int (a * b).
Proof.
  intros Hab. simpl. apply round_int; [|done]. by rewrite inject_Z_mult.
Qed.

Lemma abs_int (a : Z) : Double.abs (Double.int a) = Double.int (Z.abs a).
Proof. reflexivity. Qed.

Lemma lt_int (a b : Z) :
  Double.lt (Double.int a) (Double.int b) = bool_decide (a < b).
Proof. simpl. by rewrite !Z.mul_1_r. Qed.

Lemma eq_int (a b : Z) :
  Double.eq (Double.int a) (Double.int b) = bool_decide (a = b).
Proof. simpl. by rewrite !Z.mul_1_r. Qed.

Lemma gt_int (a b : Z) :
  Double.gt (Double.int a) (Double.int b) = bool_decide (a > b).
Proof.
  unfold Double.gt. rewrite lt_int. apply bool_decide_ext. lia.
Qed.

Lemma ge_int (a b : Z) :
  Double.ge (Double.int a) (Double.int b) = bool_decide (a >= b).
Proof.
  unfold Double.ge, Double.le. rewrite lt_int, eq_int.
  repeat case_bool_decide; simpl; try done; lia.
Qed.

Lemma Math_round_int_exact (z : Z) :
  Double.Math_round (Double.int z) = Double.int z.
Proof.
  unfold Double.Math_round, Double.int. do 2 f_equal.
  unfold Qfloor, Qplus, inject_Z. simpl.
  rewrite Z.mul_1_r. symmetry. apply (Z.div_unique _ _ _ 1); lia.
Qed.

Lemma int_if (b : bool) (u v : Z) :
  (if b then Double.int u else Double.int v) = Double.int (if b then u else v).
Proof. by destruct b. Qed.

(** ** On safe integers the integer model is the binary64 program *)

Ltac pow_consts :=
  change (2 ^ 53) with 9007199254740992 in *;
  change (2 ^ 50) with 1125899906842624 in *.

Section double_line.
Variables x0 y0 x1 y1 dx dy sx sy : Z.
Hypothesis dx_nonneg : 0 <= dx.
Hypothesis dy_nonneg : 0 <= dy.
Hypothesis sx_unit : sx = 1 \/ sx = -1.
Hypothesis sy_unit : sy = 1 \/ sy = -1.
Hypothesis x1_reached : x1 = x0 + sx * dx.
Hypothesis y1_reached : y1 = y0 + sy * dy.
Hypothesis x0_safe : safe x0.
Hypothesis y0_safe : safe y0.
Hypothesis x1_safe : safe x1.
Hypothesis y1_safe : safe y1.

(** What the invariants give on the size of the loop variables. *)
Lemma line_inv_bounds a b x y err i :
  line_inv x0 y0 dx dy sx sy a b x y err -> line_inv_tight dx dy a b i ->
  Z.abs x <= 2 ^ 50 /\ Z.abs y <= 2 ^ 50 /\
  dx <= 2 ^ 51 /\ dy <= 2 ^ 51 /\ Z.abs err <= 3 * 2 ^ 50.
Proof.
  intros (Ha & Hb & Hx & Hy & Herr) [Hnear _].
  unfold safe in *. change (2 ^ 51) with 2251799813685248. pow_consts.
  assert (Herr' : err = (dx * b - dy * a) + dx - dy) by lia.
  assert (Hdx : dx <= 2251799813685248)
    by (destruct sx_unit; subst sx; lia).
  assert (Hdy : dy <= 2251799813685248)
    by (destruct sy_unit; subst sy; lia).
  split_and!; [| |done|done|lia].
  - destruct sx_unit; subst sx; lia.
  - destruct sy_unit; subst sy; lia.
Qed.

Lemma double_advance a b x y err i :
  line_inv x0 y0 dx dy sx sy a b x y err -> line_inv_tight dx dy a b i ->
  ~ (a = dx /\ b = dy) ->
  exists a' b' x' y' err',
    bresenham_advance dx dy sx sy (x, y, err) = (x', y', err') /\
    Double.bresenham_advance (Double.int dx) (Double.int dy)
      (Double.int sx) (Double.int sy) (Double.int x, Double.int y, Double.int err)
    = (Double.int x', Double.int y', Double.int err') /\
    line_inv x0 y0 dx dy sx sy a' b' x' y' err' /\
    line_inv_tight dx dy a' b' (i + 1).
Proof.
  intros Hinv Htight Hne.
  destruct (line_inv_bounds _ _ _ _ _ _ Hinv Htight)
    as (Hx & Hy & Hdx & Hdy & Herr).
  destruct (bresenham_advance_tight x0 y0 x1 y1 dx dy sx sy dx_nonneg dy_nonneg
              sx_unit sy_unit x1_reached y1_reached a b x y err i Hinv Htight Hne)
    as (a' & b' & x' & y' & err' & Hadv & Hinv' & Htight').
  exists a', b', x', y', err'. split; [exact Hadv|]. split; [|done].
  revert Hadv. unfold bresenham_advance, Double.bresenham_advance.
  change (2 ^ 51) with 2251799813685248 in *. pow_consts.
  rewrite mul_int, neg_int, gt_int, lt_int by lia.
  assert (Hsx : Z.abs sx <= 1) by (destruct sx_unit; subst sx; lia).
  assert (Hsy : Z.abs sy <= 1) by (destruct sy_unit; subst sy; lia).
  repeat case_bool_decide; cbv beta iota;
    rewrite ?sub_int, ?add_int by lia;
    by intros [= <- <- <-].
Qed.

Lemma double_bresenham_loop (fuel : nat) :
  forall a b x y err i,
    line_inv x0 y0 dx dy sx sy a b x y err -> line_inv_tight dx dy a b i ->
    Double.bresenham_loop fuel (Double.int x1) (Double.int y1)
      (Double.int dx) (Double.int dy) (Double.int sx) (Double.int sy)
      (Double.int x) (Double.int y) (Double.int err)
    = fmap (M := list) double_pixel
        <$> bresenham_loop fuel x1 y1 dx dy sx sy x y err i.
Proof.
  induction fuel as [|fuel IH]; intros a b x y err i Hinv Htight; [done|].
  pose proof (line_inv_end x0 y0 x1 y1 dx dy sx sy sx_unit sy_unit
                x1_reached y1_reached _ _ _ _ _ Hinv) as Hend.
  cbn [Double.bresenham_loop bresenham_loop]. rewrite !eq_int.
  destruct (bool_decide (x = x1) && bool_decide (y = y1)) eqn:Hexit; [done|].
  destruct (double_advance a b x y err i Hinv Htight)
    as (a' & b' & x' & y' & err' & -> & -> & Hinv' & Htight').
  { intros Hab. apply Hend in Hab as [-> ->].
    by rewrite !bool_decide_eq_true_2 in Hexit. }
  rewrite (IH a' b' x' y' err' (i + 1) Hinv' Htight').
  by destruct (bresenham_loop fuel x1 y1 dx dy sx sy x' y' err' (i + 1)).
Qed.

Lemma double_bresenhamLinePixels_loop (fuel : nat) (w h : Z) :
  forall a b x y err i,
    line_inv x0 y0 dx dy sx sy a b x y err -> line_inv_tight dx dy a b i ->
    Double.bresenhamLinePixels_loop fuel (Double.int x1) (Double.int y1)
      (Double.int dx) (Double.int dy) (Double.int sx) (Double.int sy)
      (Double.int w) (Double.int h)
      (Double.int x) (Double.int y) (Double.int err)
    = fmap (M := list) double_point
        <$> bresenhamLinePixels_loop fuel x1 y1 dx dy sx sy w h x y err.
Proof.
  induction fuel as [|fuel IH]; intros a b x y err i Hinv Htight; [done|].
  pose proof (line_inv_end x0 y0 x1 y1 dx dy sx sy sx_unit sy_unit
                x1_reached y1_reached _ _ _ _ _ Hinv) as Hend.
  cbn [Double.bresenhamLinePixels_loop bresenhamLinePixels_loop].
  rewrite !eq_int.
  assert (Hpushed :
    (if Double.in_canvas (Double.int w) (Double.int h) (Double.int x) (Double.int y)
     then [Double.mkPixel (Double.Math_round (Double.int x))
             (Double.Math_round (Double.int y))]
     else [])
    = double_point
        <$> (if in_canvas w h x y
             then [mkPoint (Math_round_int x) (Math_round_int y)] else [])).
  { unfold Double.in_canvas, in_canvas. rewrite !ge_int, !lt_int.
    rewrite !Math_round_int_exact.
    by destruct (bool_decide (x >= 0) && bool_decide (x < w)
                 && bool_decide (y >= 0) && bool_decide (y < h)). }
  rewrite Hpushed.
  destruct (bool_decide (x = x1) && bool_decide (y = y1)) eqn:Hexit; [done|].
  destruct (double_advance a b x y err i Hinv Htight)
    as (a' & b' & x' & y' & err' & -> & -> & Hinv' & Htight').
  { intros Hab. apply Hend in Hab as [-> ->].
    by rewrite !bool_decide_eq_true_2 in Hexit. }
  rewrite (IH a' b' x' y' err' (i + 1) Hinv' Htight').
  destruct (bresenhamLinePixels_loop fuel x1 y1 dx dy sx sy w h x' y' err');
    [|done].
  simpl. by rewrite fmap_app.
Qed.

End double_line.

(** The set-up of the two functions, on safe end points. *)
Lemma double_setup (x0 y0 x1 y1 : Z) :
  safe x0 -> safe y0 -> safe x1 -> safe y1 ->
  let dx := Z.abs (x1 - x0) in
  let dy := Z.abs (y1 - y0) in
  let sx := if bool_decide (x0 < x1) then 1 else -1 in
  let sy := if bool_decide (y0 < y1) then 1 else -1 in
  Double.abs (Double.sub (Double.int x1) (Double.int x0)) = Double.int dx /\
  Double.abs (Double.sub (Double.int y1) (Double.int y0)) = Double.int dy /\
  (if Double.lt (Double.int x0) (Double.int x1)
   then Double.int 1 else Double.int (-1)) = Double.int sx /\
  (if Double.lt (Double.int y0) (Double.int y1)
   then Double.int 1 else Double.int (-1)) = Double.int sy /\
  Double.sub (Double.int dx) (Double.int dy) = Double.int (dx - dy) /\
  line_inv_tight dx dy 0 0 0.
Proof.
  intros Hx0 Hy0 Hx1 Hy1 dx dy sx sy. unfold safe in *. pow_consts.
  rewrite !sub_int, !abs_int, !lt_int, !int_if by lia.
  split_and!; try done.
  unfold line_inv_tight. split; [lia|]. by case_bool_decide.
Qed.

(** On safe end points the binary64 [bresenhamLine] computes, with every
    budget, what the integer model computes. *)
Lemma double_bresenhamLine (fuel : nat) (x0 y0 x1 y1 : Z) :
  safe x0 -> safe y0 -> safe x1 -> safe y1 ->
  Double.bresenhamLine fuel (Double.int x0) (Double.int y0)
    (Double.int x1) (Double.int y1)
  = fmap (M := list) double_pixel <$> bresenhamLine fuel x0 y0 x1 y1.
Proof.
  intros Hx0 Hy0 Hx1 Hy1.
  destruct (bresenham_setup x0 y0 x1 y1)
    as (Hdx & Hdy & Hsx & Hsy & Hx1' & Hy1' & Hinv).
  destruct (double_setup x0 y0 x1 y1 Hx0 Hy0 Hx1 Hy1)
    as (Edx & Edy & Esx & Esy & Eerr & Htight).
  unfold Double.bresenhamLine, bresenhamLine.
  rewrite Edx, Edy, Esx, Esy, Eerr.
  by apply (double_bresenham_loop x0 y0 x1 y1 _ _ _ _ Hdx Hdy Hsx Hsy Hx1' Hy1'
              Hx0 Hy0 Hx1 Hy1 fuel 0 0).
Qed.

Lemma double_bresenhamLinePixels (fuel : nat) (x0 y0 x1 y1 w h : Z) :
  safe x0 -> safe y0 -> safe x1 -> safe y1 ->
  Double.bresenhamLinePixels fuel (Double.int x0) (Double.int y0)
    (Double.int x1) (Double.int y1) (Double.int w) (Double.int h)
  = fmap (M := list) double_point <$> bresenhamLinePixels fuel x0 y0 x1 y1 w h.
Proof.
  intros Hx0 Hy0 Hx1 Hy1.
  destruct (bresenham_setup x0 y0 x1 y1)
    as (Hdx & Hdy & Hsx & Hsy & Hx1' & Hy1' & Hinv).
  destruct (double_setup x0 y0 x1 y1 Hx0 Hy0 Hx1 Hy1)
    as (Edx & Edy & Esx & Esy & Eerr & Htight).
  unfold Double.bresenhamLinePixels, bresenhamLinePixels.
  rewrite Edx, Edy, Esx, Esy, Eerr.
  by apply (double_bresenhamLinePixels_loop x0 y0 x1 y1 _ _ _ _ Hdx Hdy Hsx Hsy
              Hx1' Hy1' Hx0 Hy0 Hx1 Hy1 fuel w h 0 0 _ _ _ 0).
Qed.

Lemma fmap_app_option {A B : Type} (f : A -> B) (l : list A) (o : option (list A)) :
  app (f <$> l) <$> (fmap (M := list) f <$> o)
  = fmap (M := list) f <$> (app l <$> o).
Proof. destruct o; simpl; [by rewrite fmap_app|done]. Qed.

Lemma double_drawCirclePoints (cx cy px py : Z) (info : string) :
  safe cx -> safe cy -> Z.abs px <= 2 ^ 50 + 1 -> Z.abs py <= 2 ^ 50 + 1 ->
  Double.drawCirclePoints (Double.int cx) (Double.int cy)
    (Double.int px) (Double.int py)
  = double_pixel <$> drawCirclePoints cx cy px py info.
Proof.
  unfold safe. pow_consts. intros Hcx Hcy Hpx Hpy.
  unfold Double.drawCirclePoints, drawCirclePoints, double_pixel.
  rewrite !sub_int, !add_int by lia. reflexivity.
Qed.

Lemma double_circle_advance (r x y p : Z) :
  r <= 2 ^ 50 -> circle_inv r x y p ->
  exists x' y' p',
    circle_advance (x, y, p) = (x', y', p') /\
    Double.circle_advance (Double.int x, Double.int y, Double.int p)
    = (Double.int x', Double.int y', Double.int p').
Proof.
  pow_consts. intros Hr (Hx & Hy & Hxy & _ & Hlo & Hhi & _).
  unfold circle_advance, Double.circle_advance.
  rewrite lt_int, add_int by lia.
  case_bool_decide; do 3 eexists; (split; [reflexivity|]).
  - by rewrite mul_int, !add_int by lia.
  - by rewrite sub_int, !mul_int, !add_int, sub_int by lia.
Qed.

Lemma double_circle_loop (cx cy r : Z) (fuel : nat) :
  safe cx -> safe cy -> r <= 2 ^ 50 ->
  forall x y p i,
    circle_inv r x y p ->
    Double.circle_loop fuel (Double.int cx) (Double.int cy)
      (Double.int x) (Double.int y) (Double.int p)
    = fmap (M := list) double_pixel <$> circle_loop fuel cx cy x y p i.
Proof.
  intros Hcx Hcy Hr.
  induction fuel as [|fuel IH]; intros x y p i Hinv.
  - cbn [Double.circle_loop circle_loop]. rewrite lt_int.
    by case_bool_decide.
  - cbn [Double.circle_loop circle_loop]. rewrite lt_int.
    case_bool_decide as Hlt; [|done].
    destruct (double_circle_advance r x y p Hr Hinv)
      as (x' & y' & p' & Hadv & ->).
    destruct (circle_advance_inv r x y p Hinv Hlt)
      as (x'' & y'' & p'' & Hadv' & Hinv' & _).
    rewrite Hadv in Hadv'. injection Hadv' as <- <- <-. rewrite Hadv.
    rewrite (IH x' y' p' (i + 1) Hinv').
    rewrite (double_drawCirclePoints cx cy x' y'
               (circle_step_info (i + 1) x' y' p')); try done.
    + apply fmap_app_option.
    + destruct Hinv' as (? & ? & ? & _). pow_consts. lia.
    + destruct Hinv' as (? & ? & ? & _). pow_consts. lia.
Qed.

(** On a safe centre and radius the binary64 [midpointCircle] computes,
    with every budget, what the integer model computes. *)
Lemma double_midpointCircle (fuel : nat) (cx cy r : Z) :
  safe cx -> safe cy -> safe r ->
  Double.midpointCircle fuel (Double.int cx) (Double.int cy) (Double.int r)
  = fmap (M := list) double_pixel <$> midpointCircle fuel cx cy r.
Proof.
  intros Hcx Hcy Hr. unfold Double.midpointCircle, midpointCircle.
  assert (Hr' : Z.abs r <= 2 ^ 50) by exact Hr.
  rewrite sub_int by (pow_consts; lia).
  rewrite (double_drawCirclePoints cx cy 0 r (circle_initial_info 0 r (1 - r)))
    by (try done; pow_consts; lia).
  assert (Hloop :
    Double.circle_loop fuel (Double.int cx) (Double.int cy)
      (Double.int 0) (Double.int r) (Double.int (1 - r))
    = fmap (M := list) double_pixel <$> circle_loop fuel cx cy 0 r (1 - r) 0).
  { destruct (decide (0 <= r)) as [Hpos|Hneg].
    - apply (double_circle_loop cx cy r); [done|done|pow_consts; lia|].
      by apply circle_inv_initial.
    - destruct fuel; cbn [Double.circle_loop circle_loop]; rewrite lt_int;
        by rewrite bool_decide_eq_false_2 by lia. }
  rewrite Hloop. apply fmap_app_option.
Qed.

(** The loop that cannot leave: when the exit test fails and the step
    changes nothing, no budget is enough. *)
Lemma double_bresenham_loop_stuck (x1 y1 dx dy sx sy x y err : Double.t) :
  Double.eq x x1 && Double.eq y y1 = false ->
  Double.bresenham_advance dx dy sx sy (x, y, err) = (x, y, err) ->
  forall fuel, Double.bresenham_loop fuel x1 y1 dx dy sx sy x y err = None.
Proof.
  intros Hexit Hadv. induction fuel as [|fuel IH]; [done|].
  cbn [Double.bresenham_loop]. by rewrite Hexit, Hadv, IH.
Qed.


(** ** The binary64 rasterizers on whole numbers and on safe integers *)

Lemma visible_positions_all (w h : Z) (l : list (PixelStep Z)) :
  Forall (fun q : Point => point_in_canvas w h q = true) (position <$> l) ->
  visible_positions w h l = position <$> l.
Proof.
  unfold visible_positions.
  induction (position <$> l) as [|q qs IH]; intros Hin; [done|].
  apply Forall_cons in Hin as [Hq Hqs].
  rewrite filter_cons_True by (by rewrite Hq). f_equal. by apply IH.
Qed.

Lemma of_int_safe (z : Z) : safe z -> Double.of_int z = Double.int z.
Proof. unfold safe. intros Hz. apply of_int_exact. lia. Qed.

Lemma double_bresenhamLinePixels_loop_filter (fuel : nat) :
  forall x1 y1 dx dy sx sy w h x y err,
    Double.bresenhamLinePixels_loop fuel x1 y1 dx dy sx sy w h x y err
    = double_visible w h <$> Double.bresenham_loop fuel x1 y1 dx dy sx sy x y err.
Proof.
  induction fuel as [|fuel IH]; intros x1 y1 dx dy sx sy w h x y err; [done|].
  cbn [Double.bresenhamLinePixels_loop Double.bresenham_loop].
  assert (Hpush :
    forall l : list Double.Pixel,
      (if Double.in_canvas w h x y
       then [Double.mkPixel (Double.Math_round x) (Double.Math_round y)]
       else []) ++ double_visible w h l
      = double_visible w h (Double.mkPixel x y :: l)).
  { intros l. unfold double_visible.
    destruct (Double.in_canvas w h x y) eqn:Hin.
    - rewrite filter_cons_True by (simpl; by rewrite Hin). done.
    - rewrite filter_cons_False by (simpl; rewrite Hin; by intros []). done. }
  destruct (Double.eq x x1 && Double.eq y y1).
  - cbn [fmap option_fmap option_map]. f_equal.
    rewrite <- Hpush. unfold double_visible at 1.
    by rewrite filter_nil, fmap_nil, app_nil_r.
  - destruct (Double.bresenham_advance dx dy sx sy (x, y, err)) as [[x' y'] err'].
    rewrite IH.
    destruct (Double.bresenham_loop fuel x1 y1 dx dy sx sy x' y' err');
      [|done].
    cbn [fmap option_fmap option_map]. f_equal. apply Hpush.
Qed.

Lemma double_bresenham_loop_exit (fuel : nat)
    (x1 y1 dx dy sx sy x y err : Double.t) :
  Double.eq x x1 && Double.eq y y1 = true ->
  Double.bresenham_loop (S fuel) x1 y1 dx dy sx sy x y err
  = Some [Double.mkPixel x y].
Proof. intros Hexit. cbn [Double.bresenham_loop]. by rewrite Hexit. Qed.

Lemma double_bresenham_loop_step (fuel : nat)
    (x1 y1 dx dy sx sy x y err x' y' err' : Double.t) :
  Double.eq x x1 && Double.eq y y1 = false ->
  Double.bresenham_advance dx dy sx sy (x, y, err) = (x', y', err') ->
  Double.bresenham_loop (S fuel) x1 y1 dx dy sx sy x y err
  = cons (Double.mkPixel x y)
      <$> Double.bresenham_loop fuel x1 y1 dx dy sx sy x' y' err'.
Proof.
  intros Hexit Hadv. cbn [Double.bresenham_loop]. by rewrite Hexit, Hadv.
Qed.



(** Rounding an integer to binary64 gives an integer or an infinity. *)
Lemma nearest_whole (z : Z) : whole (Double.nearest (inject_Z z)).
Proof.
  unfold Double.nearest. simpl Qnum. simpl Qden.
  case_bool_decide as Hzero; [by exists 0|].
  rewrite binade_whole by lia.
  pose proof (Z.log2_nonneg (Z.abs z)) as He0.
  set (e := Z.log2 (Z.abs z)) in *.
  rewrite (Z.max_l (e - 52)) by lia.
  case_bool_decide; [by case_bool_decide|].
  destruct (decide (52 <= e)) as [Hbig|Hsmall].
  - rewrite (Z.max_r (- (e - 52)) 0), (Z.max_l (e - 52) 0) by lia.
    change (2 ^ 0) with 1. change (Z.to_pos 1) with 1%positive.
    eexists. apply Qred_inject_Z.
  - rewrite (Z.max_l (- (e - 52)) 0), (Z.max_r (e - 52) 0) by lia.
    change (2 ^ 0) with 1. rewrite !Z.mul_1_r, round_half_even_whole.
    set (j := - (e - 52)).
    assert (Hj : 0 < 2 ^ j) by (apply Z.pow_pos_nonneg; lia).
    exists z. rewrite <- (Qred_inject_Z z). apply Qred_complete.
    unfold Qeq, inject_Z. simpl. rewrite Z2Pos.id by done. lia.
Qed.

Lemma of_int_whole (z : Z) : whole (Double.of_int z).
Proof.
  unfold Double.of_int, Double.round. rewrite Qred_inject_Z.
  apply nearest_whole.
Qed.

Lemma int_whole (z : Z) : whole (Double.int z).
Proof. by exists z. Qed.

Lemma add_whole (a b : Double.t) : whole a -> whole b -> whole (Double.add a b).
Proof.
  destruct a as [p| | |], b as [q| | |]; try done.
  intros [i ->] [j ->]. unfold Double.add, Double.round.
  assert (Qred (inject_Z i + inject_Z j) = inject_Z (i + j)) as ->.
  { rewrite <- (Qred_inject_Z (i + j)). apply Qred_complete.
    by rewrite inject_Z_plus. }
  apply nearest_whole.
Qed.

Lemma Math_round_whole (a : Double.t) : whole a -> Double.Math_round a = a.
Proof.
  destruct a as [q| | |]; try done. intros [k ->].
  apply Math_round_int_exact.
Qed.

(** From whole numbers the loop of [bresenhamLine] pushes whole numbers. *)
Lemma double_bresenham_loop_whole (fuel : nat) :
  forall x1 y1 dx dy sx sy x y err l,
    whole sx -> whole sy -> whole x -> whole y ->
    Double.bresenham_loop fuel x1 y1 dx dy sx sy x y err = Some l ->
    Forall (fun p => whole (Double.x p) /\ whole (Double.y p)) l.
Proof.
  induction fuel as [|fuel IH]; intros x1 y1 dx dy sx sy x y err l Hsx Hsy Hx Hy;
    cbn [Double.bresenham_loop]; [discriminate|].
  destruct (Double.eq x x1 && Double.eq y y1).
  - intros [= <-]. by repeat constructor.
  - destruct (Double.bresenham_advance dx dy sx sy (x, y, err))
      as [[x' y'] err'] eqn:Hadv.
    destruct (Double.bresenham_loop fuel x1 y1 dx dy sx sy x' y' err')
      as [rest|] eqn:Hrest; [|discriminate].
    intros [= <-]. constructor; [done|].
    eapply (IH x1 y1 dx dy sx sy x' y' err' rest); [done|done| | |exact Hrest].
    + unfold Double.bresenham_advance in Hadv.
      destruct (Double.gt _ _), (Double.lt _ _); injection Hadv as <- _ _;
        try done; by apply add_whole.
    + unfold Double.bresenham_advance in Hadv.
      destruct (Double.gt _ _), (Double.lt _ _); injection Hadv as _ <- _;
        try done; by apply add_whole.
Qed.

Lemma double_visible_whole (w h : Double.t) (l : list Double.Pixel) :
  Forall (fun p => whole (Double.x p) /\ whole (Double.y p)) l ->
  double_visible w h l = double_on_canvas w h l.
Proof.
  unfold double_visible, double_on_canvas. intros Hl.
  induction Hl as [|p l [Hx Hy] Hl IH]; [done|].
  destruct (Double.in_canvas w h (Double.x p) (Double.y p)) eqn:Hin.
  - rewrite filter_cons_True by (by rewrite Hin).
    rewrite fmap_cons, IH, Math_round_whole, Math_round_whole by done.
    by destruct p.
  - rewrite filter_cons_False by (rewrite Hin; by intros []). exact IH.
Qed.

(** For integer end points the output of [bresenhamLinePixels] is the
    output of [bresenhamLine] without the pixels outside the canvas. *)
Lemma double_bresenhamLinePixels_on_canvas (fuel : nat) (x0 y0 x1 y1 : Z)
    (w h : Double.t) :
  Double.bresenhamLinePixels fuel
    (Double.of_int x0) (Double.of_int y0) (Double.of_int x1) (Double.of_int y1)
    w h
  = double_on_canvas w h
      <$> Double.bresenhamLine fuel
            (Double.of_int x0) (Double.of_int y0)
            (Double.of_int x1) (Double.of_int y1).
Proof.
  unfold Double.bresenhamLinePixels, Double.bresenhamLine.
  rewrite double_bresenhamLinePixels_loop_filter.
  destruct (Double.bresenham_loop _ _ _ _ _ _ _ _ _ _) as [l|] eqn:Hl; [|done].
  cbn [fmap option_fmap option_map]. f_equal.
  apply double_visible_whole.
  eapply double_bresenham_loop_whole; [| | | |exact Hl];
    try apply of_int_whole;
    match goal with |- whole (if ?b then _ else _) => destruct b end;
    apply int_whole.
Qed.

Lemma le_int (a b : Z) :
  Double.le (Double.int a) (Double.int b) = bool_decide (a <= b).
Proof.
  unfold Double.le. rewrite lt_int, eq_int.
  repeat case_bool_decide; simpl; try done; lia.
Qed.

Lemma div_int_abs (a : Z) :
  a <> 0 ->
  Double.div (Double.int a) (Double.int (Z.abs a)) = Double.int (Z.sgn a).
Proof.
  intros Ha. unfold Double.div, Double.int.
  rewrite bool_decide_eq_false_2 by (simpl; lia).
  apply round_int; [|destruct a; simpl; lia].
  destruct a as [|p|p]; [done|..]; unfold Qeq, Qdiv, Qmult, Qinv, inject_Z;
    simpl; lia.
Qed.

(** The loop of [ddaLine] runs once for each integer from [i] to [steps]. *)
Lemma double_dda_loop_length (n : nat) :
  forall (fuel : nat) (steps i : Z) x y xi yi,
    0 <= i -> steps < 2 ^ 52 -> Z.of_nat n = steps + 1 - i -> (n <= fuel)%nat ->
    exists l,
      Double.dda_loop fuel (Double.int steps) (Double.int i) x y xi yi = Some l /\
      length l = n.
Proof.
  induction n as [|n IH]; intros fuel steps i x y xi yi Hi Hsteps Hn Hfuel.
  - exists []. split; [|done].
    destruct fuel; simpl; rewrite le_int;
      by rewrite bool_decide_eq_false_2 by lia.
  - destruct fuel as [|fuel]; [lia|].
    cbn [Double.dda_loop]. rewrite le_int, bool_decide_eq_true_2 by lia.
    rewrite add_int by lia.
    destruct (IH fuel steps (i + 1) (Double.add x xi) (Double.add y yi) xi yi)
      as (l & -> & Hlen); [lia..|].
    eexists. split; [reflexivity|]. simpl. by rewrite Hlen.
Qed.

(** With a unit increment the accumulated coordinate is an integer at
    every iteration. *)
Lemma double_dda_loop_exact_x (fuel : nat) :
  forall (steps i c s : Z) y yi l,
    0 <= i -> steps < 2 ^ 52 -> Z.abs s <= 1 ->
    Z.abs c + (steps + 1 - i) < 2 ^ 53 ->
    Double.dda_loop fuel (Double.int steps) (Double.int i)
      (Double.int c) y (Double.int s) yi = Some l ->
    forall (k : nat) p, l !! k = Some p ->
      Double.x p = Double.int (c + s * Z.of_nat k).
Proof.
  induction fuel as [|fuel IH]; intros steps i c s y yi l Hi Hsteps Hs Hc;
    cbn [Double.dda_loop]; rewrite le_int.
  - case_bool_decide; [discriminate|]. by intros [= <-] k p.
  - case_bool_decide; [|by intros [= <-] k p].
    rewrite !add_int by lia. rewrite Math_round_int_exact.
    destruct (Double.dda_loop fuel (Double.int steps) (Double.int (i + 1))
                (Double.int (c + s)) (Double.add y yi) (Double.int s) yi)
      as [rest|] eqn:Hrest; [|discriminate].
    intros [= <-] [|k] p; simpl.
    + intros [= <-]. simpl. f_equal. lia.
    + intros Hp.
      rewrite (IH steps (i + 1) (c + s) s (Double.add y yi) yi rest
                 ltac:(lia) Hsteps Hs ltac:(lia) Hrest k p Hp).
      f_equal. lia.
Qed.

Lemma double_dda_loop_exact_y (fuel : nat) :
  forall (steps i c s : Z) x xi l,
    0 <= i -> steps < 2 ^ 52 -> Z.abs s <= 1 ->
    Z.abs c + (steps + 1 - i) < 2 ^ 53 ->
    Double.dda_loop fuel (Double.int steps) (Double.int i)
      x (Double.int c) xi (Double.int s) = Some l ->
    forall (k : nat) p, l !! k = Some p ->
      Double.y p = Double.int (c + s * Z.of_nat k).
Proof.
  induction fuel as [|fuel IH]; intros steps i c s x xi l Hi Hsteps Hs Hc;
    cbn [Double.dda_loop]; rewrite le_int.
  - case_bool_decide; [discriminate|]. by intros [= <-] k p.
  - case_bool_decide; [|by intros [= <-] k p].
    rewrite !add_int by lia. rewrite Math_round_int_exact.
    destruct (Double.dda_loop fuel (Double.int steps) (Double.int (i + 1))
                (Double.add x xi) (Double.int (c + s)) xi (Double.int s))
      as [rest|] eqn:Hrest; [|discriminate].
    intros [= <-] [|k] p; simpl.
    + intros [= <-]. simpl. f_equal. lia.
    + intros Hp.
      rewrite (IH steps (i + 1) (c + s) s (Double.add x xi) xi rest
                 ltac:(lia) Hsteps Hs ltac:(lia) Hrest k p Hp).
      f_equal. lia.
Qed.

Lemma double_dda_loop_more_fuel (fuel k : nat) :
  forall steps i x y xi yi l,
    Double.dda_loop fuel steps i x y xi yi = Some l ->
    Double.dda_loop (fuel + k) steps i x y xi yi = Some l.
Proof.
  induction fuel as [|fuel IH]; intros steps i x y xi yi l.
  - cbn [Double.dda_loop]. destruct (Double.le i steps) eqn:Hle; [discriminate|].
    intros [= <-]. destruct (0 + k)%nat; cbn [Double.dda_loop]; by rewrite Hle.
  - cbn [Double.dda_loop Nat.add]. destruct (Double.le i steps); [|done].
    destruct (Double.dda_loop fuel steps (Double.add i (Double.int 1))
                (Double.add x xi) (Double.add y yi) xi yi) as [rest|] eqn:Hrest;
      [|discriminate].
    intros [= <-]. by rewrite (IH _ _ _ _ _ _ _ Hrest).
Qed.

Lemma double_ddaLine_more_fuel (fuel k : nat) (x0 y0 x1 y1 : Double.t) l :
  Double.ddaLine fuel x0 y0 x1 y1 = Some l ->
  Double.ddaLine (fuel + k) x0 y0 x1 y1 = Some l.
Proof. unfold Double.ddaLine. apply double_dda_loop_more_fuel. Qed.

(** [ddaLine] on safe integers: the set-up is exact. *)
Lemma double_ddaLine_unfold (fuel : nat) (x0 y0 x1 y1 : Z) :
  safe x0 -> safe y0 -> safe x1 -> safe y1 ->
  Double.ddaLine fuel (Double.int x0) (Double.int y0) (Double.int x1) (Double.int y1)
  = Double.dda_loop fuel (Double.int (dda_steps x0 y0 x1 y1)) (Double.int 0)
      (Double.int x0) (Double.int y0)
      (Double.div (Double.int (x1 - x0)) (Double.int (dda_steps x0 y0 x1 y1)))
      (Double.div (Double.int (y1 - y0)) (Double.int (dda_steps x0 y0 x1 y1))).
Proof.
  unfold safe. intros Hx0 Hy0 Hx1 Hy1. pow_consts.
  unfold Double.ddaLine, dda_steps.
  rewrite !sub_int by lia. rewrite !abs_int, gt_int.
  by case_bool_decide.
Qed.

Lemma double_ddaLine_spec (x0 y0 x1 y1 : Z) :
  safe x0 -> safe y0 -> safe x1 -> safe y1 ->
  exists l,
    (forall k : nat,
       Double.ddaLine (dda_fuel x0 y0 x1 y1 + k)
         (Double.of_int x0) (Double.of_int y0)
         (Double.of_int x1) (Double.of_int y1) = Some l) /\
    Z.of_nat (length l) = Z.max (Z.abs (x1 - x0)) (Z.abs (y1 - y0)) + 1 /\
    forall (j : nat) p, l !! j = Some p ->
      double_major_step x0 y0 x1 y1 (Z.of_nat j) p.
Proof.
  intros Hx0 Hy0 Hx1 Hy1.
  cut (exists l,
         Double.ddaLine (dda_fuel x0 y0 x1 y1)
           (Double.of_int x0) (Double.of_int y0)
           (Double.of_int x1) (Double.of_int y1) = Some l /\
         Z.of_nat (length l) = Z.max (Z.abs (x1 - x0)) (Z.abs (y1 - y0)) + 1 /\
         forall (j : nat) p, l !! j = Some p ->
           double_major_step x0 y0 x1 y1 (Z.of_nat j) p).
  { intros (l & Hl & Hrest). exists l. split; [|exact Hrest].
    intros k. by apply double_ddaLine_more_fuel. }
  rewrite !of_int_safe by done. rewrite double_ddaLine_unfold by done.
  assert (Hsteps : dda_steps x0 y0 x1 y1
                   = Z.max (Z.abs (x1 - x0)) (Z.abs (y1 - y0)))
    by apply dda_steps_max.
  unfold safe in *. pow_consts.
  destruct (double_dda_loop_length (dda_fuel x0 y0 x1 y1)
              (dda_fuel x0 y0 x1 y1) (dda_steps x0 y0 x1 y1) 0
              (Double.int x0) (Double.int y0)
              (Double.div (Double.int (x1 - x0)) (Double.int (dda_steps x0 y0 x1 y1)))
              (Double.div (Double.int (y1 - y0)) (Double.int (dda_steps x0 y0 x1 y1))))
    as (l & Hl & Hlen); [lia|pow_consts; lia|unfold dda_fuel; lia|lia|].
  exists l. split; [exact Hl|]. split; [unfold dda_fuel in Hlen; lia|].
  intros j p Hp. unfold double_major_step.
  unfold dda_steps in Hl. case_bool_decide as Hx.
  - rewrite div_int_abs in Hl by lia.
    eapply double_dda_loop_exact_x in Hl; [exact Hl|lia|lia|lia|lia|exact Hp].
  - destruct (decide (y1 - y0 = 0)) as [Hzero|Hne].
    + assert (Hlen0 : length l = 1%nat) by (unfold dda_fuel, dda_steps in Hlen;
        rewrite bool_decide_eq_false_2 in Hlen by done; lia).
      destruct l as [|p0 [|p1 l]]; simpl in Hlen0; try lia.
      destruct j as [|j]; [|done]. injection Hp as ->.
      destruct (dda_fuel x0 y0 x1 y1) as [|fuel] eqn:Hfuel;
        cbn [Double.dda_loop] in Hl; rewrite le_int in Hl;
        (case_bool_decide; [|discriminate]); [discriminate|].
      rewrite !Math_round_int_exact in Hl.
      destruct (Double.dda_loop fuel _ _ _ _ _ _); [|discriminate].
      injection Hl as <- _. simpl. f_equal. lia.
    + rewrite (div_int_abs (y1 - y0)) in Hl by lia.
      eapply double_dda_loop_exact_y in Hl; [exact Hl|lia|lia|lia|lia|exact Hp].
Qed.

(** On safe integers the binary64 [bresenhamLine] returns what the integer
    model returns, with every budget of at least [line_fuel] iterations. *)
Lemma double_bresenhamLine_safe (x0 y0 x1 y1 : Z) (l : list (PixelStep Z)) :
  safe x0 -> safe y0 -> safe x1 -> safe y1 ->
  bresenhamLine (line_fuel x0 y0 x1 y1) x0 y0 x1 y1 = Some l ->
  forall k : nat,
    Double.bresenhamLine (line_fuel x0 y0 x1 y1 + k)
      (Double.of_int x0) (Double.of_int y0)
      (Double.of_int x1) (Double.of_int y1)
    = Some (double_pixel <$> l).
Proof.
  intros Hx0 Hy0 Hx1 Hy1 Hl k. rewrite !of_int_safe by done.
  rewrite double_bresenhamLine by done.
  unfold bresenhamLine in *.
  by rewrite (bresenham_loop_more_fuel _ k _ _ _ _ _ _ _ _ _ _ _ Hl).
Qed.

Lemma double_midpointCircle_safe (cx cy r : Z) (l : list (PixelStep Z)) :
  safe cx -> safe cy -> safe r ->
  midpointCircle (circle_fuel r) cx cy r = Some l ->
  forall k : nat,
    Double.midpointCircle (circle_fuel r + k)
      (Double.of_int cx) (Double.of_int cy) (Double.of_int r)
    = Some (double_pixel <$> l).
Proof.
  intros Hcx Hcy Hr Hl k. rewrite !of_int_safe by done.
  rewrite double_midpointCircle by done.
  by rewrite (midpointCircle_more_fuel _ k _ _ _ _ Hl).
Qed.

Section double_rasterize_facts.
Context `{JSNumber}.

Lemma rasterize_double (a : Visualizer.Algorithm) (c : Visualizer.Coords)
    (pixels : list (PixelStep num)) :
  safe_coords c ->
  Page.rasterize a c = Some pixels ->
  double_rasterize_returns a c pixels.
Proof.
  intros (Hx0 & Hy0 & Hx1 & Hy1 & Hcx & Hcy & Hr).
  unfold Page.rasterize, double_rasterize_returns, double_rasterize.
  destruct a.
  - destruct (Visualizer.x0 c) as [x0| | |], (Visualizer.y0 c) as [y0| | |],
      (Visualizer.x1 c) as [x1| | |], (Visualizer.y1 c) as [y1| | |];
      try discriminate.
    simpl in Hx0, Hy0, Hx1, Hy1.
    unfold Visualizer.line_pixels, ddaLine. intros Hpixels.
    assert (Hsteps : 0 <= dda_steps x0 y0 x1 y1) by (rewrite dda_steps_max; lia).
    destruct (dda_loop_spec (dda_fuel x0 y0 x1 y1)
                (dda_steps x0 y0 x1 y1) 0 (of_int x0) (of_int y0)
                (num_div (of_int (x1 - x0)) (of_int (dda_steps x0 y0 x1 y1)))
                (num_div (of_int (y1 - y0)) (of_int (dda_steps x0 y0 x1 y1))))
      as (l & Hl & Hlen); [lia|unfold dda_fuel; lia|].
    rewrite Hl in Hpixels. injection Hpixels as <-.
    destruct (double_ddaLine_spec x0 y0 x1 y1 Hx0 Hy0 Hx1 Hy1)
      as (ld & Hld & Hlend & _).
    exists (dda_fuel x0 y0 x1 y1), ld. split; [exact Hld|].
    rewrite dda_steps_max in Hlen. lia.
  - destruct (Visualizer.x0 c) as [x0| | |], (Visualizer.y0 c) as [y0| | |],
      (Visualizer.x1 c) as [x1| | |], (Visualizer.y1 c) as [y1| | |];
      try discriminate.
    simpl in Hx0, Hy0, Hx1, Hy1.
    unfold Visualizer.line_pixels.
    destruct (bresenhamLine (line_fuel x0 y0 x1 y1) x0 y0 x1 y1) as [l|] eqn:Hl;
      [|discriminate].
    intros [= <-].
    exists (line_fuel x0 y0 x1 y1), (double_pixel <$> l). split.
    + by apply double_bresenhamLine_safe.
    + unfold Visualizer.pixels_of_int. by rewrite !length_fmap.
  - destruct (Visualizer.cx c) as [cx| | |], (Visualizer.cy c) as [cy| | |],
      (Visualizer.radius c) as [r| | |]; try discriminate.
    simpl in Hcx, Hcy, Hr.
    destruct (midpointCircle (circle_fuel r) cx cy r) as [l|] eqn:Hl;
      [|discriminate].
    intros [= <-].
    exists (circle_fuel r), (double_pixel <$> l). split.
    + by apply double_midpointCircle_safe.
    + unfold Visualizer.pixels_of_int. by rewrite !length_fmap.
Qed.

Lemma generate_rasterize (a : Visualizer.Algorithm) (c : Visualizer.Coords)
    (pixels : list (PixelStep num)) :
  Visualizer.generate a c = Visualizer.Pixels pixels ->
  Page.rasterize a c = Some pixels.
Proof.
  unfold Visualizer.generate, Page.rasterize, Visualizer.of_pixels.
  destruct a.
  - destruct (_ || _); [discriminate|].
    destruct (Visualizer.x0 c), (Visualizer.y0 c), (Visualizer.x1 c),
      (Visualizer.y1 c); try discriminate;
      destruct (Visualizer.line_pixels _ _ _ _ _); try discriminate;
      by intros [= <-].
  - destruct (_ || _); [discriminate|].
    destruct (Visualizer.x0 c), (Visualizer.y0 c), (Visualizer.x1 c),
      (Visualizer.y1 c); try discriminate;
      destruct (Visualizer.line_pixels _ _ _ _ _); try discriminate;
      by intros [= <-].
  - destruct (_ || _); [discriminate|].
    destruct (Visualizer.le_zero _); [discriminate|].
    destruct (Visualizer.cx c), (Visualizer.cy c), (Visualizer.radius c);
      try discriminate;
      destruct (_ <$> midpointCircle _ _ _ _); try discriminate;
      by intros [= <-].
Qed.

Lemma generate_double (a : Visualizer.Algorithm) (c : Visualizer.Coords)
    (pixels : list (PixelStep num)) :
  safe_coords c ->
  Visualizer.generate a c = Visualizer.Pixels pixels ->
  double_rasterize_returns a c pixels.
Proof. intros Hsafe Hgen. by apply rasterize_double, generate_rasterize. Qed.

End double_rasterize_facts.

Lemma default_coords_safe : safe_coords Visualizer.default_coords.
Proof. repeat split; vm_compute; discriminate. Qed.


(* ================================================================== *)
(** * Part III: the claims                                             *)
(* ================================================================== *)

(** ** The rasterizers *)

(** C1 (as amended).  For integers [x0 y0 x1 y1] of absolute value at most
    [2^50], [bresenhamLine] returns a pixel sequence (with any budget of at
    least [line_fuel] iterations, always the same one; computed in binary64
    on the numbers [parseInt] gives, and in the integer model alike); the
    sequence starts at [(x0, y0)], ends at [(x1, y1)], has at least one
    pixel, and two consecutive pixels differ by at most 1 in x and at most
    1 in y. *)
Theorem bresenhamLine_endpoints_connected (x0 y0 x1 y1 : Z) :
  safe x0 -> safe y0 -> safe x1 -> safe y1 ->
  exists l,
    (forall k : nat,
       Double.bresenhamLine (line_fuel x0 y0 x1 y1 + k)
         (Double.of_int x0) (Double.of_int y0)
         (Double.of_int x1) (Double.of_int y1)
       = Some (double_pixel <$> l)) /\
    (forall k : nat,
       bresenhamLine (line_fuel x0 y0 x1 y1 + k) x0 y0 x1 y1 = Some l) /\
    head (position <$> l) = Some (mkPoint x0 y0) /\
    last (position <$> l) = Some (mkPoint x1 y1) /\
    (1 <= length l)%nat /\
    eight_connected (position <$> l).
Proof.
  intros Hx0 Hy0 Hx1 Hy1.
  destruct (bresenhamLine_spec x0 y0 x1 y1 0)
    as (l & Hl & Hhd & Hlast & Hconn & _).
  rewrite Nat.add_0_r in Hl.
  assert (Hmore : forall k : nat,
            bresenhamLine (line_fuel x0 y0 x1 y1 + k) x0 y0 x1 y1 = Some l).
  { intros k. unfold bresenhamLine in *. by apply bresenham_loop_more_fuel. }
  exists l. split_and!; try done.
  - intros k. rewrite !of_int_safe by done.
    by rewrite double_bresenhamLine, Hmore.
  - destruct l; [discriminate|]. simpl. lia.
Qed.

Lemma bresenhamLine_endpoints_connected_witness :
  exists l,
    Double.bresenhamLine (line_fuel 0 0 3 1)
      (Double.of_int 0) (Double.of_int 0) (Double.of_int 3) (Double.of_int 1)
    = Some (double_pixel <$> l) /\
    position <$> l = [mkPoint 0 0; mkPoint 1 0; mkPoint 2 1; mkPoint 3 1] /\
    eight_connected (position <$> l).
Proof.
  destruct (bresenhamLine_endpoints_connected 0 0 3 1)
    as (l & Hdouble & Hint & _ & _ & _ & Hconn); [unfold safe; lia..|].
  exists l. split; [|split; [|exact Hconn]].
  - rewrite <- (Hdouble 0%nat). by rewrite Nat.add_0_r.
  - specialize (Hint 0%nat). vm_compute in Hint. by injection Hint as <-.
Defined.

(** The claim C1 as the specification states it fails on the code: the
    integers from [2^53] on are not all numbers.  From
    [(2^53 + 2, 0)] to [(2^53 + 4, 0)] the step [x += sx] gives
    [2^53 + 3], which rounds to [2^53 + 4]: the sequence returned has two
    pixels, 2 apart in x. *)
Lemma bresenhamLine_endpoints_connected_counterexample :
  Double.of_int (2 ^ 53 + 2) = Double.int (2 ^ 53 + 2) /\
  Double.of_int (2 ^ 53 + 4) = Double.int (2 ^ 53 + 4) /\
  forall k : nat,
    Double.bresenhamLine (2 + k)
      (Double.of_int (2 ^ 53 + 2)) (Double.of_int 0)
      (Double.of_int (2 ^ 53 + 4)) (Double.of_int 0)
    = Some [Double.mkPixel (Double.int (2 ^ 53 + 2)) (Double.int 0);
            Double.mkPixel (Double.int (2 ^ 53 + 4)) (Double.int 0)].
Proof.
  split; [vm_compute; reflexivity|]. split; [vm_compute; reflexivity|].
  intros k. unfold Double.bresenhamLine. cbn [Nat.add].
  erewrite double_bresenham_loop_step; [|vm_compute; reflexivity..].
  erewrite double_bresenham_loop_exit; [|vm_compute; reflexivity].
  vm_compute. reflexivity.
Qed.

(** C8 (as amended).  On integers of absolute value at most [2^50],
    [bresenhamLine] terminates: [|x1 - x0| + |y1 - y0| + 1] iterations are
    always enough, the sequence is no longer than that, and every budget
    that lets the loop finish gives the same sequence.  This covers
    horizontal ([y0 = y1]), vertical ([x0 = x1]) and diagonal lines; for
    [x0 = x1] and [y0 = y1] one iteration is enough and the output is the
    single pixel [(x0, y0)]. *)
Theorem bresenhamLine_terminates (x0 y0 x1 y1 : Z) :
  safe x0 -> safe y0 -> safe x1 -> safe y1 ->
  (exists l,
     (forall k : nat,
        Double.bresenhamLine (line_fuel x0 y0 x1 y1 + k)
          (Double.of_int x0) (Double.of_int y0)
          (Double.of_int x1) (Double.of_int y1)
        = Some (double_pixel <$> l)) /\
     (forall (fuel : nat) l',
        Double.bresenhamLine fuel
          (Double.of_int x0) (Double.of_int y0)
          (Double.of_int x1) (Double.of_int y1) = Some l' ->
        l' = double_pixel <$> l) /\
     (forall k : nat,
        bresenhamLine (line_fuel x0 y0 x1 y1 + k) x0 y0 x1 y1 = Some l) /\
     Z.of_nat (length l) <= Z.abs (x1 - x0) + Z.abs (y1 - y0) + 1) /\
  Double.bresenhamLine 1 (Double.of_int x0) (Double.of_int y0)
    (Double.of_int x0) (Double.of_int y0)
  = Some [Double.mkPixel (Double.int x0) (Double.int y0)] /\
  bresenhamLine 1 x0 y0 x0 y0
  = Some [mkPixelStep x0 y0 (bresenham_info 0 x0 y0 0)].
Proof.
  intros Hx0 Hy0 Hx1 Hy1.
  assert (Hpoint : bresenhamLine 1 x0 y0 x0 y0
                   = Some [mkPixelStep x0 y0 (bresenham_info 0 x0 y0 0)]).
  { unfold bresenhamLine. simpl.
    rewrite !bool_decide_eq_true_2 by done. simpl.
    by rewrite !Z.sub_diag. }
  split; [|split; [|exact Hpoint]].
  - destruct (bresenhamLine_spec x0 y0 x1 y1 0) as (l & Hl & _ & _ & _ & Hlen).
    rewrite Nat.add_0_r in Hl.
    assert (Hmore : forall k : nat,
              bresenhamLine (line_fuel x0 y0 x1 y1 + k) x0 y0 x1 y1 = Some l).
    { intros k. unfold bresenhamLine in *. by apply bresenham_loop_more_fuel. }
    exists l. rewrite !of_int_safe by done. split_and!; [| |done|done].
    + intros k. by rewrite double_bresenhamLine, Hmore.
    + intros fuel l'. rewrite double_bresenhamLine by done.
      destruct (bresenhamLine fuel x0 y0 x1 y1) as [l0|] eqn:Hl0; [|done].
      intros [= <-]. f_equal. unfold bresenhamLine in *.
      eapply bresenham_loop_deterministic; eassumption.
  - rewrite !of_int_safe by done.
    by rewrite double_bresenhamLine, Hpoint.
Qed.

Lemma bresenhamLine_terminates_witness :
  exists l,
    (forall (fuel : nat) l',
       Double.bresenhamLine fuel (Double.of_int 2) (Double.of_int 7)
         (Double.of_int 6) (Double.of_int 3) = Some l' ->
       l' = double_pixel <$> l) /\
    Double.bresenhamLine 5 (Double.of_int 2) (Double.of_int 7)
      (Double.of_int 6) (Double.of_int 3)
    = Some (double_pixel <$> l) /\
    Z.of_nat (length l) <= 9.
Proof.
  destruct (bresenhamLine_terminates 2 7 6 3)
    as [(l & Hdouble & Hsame & Hint & Hlen) _]; [unfold safe; lia..|].
  exists l. split; [exact Hsame|]. split; [|exact Hlen].
  specialize (Hint 0%nat). vm_compute in Hint. injection Hint as <-.
  vm_compute. reflexivity.
Defined.

(** The claim C8 as the specification states it fails on the code.  From
    [(2^53, 0)] to [(2^53 + 2, 0)] the step [x += sx] gives [2^53 + 1],
    which rounds back to [2^53]: [x] never changes, the exit test never
    holds, and the loop does not end. *)
Lemma bresenhamLine_terminates_counterexample :
  Double.of_int (2 ^ 53) = Double.int (2 ^ 53) /\
  Double.of_int (2 ^ 53 + 2) = Double.int (2 ^ 53 + 2) /\
  forall fuel : nat,
    Double.bresenhamLine fuel (Double.of_int (2 ^ 53)) (Double.of_int 0)
      (Double.of_int (2 ^ 53 + 2)) (Double.of_int 0) = None.
Proof.
  split; [vm_compute; reflexivity|]. split; [vm_compute; reflexivity|].
  intros fuel. unfold Double.bresenhamLine.
  apply double_bresenham_loop_stuck; vm_compute; reflexivity.
Qed.

(** C10.  The two Bresenham implementations agree.  For integer end
    points and every canvas size, the simulator's [bresenhamLinePixels]
    returns the pixels of the visualizer's [bresenhamLine] that lie on the
    canvas, in the same order, for every budget: one returns exactly when
    the other does.  This holds of the two functions computed in binary64
    on the numbers that hold the integers, and of the integer model.  On
    integers of absolute value at most [2^50] both return with
    [line_fuel].  When every pixel of the line is on the canvas the two
    position sequences are the same. *)
Theorem bresenhamLinePixels_agrees (x0 y0 x1 y1 canvasWidth canvasHeight : Z) :
  (forall (fuel : nat) (w h : Double.t),
     Double.bresenhamLinePixels fuel
       (Double.of_int x0) (Double.of_int y0)
       (Double.of_int x1) (Double.of_int y1) w h
     = double_on_canvas w h
         <$> Double.bresenhamLine fuel
               (Double.of_int x0) (Double.of_int y0)
               (Double.of_int x1) (Double.of_int y1)) /\
  (forall fuel : nat,
     bresenhamLinePixels fuel x0 y0 x1 y1 canvasWidth canvasHeight
     = visible_positions canvasWidth canvasHeight
         <$> bresenhamLine fuel x0 y0 x1 y1) /\
  (safe x0 -> safe y0 -> safe x1 -> safe y1 ->
   exists l,
     Double.bresenhamLine (line_fuel x0 y0 x1 y1)
       (Double.of_int x0) (Double.of_int y0)
       (Double.of_int x1) (Double.of_int y1)
     = Some (double_pixel <$> l) /\
     Double.bresenhamLinePixels (line_fuel x0 y0 x1 y1)
       (Double.of_int x0) (Double.of_int y0)
       (Double.of_int x1) (Double.of_int y1)
       (Double.int canvasWidth) (Double.int canvasHeight)
     = Some (double_point <$> visible_positions canvasWidth canvasHeight l)) /\
  (forall (fuel : nat) l,
     bresenhamLine fuel x0 y0 x1 y1 = Some l ->
     Forall (fun q : Point => point_in_canvas canvasWidth canvasHeight q = true)
       (position <$> l) ->
     bresenhamLinePixels fuel x0 y0 x1 y1 canvasWidth canvasHeight
     = Some (position <$> l)) /\
  (forall (fuel : nat) (w h : Double.t) l,
     Double.bresenhamLine fuel
       (Double.of_int x0) (Double.of_int y0)
       (Double.of_int x1) (Double.of_int y1) = Some l ->
     Forall (fun p => Double.in_canvas w h (Double.x p) (Double.y p) = true) l ->
     Double.bresenhamLinePixels fuel
       (Double.of_int x0) (Double.of_int y0)
       (Double.of_int x1) (Double.of_int y1) w h = Some l).
Proof.
  assert (Hall : forall fuel : nat,
    bresenhamLinePixels fuel x0 y0 x1 y1 canvasWidth canvasHeight
    = visible_positions canvasWidth canvasHeight
        <$> bresenhamLine fuel x0 y0 x1 y1).
  { intros fuel. unfold bresenhamLinePixels, bresenhamLine.
    apply bresenhamLinePixels_loop_filter. }
  split_and!; [|exact Hall| | |].
  - intros fuel w h. apply double_bresenhamLinePixels_on_canvas.
  - intros Hx0 Hy0 Hx1 Hy1.
    destruct (bresenhamLinePixels_returns x0 y0 x1 y1 canvasWidth canvasHeight 0)
      as (l & Hl & Hpx).
    rewrite Nat.add_0_r in Hl, Hpx. exists l.
    rewrite !of_int_safe by done.
    rewrite double_bresenhamLine, double_bresenhamLinePixels by done.
    by rewrite Hl, Hpx.
  - intros fuel l Hl Hin. rewrite Hall, Hl. simpl. f_equal.
    by apply visible_positions_all.
  - intros fuel w h l Hl Hin.
    rewrite double_bresenhamLinePixels_on_canvas, Hl. simpl. f_equal.
    unfold double_on_canvas. clear Hl.
    induction Hin as [|p l Hp Hin IH]; [done|].
    rewrite filter_cons_True by (by rewrite Hp). by rewrite IH.
Qed.


(** The scenarios of the specification, run on the model. *)

Example bresenhamLine_0_0_3_1 :
  fmap (M := list) position <$> bresenhamLine (line_fuel 0 0 3 1) 0 0 3 1
  = Some [mkPoint 0 0; mkPoint 1 0; mkPoint 2 1; mkPoint 3 1].
Proof. vm_compute. reflexivity. Qed.

Example midpointCircle_0_0_5_first_octants :
  (fun l => take 8 (position <$> l)) <$> midpointCircle (circle_fuel 5) 0 0 5
  = Some [mkPoint 0 5; mkPoint 5 0; mkPoint 0 5; mkPoint (-5) 0;
          mkPoint 0 (-5); mkPoint (-5) 0; mkPoint 0 (-5); mkPoint 5 0].
Proof. vm_compute. reflexivity. Qed.

(** Without its caller's check [midpointCircle] returns the eight images
    of [(0, r)] also for a radius that is not positive. *)
Example midpointCircle_radius_0 :
  fmap (M := list) position <$> midpointCircle (circle_fuel 0) 3 4 0
  = Some (replicate 8 (mkPoint 3 4)).
Proof. vm_compute. reflexivity. Qed.

(** On the idealised numbers, [ddaLine(0, 0, 3, 1)] rounds
    [0, 1/3, 2/3, 1] to [0, 0, 1, 1]. *)
Example ddaLine_0_0_3_1 :
  (fun l : list (PixelStep IdealNumber) =>
     (fun p : PixelStep IdealNumber => (pixel_x p, pixel_y p, pixel_info p))
       <$> l)
    <$> ddaLine (H := ideal_numbers) (dda_fuel 0 0 3 1) 0 0 3 1
  = Some [(Finite 0, Finite 0, "Step 0: x=0.00, y=0.00");
          (Finite 1, Finite 0, "Step 1: x=1.00, y=0.33");
          (Finite 2, Finite 1, "Step 2: x=2.00, y=0.67");
          (Finite 3, Finite 1, "Step 3: x=3.00, y=1.00")].
Proof. vm_compute. reflexivity. Qed.

(** ** The display simulator *)

(** C5.  On a surface of [w] by [h] cells (both positive), starting a frame
    with the cursor on [(0, 0)], the first [w * h] ticks each draw one
    framebuffer cell, in row-major order, and none of them wraps; they
    leave the cursor on scanline [h].  The tick after them clears the
    surface, resets the cursor to [(0, 0)], reports the end of the frame
    and schedules the next tick: the sweep goes on.  This holds for every
    segment list. *)
Theorem raster_sweep_visits_every_cell (env : Env) (sim0 : RasterSim) :
  isSimulating env = true ->
  raster_wf sim0 ->
  raster_cursor sim0 = (0%nat, 0%nat) ->
  (0 < width (rasterCanvas sim0))%nat ->
  (0 < height (rasterCanvas sim0))%nat ->
  sweeps_row_major env sim0 /\ wraps_after_sweep env sim0.
Proof.
  intros Hsim Hwf Hcursor Hw Hh. split.
  - intros k Hk.
    destruct (raster_sweep env sim0 k Hsim Hwf Hcursor Hw Hk)
      as (sim_k & Hticks & Hcanvas & Hdata).
    exists sim_k. split_and!; [done|by rewrite Hcanvas|].
    unfold raster_cursor. by rewrite Hdata.
  - destruct (raster_sweep env sim0 _ Hsim Hwf Hcursor Hw (Nat.le_refl _))
      as (sim_end & Hticks & Hcanvas & Hdata).
    rewrite Nat.div_mul, Nat.Div0.mod_mul in Hdata by lia.
    assert (Hwf_end : raster_wf sim_end).
    { unfold raster_wf. by rewrite Hcanvas, Hdata. }
    eexists sim_end, _. split_and!; [done| |apply animateRasterDisplay_wraps|..].
    + unfold raster_cursor. by rewrite Hdata.
    + done.
    + done.
    + by rewrite Hcanvas.
    + by rewrite Hcanvas, Hdata.
    + done.
    + done.
    + done.
    + done.
    + by rewrite Hdata.
    + by rewrite Hcanvas.
    + by rewrite Hcanvas.
    + unfold raster_wf in *. simpl. by rewrite Hcanvas, Hdata in *.
Qed.

Lemma raster_sweep_visits_every_cell_witness :
  isSimulating example_env = true /\
  raster_wf example_raster /\
  raster_cursor example_raster = (0%nat, 0%nat) /\
  (0 < width (rasterCanvas example_raster))%nat /\
  (0 < height (rasterCanvas example_raster))%nat /\
  sweeps_row_major example_env example_raster /\
  wraps_after_sweep example_env example_raster.
Proof.
  assert (H1 : isSimulating example_env = true) by reflexivity.
  assert (H2 : raster_wf example_raster)
    by (split; [reflexivity|repeat constructor]).
  assert (H3 : raster_cursor example_raster = (0%nat, 0%nat)) by reflexivity.
  assert (H4 : (0 < width (rasterCanvas example_raster))%nat)
    by (vm_compute; lia).
  assert (H5 : (0 < height (rasterCanvas example_raster))%nat)
    by (vm_compute; lia).
  split_and!; try assumption;
    apply (raster_sweep_visits_every_cell example_env example_raster H1 H2 H3 H4 H5).
Defined.

(** C6.  With a fixed list of [n] segments and the index inside the list,
    the index of the random-scan simulator advances by one per tick modulo
    [n]: it comes back after exactly [n] ticks and not earlier.  Each tick
    highlights the segment at the index and schedules the next tick, and it
    reports the end of the refresh exactly when the index wraps to 0.  The
    segments highlighted over [n] ticks are the list read once round. *)
Theorem random_scan_cycles (env : Env) (sim : RandomSim) :
  isSimulating env = true ->
  (currentLineIndex (randomDisplayData sim) < length (drawnLines env))%nat ->
  index_cycles env sim /\ tick_highlights env sim /\ highlights_each_once env sim.
Proof.
  intros Hsim Hi.
  set (i := currentLineIndex (randomDisplayData sim)) in *.
  set (n := length (drawnLines env)) in *.
  split_and!.
  - unfold index_cycles. fold i n. split_and!.
    + intros k. by apply random_ticks_index.
    + rewrite random_ticks_index by done. fold i n.
      symmetry. apply (Nat.mod_unique _ _ 1); lia.
    + intros k Hk. rewrite random_ticks_index by done. fold i n.
      destruct (decide (i + k < n)%nat).
      * rewrite Nat.mod_small by lia. lia.
      * rewrite <- (Nat.mod_unique (i + k) n 1 (i + k - n)); lia.
  - intros k before after.
    pose proof (random_ticks_in_range env k sim Hsim Hi) as Hin. fold before in Hin.
    destruct (lookup_lt_is_Some_2 _ _ Hin) as [line Hline].
    destruct (animateRandomDisplay_traces env before line Hsim Hline)
      as (Hhl & _ & Hinfo & Hsched).
    fold after in Hhl, Hinfo, Hsched. rewrite Hline.
    split_and!; [done|done|].
    rewrite Hinfo. case_bool_decide as Hwrap; [done|].
    split; [|done]. intros Hbad. by apply tracing_info_not_done in Hbad.
  - split; [by apply random_run_cycle|].
    rewrite Permutation_app_comm. by rewrite take_drop.
Qed.

Lemma random_scan_cycles_witness :
  isSimulating example_env = true /\
  (currentLineIndex (randomDisplayData example_random)
   < length (drawnLines example_env))%nat /\
  index_cycles example_env example_random /\
  tick_highlights example_env example_random /\
  highlights_each_once example_env example_random.
Proof.
  assert (H1 : isSimulating example_env = true) by reflexivity.
  assert (H2 : (currentLineIndex (randomDisplayData example_random)
                < length (drawnLines example_env))%nat) by (simpl; lia).
  split_and!; try assumption;
    apply (random_scan_cycles example_env example_random H1 H2).
Defined.




(** ** The visualizer *)

Section visualizer_theorems.
Context `{JSNumber}.
Import Visualizer.

(** C3 (as amended).  When a parameter of the selected algorithm is NaN,
    or the circle is selected and the radius is at most 0, the [try] block
    of the Start handler throws before any rasterizer is called, and the
    handler returns with the message shown, no pixel data, no animation
    and no callback run; the canvas is cleared (the handler clears it
    before it checks), and nothing is drawn on it.  The checks of the HTML
    page raise an alert on the same parameters.  An infinite parameter is
    not among the rejected ones. *)
Theorem invalid_parameter_reported (st : AppState) :
  rejected (currentAlgorithm (react st)) (coords (react st)) = true ->
  (exists msg st',
     generate (currentAlgorithm (react st)) (coords (react st)) = Threw msg /\
     handleStartVisualization st = Completed st' /\
     message (react st') = msg /\
     showMessage (react st') = true /\
     pixelData (react st') = [] /\
     isAnimating (react st') = false /\
     painted (graphicsCanvas st') = [] /\
     invocations st' = invocations st) /\
  is_Some (startBtn_checks (currentAlgorithm (react st)) (coords (react st))).
Proof.
  intros Hrej. split; [|by apply startBtn_checks_rejected].
  destruct (generate_rejected _ _ Hrej) as [msg Hgen].
  destruct (handleStartVisualization_threw st msg Hgen) as (st' & Hst').
  by exists msg, st'.
Qed.

(** C4 (as amended).  For a centre and a radius that are integers of
    absolute value at most [2^50]: when [r > 0],
    [midpointCircle(xc, yc, r)] returns a point sequence that contains,
    with each of its points, the eight images of the point under the
    reflections about the centre, and every point of which lies at a
    distance between [r - 1] and [r + 1] from the centre.
    [midpointCircle] has no check of its own: for [r <= 0] it returns the
    eight images of [(0, r)].  It is the caller that refuses such a
    radius before it calls [midpointCircle]: the Start handler shows
    ["Radius must be a positive number."] and produces no pixel, and the
    checks of the page raise an alert. *)
Theorem midpointCircle_symmetric_within_tolerance (xc yc r : Z) :
  safe xc -> safe yc -> safe r ->
  (0 < r ->
   exists l,
     (forall k : nat,
        Double.midpointCircle (circle_fuel r + k)
          (Double.of_int xc) (Double.of_int yc) (Double.of_int r)
        = Some (double_pixel <$> l)) /\
     (forall k : nat, midpointCircle (circle_fuel r + k) xc yc r = Some l) /\
     eight_way_symmetric xc yc (position <$> l) /\
     Forall (within_tolerance xc yc r) (position <$> l)) /\
  (r <= 0 ->
   (forall fuel : nat,
      Double.midpointCircle fuel
        (Double.of_int xc) (Double.of_int yc) (Double.of_int r)
      = Some (Double.drawCirclePoints (Double.int xc) (Double.int yc)
                (Double.int 0) (Double.int r))) /\
   forall st : AppState,
     currentAlgorithm (react st) = MidpointCircle ->
     cx (coords (react st)) = Int xc ->
     cy (coords (react st)) = Int yc ->
     radius (coords (react st)) = Int r ->
     (exists st',
        handleStartVisualization st = Completed st' /\
        message (react st') = "Radius must be a positive number." /\
        showMessage (react st') = true /\
        pixelData (react st') = [] /\
        isAnimating (react st') = false) /\
     is_Some (startBtn_checks MidpointCircle (coords (react st)))).
Proof.
  intros Hxc Hyc Hr. split.
  - intros Hpos.
    destruct (midpointCircle_spec xc yc r 0 ltac:(lia)) as (l & Hl & Htol & Hsym).
    rewrite Nat.add_0_r in Hl.
    assert (Hmore : forall k : nat,
              midpointCircle (circle_fuel r + k) xc yc r = Some l).
    { intros k. by apply midpointCircle_more_fuel. }
    exists l. split_and!; [|done|done|done].
    intros k. rewrite !of_int_safe by done.
    by rewrite double_midpointCircle, Hmore.
  - intros Hneg. split.
    + intros fuel. rewrite !of_int_safe by done.
      unfold Double.midpointCircle.
      assert (Double.circle_loop fuel (Double.int xc) (Double.int yc)
                (Double.int 0) (Double.int r)
                (Double.sub (Double.int 1) (Double.int r)) = Some []) as ->.
      { destruct fuel; cbn [Double.circle_loop]; rewrite lt_int;
          by rewrite bool_decide_eq_false_2 by lia. }
      cbn [fmap option_fmap option_map]. by rewrite app_nil_r.
    + intros st Halg Hcx Hcy Hradius. split.
      * destruct (handleStartVisualization_threw st
                    "Radius must be a positive number.")
          as (st' & Hstart & Hmsg & Hshow & Hdata & Hanim & _).
        { rewrite Halg. unfold generate. rewrite Hcx, Hcy, Hradius. simpl.
          by rewrite bool_decide_eq_true_2. }
        by exists st'.
      * rewrite <- Halg. apply startBtn_checks_rejected.
        rewrite Halg. unfold rejected. rewrite Hcx, Hcy, Hradius. simpl.
        by rewrite bool_decide_eq_true_2.
Qed.

(** C7 (as amended).  In any state the component can reach, once
    [clearGraphicsCanvas]
    has run (Clear, Reset, a restart, a change of algorithm and a resize
    all call it), no callback of the cancelled run is invoked afterwards:
    whatever events follow up to the next click on Start, among them the
    firing of a timeout or of a frame that was pending when the
    cancellation came, [animateGraphicsVisualization] does not run, nothing
    is pending, nothing is drawn and no completion is reported.  A click on
    Start itself leaves no callback of the earlier run pending either: what
    runs after it was requested after it. *)
Theorem cancellation_stops_playback (st : AppState) (resetAll : bool)
    (events : list Event) :
  reachable st ->
  forallb (fun e => negb (is_start e)) events = true ->
  (exists st',
     run events (clearGraphicsCanvas resetAll st) = Some st' /\
     invocations st' = invocations st /\
     cancelled st') /\
  (forall restarted,
     handleStartVisualization st = Completed restarted ->
     frames restarted = [] /\ timeouts restarted = [] /\
     invocations restarted = invocations st).
Proof.
  intros Hreach Hevents.
  pose proof (reachable_pending_tracked st Hreach) as Htracked.
  split.
  - destruct (run_cancelled events (clearGraphicsCanvas resetAll st) Hevents)
      as (st' & Hrun & Hc & Hinv).
    { by apply clearGraphicsCanvas_cancelled. }
    exists st'. split_and!; [done| |done].
    by rewrite Hinv, clearGraphicsCanvas_invocations.
  - intros restarted Hstart.
    by apply handleStartVisualization_queues.
Qed.

End visualizer_theorems.

Lemma invalid_parameter_reported_witness :
  Visualizer.rejected
    (Visualizer.currentAlgorithm (Visualizer.react Visualizer.example_nan))
    (Visualizer.coords (Visualizer.react Visualizer.example_nan)) = true /\
  exists st',
    Visualizer.handleStartVisualization Visualizer.example_nan
      = Visualizer.Completed st' /\
    Visualizer.message (Visualizer.react st')
      = "Please enter valid numeric coordinates for lines." /\
    Visualizer.pixelData (Visualizer.react st') = [] /\
    painted (Visualizer.graphicsCanvas st') = [].
Proof.
  assert (Hrej :
    Visualizer.rejected
      (Visualizer.currentAlgorithm (Visualizer.react Visualizer.example_nan))
      (Visualizer.coords (Visualizer.react Visualizer.example_nan)) = true)
    by reflexivity.
  split; [exact Hrej|].
  destruct (invalid_parameter_reported Visualizer.example_nan Hrej)
    as [(msg & st' & Hgen & Hstart & Hmsg & _ & Hdata & _ & Hpainted & _) _].
  exists st'. split_and!; try done.
  rewrite Hmsg. vm_compute in Hgen. by injection Hgen as <-.
Defined.

(** The claim C3 as the specification states it fails on the code.  With
    radius 0 and the circle selected the error is reported, but the handler
    has cleared the canvas before, so the drawing of the earlier run is
    gone.  With [x0 = Infinity] no check fires and [bresenhamLine] is
    called: no error is reported. *)
Lemma invalid_parameter_counterexample :
  (Visualizer.invalid
     (Visualizer.currentAlgorithm (Visualizer.react Visualizer.example_after_drawing))
     (Visualizer.coords (Visualizer.react Visualizer.example_after_drawing)) = true /\
   ~ Visualizer.reports_error_untouched Visualizer.example_after_drawing) /\
  (Visualizer.invalid
     (Visualizer.currentAlgorithm (Visualizer.react Visualizer.example_infinite))
     (Visualizer.coords (Visualizer.react Visualizer.example_infinite)) = true /\
   ~ Visualizer.reports_error_untouched Visualizer.example_infinite).
Proof.
  split; (split; [reflexivity|]).
  - intros (st' & Hstart & _ & _ & Hcanvas). vm_compute in Hstart.
    injection Hstart as <-. vm_compute in Hcanvas. discriminate.
  - intros (st' & Hstart & _). vm_compute in Hstart. discriminate.
Qed.

Lemma midpointCircle_symmetric_within_tolerance_witness :
  (exists l,
     Double.midpointCircle (circle_fuel 5)
       (Double.of_int 0) (Double.of_int 0) (Double.of_int 5)
     = Some (double_pixel <$> l) /\
     eight_way_symmetric 0 0 (position <$> l) /\
     Forall (within_tolerance 0 0 5) (position <$> l)) /\
  (exists st',
     Visualizer.handleStartVisualization Visualizer.example_zero_radius
       = Visualizer.Completed st' /\
     Visualizer.message (Visualizer.react st')
       = "Radius must be a positive number." /\
     Visualizer.pixelData (Visualizer.react st') = []).
Proof.
  split.
  - destruct (proj1 (midpointCircle_symmetric_within_tolerance
                       (H := Visualizer.example_numbers) 0 0 5
                       ltac:(unfold safe; lia) ltac:(unfold safe; lia)
                       ltac:(unfold safe; lia)) ltac:(lia))
      as (l & Hdouble & _ & Hsym & Htol).
    exists l. split; [|by split].
    rewrite <- (Hdouble 0%nat). by rewrite Nat.add_0_r.
  - destruct (proj2 (proj2 (midpointCircle_symmetric_within_tolerance
                       (H := Visualizer.example_numbers) 0 0 0
                       ltac:(unfold safe; lia) ltac:(unfold safe; lia)
                       ltac:(unfold safe; lia)) ltac:(lia))
                Visualizer.example_zero_radius eq_refl eq_refl eq_refl eq_refl)
      as [(st' & Hstart & Hmsg & _ & Hdata & _) _].
    by exists st'.
Defined.

(** The claim C4 as the specification states it fails on the code.
    [midpointCircle] itself does not fail for [r <= 0]: with radius 0 it
    returns eight points.  And beyond [2^53] the sums [cx + px] round: with
    centre [(2^53, 0)] and radius 1 the point [(2^53 - 1, 0)] is returned
    but no point right of the centre, where its mirror image
    [(2^53 + 1, 0)] would be. *)
Lemma midpointCircle_symmetric_within_tolerance_counterexample :
  Double.midpointCircle 0 (Double.of_int 3) (Double.of_int 4) (Double.of_int 0)
    = Some (replicate 8 (Double.mkPixel (Double.int 3) (Double.int 4))) /\
  exists l,
    Double.midpointCircle 1 (Double.of_int (2 ^ 53)) (Double.of_int 0)
      (Double.of_int 1) = Some l /\
    Double.mkPixel (Double.int (2 ^ 53 - 1)) (Double.int 0) ∈ l /\
    Forall (fun p => Double.le (Double.x p) (Double.int (2 ^ 53)) = true) l.
Proof.
  split; [vm_compute; reflexivity|].
  eexists. split; [vm_compute; reflexivity|]. split.
  - do 3 apply list_elem_of_further. apply list_elem_of_here.
  - repeat constructor.
Qed.

(** The same pending timeout, when nothing cancels it, leads to the next
    run of [animateGraphicsVisualization]. *)
Example playback_goes_on_without_cancellation :
  Visualizer.invocations Visualizer.example_playing = 1%nat /\
  Visualizer.invocations
    <$> Visualizer.run [Visualizer.TimeoutFires 2; Visualizer.FrameFires 3]
          Visualizer.example_playing
  = Some 2%nat.
Proof. split; vm_compute; reflexivity. Qed.

Lemma cancellation_stops_playback_witness :
  Visualizer.reachable Visualizer.example_playing /\
  forallb (fun e => negb (Visualizer.is_start e)) Visualizer.example_aftermath
    = true /\
  Visualizer.timeouts Visualizer.example_playing <> [] /\
  exists st',
    Visualizer.run Visualizer.example_aftermath
      (Visualizer.clearGraphicsCanvas false Visualizer.example_playing)
      = Some st' /\
    Visualizer.invocations st'
      = Visualizer.invocations Visualizer.example_playing /\
    Visualizer.cancelled st'.
Proof.
  assert (Hreach : Visualizer.reachable Visualizer.example_playing).
  { exists 500%nat, 500%nat, Visualizer.example_events.
    vm_compute. reflexivity. }
  assert (Hevents :
    forallb (fun e => negb (Visualizer.is_start e)) Visualizer.example_aftermath
      = true) by reflexivity.
  split_and!; [exact Hreach|exact Hevents|vm_compute; discriminate|].
  exact (proj1 (cancellation_stops_playback Visualizer.example_playing false
                  Visualizer.example_aftermath Hreach Hevents)).
Defined.

(** The claim C7 as the specification states it fails on the code: a
    change of an input is no cancellation.  After a coordinate field has
    been edited in the middle of a playback, the timeout that was pending
    fires, the frame it requests runs [animateGraphicsVisualization], and
    the next pixel is drawn.  After the speed slider has been moved, the
    effect runs again and requests a frame, which does the same. *)
Lemma cancellation_stops_playback_counterexample :
  Visualizer.invocations Visualizer.example_playing = 1%nat /\
  Visualizer.invocations
    <$> Visualizer.run
          [Visualizer.ChangeCoord Visualizer.Fx0 (Visualizer.Int 60);
           Visualizer.TimeoutFires 2; Visualizer.FrameFires 3]
          Visualizer.example_playing
  = Some 2%nat /\
  (fun st => length (painted (Visualizer.graphicsCanvas st)))
    <$> Visualizer.run
          [Visualizer.ChangeCoord Visualizer.Fx0 (Visualizer.Int 60);
           Visualizer.TimeoutFires 2; Visualizer.FrameFires 3]
          Visualizer.example_playing
  = Some (1 + length (painted (Visualizer.graphicsCanvas
                                 Visualizer.example_playing)))%nat /\
  Visualizer.invocations
    <$> Visualizer.run
          [Visualizer.ChangeSpeed 10; Visualizer.EffectRuns;
           Visualizer.FrameFires 3]
          Visualizer.example_playing
  = Some 2%nat.
Proof. split_and!; vm_compute; reflexivity. Qed.


(* ================================================================== *)
(** * Part IV: further properties                                      *)
(* ================================================================== *)

(** ** The shape of a Bresenham line *)


(** Every pixel of [bresenhamLine], by its number in the sequence. *)
Lemma bresenhamLine_pixels (x0 y0 x1 y1 : Z) :
  let dx := Z.abs (x1 - x0) in
  let dy := Z.abs (y1 - y0) in
  let sx := if bool_decide (x0 < x1) then 1 else -1 in
  let sy := if bool_decide (y0 < y1) then 1 else -1 in
  exists l,
    bresenhamLine (line_fuel x0 y0 x1 y1) x0 y0 x1 y1 = Some l /\
    Z.of_nat (length l) = Z.max dx dy + 1 /\
    forall (k : nat) p, l !! k = Some p ->
      line_pixel x0 y0 dx dy sx sy (Z.of_nat k) p.
Proof.
  intros dx dy sx sy.
  destruct (bresenham_setup x0 y0 x1 y1)
    as (Hdx & Hdy & Hsx & Hsy & Hx1 & Hy1 & Hinv).
  fold dx dy sx sy in Hdx, Hdy, Hsx, Hsy, Hx1, Hy1, Hinv.
  destruct (bresenham_loop_tight x0 y0 x1 y1 dx dy sx sy Hdx Hdy Hsx Hsy Hx1 Hy1
              (line_fuel x0 y0 x1 y1) 0 0 x0 y0 (dx - dy) 0 Hinv)
    as (l & Hl & Hlen & Hpix).
  { unfold line_inv_tight. split; [lia|]. by case_bool_decide. }
  { unfold line_fuel. fold dx dy. lia. }
  exists l. split_and!; [exact Hl|lia|].
  intros k p Hp. by apply Hpix in Hp.
Qed.

Lemma line_pixel_near_line (x0 y0 x1 y1 k : Z) (p : PixelStep Z) :
  line_pixel x0 y0 (Z.abs (x1 - x0)) (Z.abs (y1 - y0))
    (if bool_decide (x0 < x1) then 1 else -1)
    (if bool_decide (y0 < y1) then 1 else -1) k p ->
  near_line x0 y0 x1 y1 (position p) /\
  in_box x0 y0 x1 y1 (position p) /\
  on_major_step x0 y0 x1 y1 k (position p).
Proof.
  intros (a & b & Ha & Hb & Hx & Hy & Hnear & Hk).
  unfold near_line, in_box, on_major_step, cross, position; simpl.
  rewrite Hx, Hy. clear Hx Hy.
  repeat case_bool_decide; split_and!; try lia; try nia.
Qed.

Lemma small_multiple_zero (u v : Z) :
  2 * Z.abs (u * v) <= Z.abs u -> u * v = 0.
Proof.
  rewrite Z.abs_mul. intros Hsmall.
  destruct (decide (u = 0)) as [->|Hu]; [done|].
  destruct (decide (v = 0)) as [->|Hv]; [lia|]. nia.
Qed.

(** X1.  For end points that are integers of absolute value at most
    [2^50], [bresenhamLine] returns exactly
    [max(|x1 - x0|, |y1 - y0|) + 1] pixels, and pixel number [k] is [k]
    pixels away from the start along the longer axis: the line advances
    one pixel per step on that axis. *)
Theorem bresenhamLine_length (x0 y0 x1 y1 : Z) :
  safe x0 -> safe y0 -> safe x1 -> safe y1 ->
  exists l,
    (forall k : nat,
       Double.bresenhamLine (line_fuel x0 y0 x1 y1 + k)
         (Double.of_int x0) (Double.of_int y0)
         (Double.of_int x1) (Double.of_int y1)
       = Some (double_pixel <$> l)) /\
    bresenhamLine (line_fuel x0 y0 x1 y1) x0 y0 x1 y1 = Some l /\
    Z.of_nat (length l) = Z.max (Z.abs (x1 - x0)) (Z.abs (y1 - y0)) + 1 /\
    forall (k : nat) q,
      (position <$> l) !! k = Some q ->
      on_major_step x0 y0 x1 y1 (Z.of_nat k) q.
Proof.
  intros Hx0 Hy0 Hx1 Hy1.
  destruct (bresenhamLine_pixels x0 y0 x1 y1) as (l & Hl & Hlen & Hpix).
  exists l. split_and!; [by apply double_bresenhamLine_safe|done|done|].
  intros k q Hq. rewrite list_lookup_fmap in Hq.
  destruct (l !! k) as [p|] eqn:Hp; [|done]. injection Hq as <-.
  by apply line_pixel_near_line, Hpix.
Qed.

Lemma bresenhamLine_length_witness :
  exists l,
    Double.bresenhamLine (line_fuel 0 0 3 1)
      (Double.of_int 0) (Double.of_int 0) (Double.of_int 3) (Double.of_int 1)
    = Some (double_pixel <$> l) /\
    Z.of_nat (length l) = 4.
Proof.
  destruct (bresenhamLine_length 0 0 3 1) as (l & Hdouble & _ & Hlen & _);
    [unfold safe; lia..|].
  exists l. split; [|exact Hlen].
  rewrite <- (Hdouble 0%nat). by rewrite Nat.add_0_r.
Defined.

(** X2.  For end points that are integers of absolute value at most
    [2^50], every pixel of [bresenhamLine] lies in the rectangle spanned by
    the end points and within half a pixel of the ideal line. *)
Theorem bresenhamLine_near_segment (x0 y0 x1 y1 : Z) :
  safe x0 -> safe y0 -> safe x1 -> safe y1 ->
  exists l,
    (forall k : nat,
       Double.bresenhamLine (line_fuel x0 y0 x1 y1 + k)
         (Double.of_int x0) (Double.of_int y0)
         (Double.of_int x1) (Double.of_int y1)
       = Some (double_pixel <$> l)) /\
    bresenhamLine (line_fuel x0 y0 x1 y1) x0 y0 x1 y1 = Some l /\
    Forall (fun q => in_box x0 y0 x1 y1 q /\ near_line x0 y0 x1 y1 q)
      (position <$> l).
Proof.
  intros Hx0 Hy0 Hx1 Hy1.
  destruct (bresenhamLine_pixels x0 y0 x1 y1) as (l & Hl & Hlen & Hpix).
  exists l. split_and!; [by apply double_bresenhamLine_safe|done|].
  apply Forall_fmap, Forall_lookup. intros k p Hp.
  destruct (line_pixel_near_line _ _ _ _ _ _ (Hpix k p Hp)) as (? & ? & _).
  by split.
Qed.

Lemma bresenhamLine_near_segment_witness :
  exists l,
    Double.bresenhamLine (line_fuel 0 0 5 2)
      (Double.of_int 0) (Double.of_int 0) (Double.of_int 5) (Double.of_int 2)
    = Some (double_pixel <$> l) /\
    Forall (fun q => in_box 0 0 5 2 q /\ near_line 0 0 5 2 q) (position <$> l).
Proof.
  destruct (bresenhamLine_near_segment 0 0 5 2) as (l & Hdouble & _ & Hnear);
    [unfold safe; lia..|].
  exists l. split; [|exact Hnear].
  rewrite <- (Hdouble 0%nat). by rewrite Nat.add_0_r.
Defined.

(** X3.  For end points that are integers of absolute value at most
    [2^50], [bresenhamLine] pushes no position twice. *)
Theorem bresenhamLine_no_duplicates (x0 y0 x1 y1 : Z) :
  safe x0 -> safe y0 -> safe x1 -> safe y1 ->
  exists l,
    (forall k : nat,
       Double.bresenhamLine (line_fuel x0 y0 x1 y1 + k)
         (Double.of_int x0) (Double.of_int y0)
         (Double.of_int x1) (Double.of_int y1)
       = Some (double_pixel <$> l)) /\
    bresenhamLine (line_fuel x0 y0 x1 y1) x0 y0 x1 y1 = Some l /\
    NoDup (position <$> l) /\
    NoDup (double_pixel <$> l).
Proof.
  intros Hx0 Hy0 Hx1 Hy1.
  destruct (bresenhamLine_pixels x0 y0 x1 y1) as (l & Hl & Hlen & Hpix).
  assert (Hnodup : NoDup (position <$> l)).
  { apply NoDup_alt. intros i j q Hi Hj.
    rewrite list_lookup_fmap in Hi, Hj.
    destruct (l !! i) as [p|] eqn:Hp; [|done].
    destruct (l !! j) as [p'|] eqn:Hp'; [|done].
    assert (Hsame : position p' = position p) by (simpl in Hi, Hj; congruence).
    destruct (line_pixel_near_line _ _ _ _ _ _ (Hpix i p Hp)) as (_ & _ & Hmi).
    destruct (line_pixel_near_line _ _ _ _ _ _ (Hpix j p' Hp')) as (_ & _ & Hmj).
    rewrite Hsame in Hmj.
    assert (Hlen' : Z.of_nat i <= Z.max (Z.abs (x1 - x0)) (Z.abs (y1 - y0))).
    { apply lookup_lt_Some in Hp. lia. }
    assert (Hlen'' : Z.of_nat j <= Z.max (Z.abs (x1 - x0)) (Z.abs (y1 - y0))).
    { apply lookup_lt_Some in Hp'. lia. }
    unfold on_major_step in Hmi, Hmj.
    case_bool_decide; lia. }
  exists l. split_and!; [by apply double_bresenhamLine_safe|done|done|].
  apply NoDup_alt. intros i j q Hi Hj.
  rewrite list_lookup_fmap in Hi, Hj.
  destruct (l !! i) as [p|] eqn:Hp; [|done].
  destruct (l !! j) as [p'|] eqn:Hp'; [|done].
  simpl in Hi, Hj. rewrite <- Hj in Hi.
  apply (NoDup_alt (position <$> l)) with (x := position p); [done|..].
  - by rewrite list_lookup_fmap, Hp.
  - rewrite list_lookup_fmap, Hp'. simpl. f_equal.
    unfold double_pixel, Double.int in Hi. injection Hi as Hx Hy.
    unfold position. f_equal; congruence.
Qed.

Lemma bresenhamLine_no_duplicates_witness :
  exists l,
    Double.bresenhamLine (line_fuel 2 7 6 3)
      (Double.of_int 2) (Double.of_int 7) (Double.of_int 6) (Double.of_int 3)
    = Some (double_pixel <$> l) /\
    NoDup (double_pixel <$> l).
Proof.
  destruct (bresenhamLine_no_duplicates 2 7 6 3) as (l & Hdouble & _ & _ & Hnd);
    [unfold safe; lia..|].
  exists l. split; [|exact Hnd].
  rewrite <- (Hdouble 0%nat). by rewrite Nat.add_0_r.
Defined.

(** X4.  A horizontal, a vertical and a diagonal line between integers of
    absolute value at most [2^50] are drawn exactly: every pixel of
    [bresenhamLine] lies on the ideal line. *)
Theorem bresenhamLine_exact (x0 y0 x1 y1 : Z) :
  safe x0 -> safe y0 -> safe x1 -> safe y1 ->
  y0 = y1 \/ x0 = x1 \/ Z.abs (x1 - x0) = Z.abs (y1 - y0) ->
  exists l,
    (forall k : nat,
       Double.bresenhamLine (line_fuel x0 y0 x1 y1 + k)
         (Double.of_int x0) (Double.of_int y0)
         (Double.of_int x1) (Double.of_int y1)
       = Some (double_pixel <$> l)) /\
    bresenhamLine (line_fuel x0 y0 x1 y1) x0 y0 x1 y1 = Some l /\
    Forall (fun q => cross x0 y0 x1 y1 q = 0) (position <$> l).
Proof.
  intros Hx0 Hy0 Hx1 Hy1 Hcase.
  destruct (bresenhamLine_pixels x0 y0 x1 y1) as (l & Hl & Hlen & Hpix).
  exists l. split_and!; [by apply double_bresenhamLine_safe|done|].
  apply Forall_fmap, Forall_lookup. intros k p Hp.
  destruct (line_pixel_near_line _ _ _ _ _ _ (Hpix k p Hp)) as (Hnear & Hbox & _).
  clear Hbox. unfold compose. cbv beta. unfold near_line, cross in Hnear |- *.
  set (w := point_y (position p) - y0) in Hnear |- *.
  set (z := point_x (position p) - x0) in Hnear |- *.
  destruct Hcase as [Hy|[Hx|Hdiag]].
  - subst y1. rewrite Z.sub_diag in Hnear |- *.
    rewrite Z.mul_0_l, Z.sub_0_r in Hnear |- *.
    apply small_multiple_zero. lia.
  - subst x1. rewrite Z.sub_diag in Hnear |- *.
    rewrite Z.mul_0_l, Z.sub_0_l in Hnear |- *.
    rewrite Z.abs_opp in Hnear.
    apply Z.opp_inj. rewrite Z.opp_0, Z.opp_involutive.
    apply small_multiple_zero. lia.
  - destruct (decide (x1 - x0 = y1 - y0)) as [Heq|Hne].
    + rewrite Heq in Hnear |- *. rewrite <- Z.mul_sub_distr_l in Hnear |- *.
      apply small_multiple_zero. lia.
    + assert (Hopp : y1 - y0 = - (x1 - x0)) by lia.
      rewrite Hopp in Hnear |- *.
      replace ((x1 - x0) * w - - (x1 - x0) * z) with ((x1 - x0) * (w + z))
        in Hnear |- * by lia.
      apply small_multiple_zero. lia.
Qed.

Lemma bresenhamLine_exact_witness :
  exists l,
    Double.bresenhamLine (line_fuel 2 7 6 3)
      (Double.of_int 2) (Double.of_int 7) (Double.of_int 6) (Double.of_int 3)
    = Some (double_pixel <$> l) /\
    Forall (fun q => cross 2 7 6 3 q = 0) (position <$> l).
Proof.
  destruct (bresenhamLine_exact 2 7 6 3) as (l & Hdouble & _ & Hexact);
    [unfold safe; lia..|right; right; reflexivity|].
  exists l. split; [|exact Hexact].
  rewrite <- (Hdouble 0%nat). by rewrite Nat.add_0_r.
Defined.

(** X5.  On a canvas of at most [2^50] by [2^50] pixels, when both end
    points are integers and lie on the canvas, [bresenhamLinePixels] clips
    nothing. *)
Theorem bresenhamLinePixels_unclipped (x0 y0 x1 y1 canvasWidth canvasHeight : Z) :
  canvasWidth <= 2 ^ 50 -> canvasHeight <= 2 ^ 50 ->
  in_canvas canvasWidth canvasHeight x0 y0 = true ->
  in_canvas canvasWidth canvasHeight x1 y1 = true ->
  exists pixels,
    (forall k : nat,
       Double.bresenhamLinePixels (line_fuel x0 y0 x1 y1 + k)
         (Double.int x0) (Double.int y0) (Double.int x1) (Double.int y1)
         (Double.int canvasWidth) (Double.int canvasHeight)
       = Some (double_point <$> pixels)) /\
    bresenhamLinePixels (line_fuel x0 y0 x1 y1) x0 y0 x1 y1
      canvasWidth canvasHeight = Some pixels /\
    Z.of_nat (length pixels) = Z.max (Z.abs (x1 - x0)) (Z.abs (y1 - y0)) + 1 /\
    head pixels = Some (mkPoint x0 y0) /\
    last pixels = Some (mkPoint x1 y1) /\
    fmap (M := list) position <$> bresenhamLine (line_fuel x0 y0 x1 y1) x0 y0 x1 y1
      = Some pixels.
Proof.
  intros Hw Hh Hstart Hend.
  destruct (bresenhamLine_pixels x0 y0 x1 y1) as (l & Hl & Hlen & Hpix).
  destruct (bresenhamLine_spec x0 y0 x1 y1 0) as (l' & Hl' & Hhd & Hlast & _).
  rewrite Nat.add_0_r, Hl in Hl'. injection Hl' as <-.
  assert (Hbounds : (0 <= x0 < canvasWidth /\ 0 <= y0 < canvasHeight) /\
                    (0 <= x1 < canvasWidth /\ 0 <= y1 < canvasHeight)).
  { unfold in_canvas in Hstart, Hend.
    rewrite !andb_true_iff, !bool_decide_eq_true in Hstart, Hend. lia. }
  assert (Hvisible : visible_positions canvasWidth canvasHeight l = position <$> l).
  { apply visible_positions_all, Forall_fmap, Forall_lookup. intros k p Hp.
    destruct (line_pixel_near_line _ _ _ _ _ _ (Hpix k p Hp)) as (_ & Hbox & _).
    unfold compose, in_box in *.
    apply point_in_canvas_bounds. lia. }
  assert (Hpixels : forall k : nat,
            bresenhamLinePixels (line_fuel x0 y0 x1 y1 + k) x0 y0 x1 y1
              canvasWidth canvasHeight = Some (position <$> l)).
  { intros k. unfold bresenhamLinePixels, bresenhamLine in *.
    rewrite (bresenhamLinePixels_loop_filter _ _ _ _ _ _ _ _ _ _ _ _ 0).
    rewrite (bresenham_loop_more_fuel _ k _ _ _ _ _ _ _ _ _ _ _ Hl).
    simpl. by rewrite Hvisible. }
  exists (position <$> l). split_and!.
  - intros k. rewrite double_bresenhamLinePixels by (unfold safe; lia).
    by rewrite Hpixels.
  - rewrite <- (Hpixels 0%nat). by rewrite Nat.add_0_r.
  - by rewrite length_fmap.
  - done.
  - done.
  - by rewrite Hl.
Qed.

Lemma bresenhamLinePixels_unclipped_witness :
  exists pixels,
    Double.bresenhamLinePixels (line_fuel 0 0 3 2)
      (Double.int 0) (Double.int 0) (Double.int 3) (Double.int 2)
      (Double.int 4) (Double.int 3)
    = Some (double_point <$> pixels) /\
    Z.of_nat (length pixels) = Z.max (Z.abs (3 - 0)) (Z.abs (2 - 0)) + 1 /\
    head pixels = Some (mkPoint 0 0) /\
    last pixels = Some (mkPoint 3 2).
Proof.
  destruct (bresenhamLinePixels_unclipped 0 0 3 2 4 3)
    as (pixels & Hdouble & _ & Hlen & Hhd & Hlast & _);
    [lia|lia|reflexivity|reflexivity|].
  exists pixels. split_and!; [|done..].
  rewrite <- (Hdouble 0%nat). by rewrite Nat.add_0_r.
Defined.

(** X6.  For the same end points, integers of absolute value at most
    [2^50], [ddaLine] and [bresenhamLine] return equally many pixels. *)
Theorem ddaLine_bresenhamLine_same_length (x0 y0 x1 y1 : Z) :
  safe x0 -> safe y0 -> safe x1 -> safe y1 ->
  exists dda bresenham,
    (forall k : nat,
       Double.ddaLine (dda_fuel x0 y0 x1 y1 + k)
         (Double.of_int x0) (Double.of_int y0)
         (Double.of_int x1) (Double.of_int y1) = Some dda) /\
    (forall k : nat,
       Double.bresenhamLine (line_fuel x0 y0 x1 y1 + k)
         (Double.of_int x0) (Double.of_int y0)
         (Double.of_int x1) (Double.of_int y1) = Some bresenham) /\
    length dda = length bresenham.
Proof.
  intros Hx0 Hy0 Hx1 Hy1.
  destruct (bresenhamLine_pixels x0 y0 x1 y1) as (lb & Hlb & Hlen & _).
  destruct (double_ddaLine_spec x0 y0 x1 y1 Hx0 Hy0 Hx1 Hy1)
    as (ld & Hld & Hlend & _).
  exists ld, (double_pixel <$> lb). split_and!.
  - exact Hld.
  - by apply double_bresenhamLine_safe.
  - rewrite length_fmap. lia.
Qed.

Lemma ddaLine_bresenhamLine_same_length_witness :
  exists dda bresenham,
    Double.ddaLine (dda_fuel 0 0 12 1)
      (Double.of_int 0) (Double.of_int 0) (Double.of_int 12) (Double.of_int 1)
      = Some dda /\
    Double.bresenhamLine (line_fuel 0 0 12 1)
      (Double.of_int 0) (Double.of_int 0) (Double.of_int 12) (Double.of_int 1)
      = Some bresenham /\
    length dda = length bresenham.
Proof.
  destruct (ddaLine_bresenhamLine_same_length 0 0 12 1)
    as (dda & bresenham & Hdda & Hbresenham & Hlen); [unfold safe; lia..|].
  exists dda, bresenham. split_and!; [| |exact Hlen].
  - rewrite <- (Hdda 0%nat). by rewrite Nat.add_0_r.
  - rewrite <- (Hbresenham 0%nat). by rewrite Nat.add_0_r.
Defined.

(** ** The shape of a circle, and the longer axis of a DDA line *)

(** What holds of the eight images at every point the loop visits holds
    of the whole output of the loop. *)
Lemma circle_loop_Forall (P : PixelStep Z -> Prop) (cx cy r : Z) (fuel : nat) :
  (forall x y p info,
     circle_inv r x y p -> Forall P (drawCirclePoints cx cy x y info)) ->
  forall x y p i l,
    circle_inv r x y p ->
    circle_loop fuel cx cy x y p i = Some l -> Forall P l.
Proof.
  intros Hpoints. induction fuel as [|fuel IH]; intros x y p i l Hinv; simpl.
  - case_bool_decide; [discriminate|]. intros [= <-]. constructor.
  - case_bool_decide as Hlt; [|intros [= <-]; constructor].
    destruct (circle_advance_inv r x y p Hinv Hlt)
      as (x' & y' & p' & -> & Hinv' & _).
    destruct (circle_loop fuel cx cy x' y' p' (i + 1)) as [rest|] eqn:Hrest;
      [|discriminate].
    intros [= <-].
    change (Forall P (drawCirclePoints cx cy x' y'
                        (circle_step_info (i + 1) x' y' p') ++ rest)).
    apply Forall_app. split; [by eapply Hpoints|].
    by eapply IH.
Qed.

Lemma midpointCircle_Forall (P : PixelStep Z -> Prop) (cx cy r : Z) (fuel : nat) l :
  0 <= r ->
  (forall x y p info,
     circle_inv r x y p -> Forall P (drawCirclePoints cx cy x y info)) ->
  midpointCircle fuel cx cy r = Some l -> Forall P l.
Proof.
  intros Hr Hpoints. unfold midpointCircle.
  destruct (circle_loop fuel cx cy 0 r (1 - r) 0) as [rest|] eqn:Hrest;
    [|discriminate].
  intros [= <-].
  change (Forall P (drawCirclePoints cx cy 0 r
                      (circle_initial_info 0 r (1 - r)) ++ rest)).
  apply Forall_app. split.
  - eapply Hpoints. by apply circle_inv_initial.
  - eapply circle_loop_Forall; [exact Hpoints| |exact Hrest].
    by apply circle_inv_initial.
Qed.

Lemma drawCirclePoints_box (cx cy r x y p : Z) (info : string) :
  1 <= r -> circle_inv r x y p ->
  Forall (fun q => in_circle_box cx cy r (position q) /\
                   circle_error_bound cx cy r (position q))
    (drawCirclePoints cx cy x y info).
Proof.
  intros Hr (Hx & Hy & Hxy & Hp & Hlo & Hhi & _).
  assert (Hd : - y <= x * x + y * y - r * r <= y + 1) by lia.
  assert (Hxr : x <= r) by nia.
  unfold drawCirclePoints.
  repeat apply Forall_cons_2; try apply Forall_nil_2;
    unfold in_circle_box, circle_error_bound, position; simpl;
    (split; [lia|]).
  all: try (replace (cx + x - cx) with x by lia);
       try (replace (cx - x - cx) with (- x) by lia);
       try (replace (cx + y - cx) with y by lia);
       try (replace (cx - y - cx) with (- y) by lia);
       try (replace (cy + x - cy) with x by lia);
       try (replace (cy - x - cy) with (- x) by lia);
       try (replace (cy + y - cy) with y by lia);
       try (replace (cy - y - cy) with (- y) by lia);
       rewrite ?Z.mul_opp_opp; lia.
Qed.

(** X7.  For a centre and a radius [r > 0] that are integers of absolute
    value at most [2^50], every point of [midpointCircle] lies in the
    square of half side [r] around the centre, and its squared distance
    from the centre differs from [r^2] by at most [r + 1]; the four points
    where the circle meets that square are among the output. *)
Theorem midpointCircle_in_box (cx cy r : Z) :
  safe cx -> safe cy -> safe r ->
  0 < r ->
  exists l,
    (forall k : nat,
       Double.midpointCircle (circle_fuel r + k)
         (Double.of_int cx) (Double.of_int cy) (Double.of_int r)
       = Some (double_pixel <$> l)) /\
    midpointCircle (circle_fuel r) cx cy r = Some l /\
    Forall (fun q => in_circle_box cx cy r q /\ circle_error_bound cx cy r q)
      (position <$> l) /\
    (forall q, q ∈ [mkPoint (cx + r) cy; mkPoint (cx - r) cy;
                    mkPoint cx (cy + r); mkPoint cx (cy - r)] ->
               q ∈ position <$> l).
Proof.
  intros Hcx Hcy Hsafe Hr.
  destruct (midpointCircle_spec cx cy r 0 ltac:(lia)) as (l & Hl & _).
  rewrite Nat.add_0_r in Hl. exists l.
  split_and!; [by apply double_midpointCircle_safe|done| |].
  - apply Forall_fmap.
    eapply (midpointCircle_Forall _ cx cy r); [lia| |exact Hl].
    intros x y p info Hinv.
    apply (drawCirclePoints_box _ _ _ _ _ p); [lia|done].
  - unfold midpointCircle in Hl.
    destruct (circle_loop (circle_fuel r) cx cy 0 r (1 - r) 0) as [rest|];
      [|discriminate].
    injection Hl as <-. intros q Hq.
    rewrite !fmap_cons. unfold position; simpl.
    repeat (apply elem_of_cons in Hq as [->|Hq]);
      [..|by apply elem_of_nil in Hq]; pick_point.
Qed.

Lemma midpointCircle_in_box_witness :
  exists l,
    Double.midpointCircle (circle_fuel 5)
      (Double.of_int 0) (Double.of_int 0) (Double.of_int 5)
    = Some (double_pixel <$> l) /\
    Forall (fun q => in_circle_box 0 0 5 q /\ circle_error_bound 0 0 5 q)
      (position <$> l).
Proof.
  destruct (midpointCircle_in_box 0 0 5) as (l & Hdouble & _ & Hbox & _);
    [unfold safe; lia..|lia|].
  exists l. split; [|exact Hbox].
  rewrite <- (Hdouble 0%nat). by rewrite Nat.add_0_r.
Defined.

(** X8.  For end points that are integers of absolute value at most
    [2^50], [ddaLine] returns [max(|x1 - x0|, |y1 - y0|) + 1] pixels, and
    pixel number [k] is exactly [k] pixels away from the start along the
    axis the loop counts on (x when [|dx| > |dy|], y otherwise): on that
    axis the increment is [1] or [-1] and the accumulated coordinate
    carries no rounding error, so the last pixel has the end point's
    coordinate there. *)
Theorem ddaLine_major_axis (x0 y0 x1 y1 : Z) :
  safe x0 -> safe y0 -> safe x1 -> safe y1 ->
  exists l,
    Double.ddaLine (dda_fuel x0 y0 x1 y1)
      (Double.of_int x0) (Double.of_int y0)
      (Double.of_int x1) (Double.of_int y1) = Some l /\
    Z.of_nat (length l) = Z.max (Z.abs (x1 - x0)) (Z.abs (y1 - y0)) + 1 /\
    (forall (k : nat) p, l !! k = Some p ->
       double_major_step x0 y0 x1 y1 (Z.of_nat k) p) /\
    (forall p, last l = Some p ->
       if bool_decide (Z.abs (x1 - x0) > Z.abs (y1 - y0))
       then Double.x p = Double.int x1 else Double.y p = Double.int y1).
Proof.
  intros Hx0 Hy0 Hx1 Hy1.
  destruct (double_ddaLine_spec x0 y0 x1 y1 Hx0 Hy0 Hx1 Hy1)
    as (l & Hl & Hlen & Hmajor).
  specialize (Hl 0%nat). rewrite Nat.add_0_r in Hl.
  exists l. split_and!; [done|done|done|].
  intros p Hp. rewrite last_lookup in Hp. apply Hmajor in Hp.
  unfold double_major_step in Hp.
  replace (Z.of_nat (Nat.pred (length l)))
    with (Z.max (Z.abs (x1 - x0)) (Z.abs (y1 - y0))) in Hp by lia.
  case_bool_decide; rewrite Hp; f_equal; lia.
Qed.

Lemma ddaLine_major_axis_witness :
  exists l,
    Double.ddaLine (dda_fuel 0 0 12 1)
      (Double.of_int 0) (Double.of_int 0) (Double.of_int 12) (Double.of_int 1)
      = Some l /\
    l !! 6%nat = Some (Double.mkPixel (Double.int 6) (Double.int 0)) /\
    forall (k : nat) p, l !! k = Some p ->
      double_major_step 0 0 12 1 (Z.of_nat k) p.
Proof.
  destruct (ddaLine_major_axis 0 0 12 1) as (l & Hl & _ & Hmajor & _);
    [unfold safe; lia..|].
  exists l. split_and!; [exact Hl| |exact Hmajor].
  vm_compute in Hl. by injection Hl as <-.
Defined.

(** ** The visualizer: start and playback *)

Section visualizer_more.
Context `{JSNumber}.
Import Visualizer Playback.

Lemma line_pixels_returns (algorithm : Algorithm) (x0 y0 x1 y1 : Z) :
  algorithm <> MidpointCircle ->
  exists pixels,
    line_pixels algorithm x0 y0 x1 y1 = Some pixels /\ (0 < length pixels)%nat.
Proof.
  intros Halg. destruct algorithm; [| |done]; simpl.
  - unfold ddaLine, dda_fuel.
    assert (Hsteps : 0 <= dda_steps x0 y0 x1 y1) by (rewrite dda_steps_max; lia).
    destruct (dda_loop_spec (Z.to_nat (dda_steps x0 y0 x1 y1 + 1))
                (dda_steps x0 y0 x1 y1) 0 (of_int x0) (of_int y0)
                (num_div (of_int (x1 - x0)) (of_int (dda_steps x0 y0 x1 y1)))
                (num_div (of_int (y1 - y0)) (of_int (dda_steps x0 y0 x1 y1))))
      as (l & Hl & Hlen); [lia|lia|].
    exists l. split; [done|lia].
  - destruct (bresenhamLine_spec x0 y0 x1 y1 0) as (l & Hl & Hhd & _).
    rewrite Nat.add_0_r in Hl. rewrite Hl. simpl.
    eexists; split; [reflexivity|]. unfold pixels_of_int. rewrite length_fmap.
    destruct l; [discriminate|simpl; lia].
Qed.

Lemma circle_pixels_returns (cx cy r : Z) :
  0 < r ->
  exists pixels,
    pixels_of_int <$> midpointCircle (circle_fuel r) cx cy r = Some pixels /\
    (0 < length pixels)%nat.
Proof.
  intros Hr.
  destruct (midpointCircle_spec cx cy r 0 ltac:(lia)) as (l & Hl & _).
  rewrite Nat.add_0_r in Hl. rewrite Hl. simpl.
  eexists; split; [reflexivity|]. unfold pixels_of_int. rewrite length_fmap.
  unfold midpointCircle in Hl.
  destruct (circle_loop _ _ _ _ _ _ _); [|discriminate].
  injection Hl as <-. simpl. lia.
Qed.

(** On finite parameters (and a positive radius) the rasterizer returns
    at least one pixel. *)
Lemma generate_valid (algorithm : Algorithm) (c : Coords) :
  invalid algorithm c = false ->
  exists pixels,
    generate algorithm c = Pixels pixels /\ (0 < length pixels)%nat.
Proof.
  unfold invalid, generate. intros Hvalid.
  destruct algorithm.
  - destruct (x0 c) as [x0| | |], (y0 c) as [y0| | |], (x1 c) as [x1| | |],
      (y1 c) as [y1| | |]; try discriminate. cbn -[line_pixels].
    destruct (line_pixels_returns Dda x0 y0 x1 y1) as (l & Hl & Hlen); [done|].
    rewrite Hl. by exists l.
  - destruct (x0 c) as [x0| | |], (y0 c) as [y0| | |], (x1 c) as [x1| | |],
      (y1 c) as [y1| | |]; try discriminate. cbn -[line_pixels].
    destruct (line_pixels_returns Bresenham x0 y0 x1 y1) as (l & Hl & Hlen); [done|].
    rewrite Hl. by exists l.
  - destruct (cx c) as [cx| | |], (cy c) as [cy| | |], (radius c) as [r| | |];
      try discriminate. simpl in Hvalid.
    cbn -[midpointCircle circle_fuel pixels_of_int].
    case_bool_decide as Hr; [discriminate|].
    destruct (circle_pixels_returns cx cy r) as (l & Hl & Hlen); [lia|].
    rewrite Hl. by exists l.
Qed.

(** One round of the playback while pixels are left: the effect requests
    a frame, the frame draws the next pixel and sets the timeout. *)
Lemma playback_round (l : list (PixelStep num)) (k : nat) (st : AppState)
    (pixel : PixelStep num) (base : list PixelRect) :
  playing l k st -> l !! k = Some pixel ->
  painted (graphicsCanvas st) = base ++ shown (darkMode (react st)) l k ->
  exists st',
    run [EffectRuns; FrameFires (next_handle st)] st = Some st' /\
    playing l (S k) st' /\
    painted (graphicsCanvas st') = base ++ shown (darkMode (react st)) l (S k) /\
    darkMode (react st') = darkMode (react st) /\
    next_handle st' = S (S (next_handle st)) /\
    invocations st' = S (invocations st).
Proof.
  destruct st as [r c raf tmo fr tm nh inv].
  destruct r as [alg co delay pd idx anim info msg show dark].
  destruct c as [cw ch w h ptd].
  unfold playing; simpl.
  intros (-> & -> & -> & -> & Htm) Hpixel ->.
  assert (Hlen : (0 < length l)%nat).
  { apply lookup_lt_Some in Hpixel. lia. }
  assert (Heffect :
    animation_effect
      (mkApp (mkReact alg co delay l k true info msg show dark)
         (mkCanvas cw ch w h (base ++ shown dark l k)) raf tmo [] tm nh inv)
    = mkApp (mkReact alg co delay l k true info msg show dark)
        (mkCanvas cw ch w h (base ++ shown dark l k)) (Some nh) tmo
        [(nh, mkClosure k l delay dark)] [] (S nh) inv).
  { unfold animation_effect.
    destruct Htm as [->|(t & cb & -> & ->)]; destruct raf; try destruct tmo;
      simpl; rewrite ?drop_handle_nil, ?drop_handle_same; simpl;
      rewrite ?drop_handle_nil, ?drop_handle_same;
      rewrite bool_decide_eq_true_2 by done; reflexivity. }
  cbn [run step mbind option_bind]. rewrite Heffect. simpl.
  rewrite find_handle_single, decide_True by done. rewrite drop_handle_same.
  unfold animateGraphicsVisualization. simpl. rewrite Hpixel.
  eexists; split; [reflexivity|].
  destruct k as [|j]; simpl.
  - split_and!; try done; [eauto 10|].
    by rewrite app_nil_r.
  - destruct (l !! j) as [prev|] eqn:Hprev.
    + simpl. split_and!; try done; [eauto 10|].
      rewrite (take_S_r _ _ _ Hprev), flat_map_app. simpl.
      by rewrite <- !app_assoc.
    + apply lookup_ge_None in Hprev. apply lookup_lt_Some in Hpixel. lia.
Qed.

(** The last round: the frame finds the index past the data, repaints
    the last pixel and reports the end. *)
Lemma playback_last_round (l : list (PixelStep num)) (st : AppState)
    (base : list PixelRect) :
  playing l (length l) st -> (0 < length l)%nat ->
  painted (graphicsCanvas st) = base ++ shown (darkMode (react st)) l (length l) ->
  exists st',
    run [EffectRuns; FrameFires (next_handle st)] st = Some st' /\
    painted (graphicsCanvas st')
      = base ++ flat_map (playback_rects (darkMode (react st))) l /\
    currentPixelInfo (react st') = done_readout /\
    isAnimating (react st') = false /\
    currentIndex (react st') = length l /\
    pixelData (react st') = l /\
    frames st' = [] /\ timeouts st' = [] /\
    invocations st' = S (invocations st).
Proof.
  destruct st as [r c raf tmo fr tm nh inv].
  destruct r as [alg co delay pd idx anim info msg show dark].
  destruct c as [cw ch w h ptd].
  unfold playing; simpl.
  intros (-> & -> & Hidx & -> & Htm) Hlen ->. subst idx.
  assert (Heffect :
    animation_effect
      (mkApp (mkReact alg co delay l (length l) true info msg show dark)
         (mkCanvas cw ch w h (base ++ shown dark l (length l)))
         raf tmo [] tm nh inv)
    = mkApp (mkReact alg co delay l (length l) true info msg show dark)
        (mkCanvas cw ch w h (base ++ shown dark l (length l))) (Some nh) tmo
        [(nh, mkClosure (length l) l delay dark)] [] (S nh) inv).
  { unfold animation_effect.
    destruct Htm as [->|(t & cb & -> & ->)]; destruct raf; try destruct tmo;
      simpl; rewrite ?drop_handle_nil, ?drop_handle_same; simpl;
      rewrite ?drop_handle_nil, ?drop_handle_same;
      rewrite bool_decide_eq_true_2 by done; reflexivity. }
  cbn [run step mbind option_bind]. rewrite Heffect. simpl.
  rewrite find_handle_single, decide_True by done. rewrite drop_handle_same.
  unfold animateGraphicsVisualization. simpl.
  rewrite (lookup_ge_None_2 l (length l)) by done.
  destruct (last l) as [lastPixel|] eqn:Hlast.
  - eexists; split; [reflexivity|]. simpl. split_and!; try done.
    destruct (length l) as [|j] eqn:Hj; [lia|]. simpl.
    rewrite last_lookup, Hj in Hlast. simpl in Hlast. rewrite Hlast.
    rewrite <- !app_assoc. do 2 f_equal. simpl.
    rewrite <- (take_drop j l) at 2.
    rewrite flat_map_app. f_equal.
    rewrite (drop_S _ _ _ Hlast), drop_ge by lia. done.
  - apply last_None in Hlast. subst l. simpl in Hlen. lia.
Qed.

Lemma visualizer_run_app (events1 events2 : list Event) (st : AppState) :
  run (events1 ++ events2) st = run events1 st ≫= run events2.
Proof.
  revert st. induction events1 as [|e rest IH]; intros st; simpl; [done|].
  destruct (step e st); simpl; [apply IH|done].
Qed.

(** From any point of the playback the rounds that are left draw the
    pixels that are left. *)
Lemma playback_runs (l : list (PixelStep num)) (m : nat) :
  forall (k : nat) (st : AppState) (base : list PixelRect),
    playing l k st -> (k + m = length l)%nat -> (0 < length l)%nat ->
    painted (graphicsCanvas st) = base ++ shown (darkMode (react st)) l k ->
    exists st',
      run (playback (next_handle st) (S m)) st = Some st' /\
      painted (graphicsCanvas st')
        = base ++ flat_map (playback_rects (darkMode (react st))) l /\
      currentPixelInfo (react st') = done_readout /\
      isAnimating (react st') = false /\
      currentIndex (react st') = length l /\
      pixelData (react st') = l /\
      frames st' = [] /\ timeouts st' = [] /\
      invocations st' = (invocations st + S m)%nat.
Proof.
  induction m as [|m IH]; intros k st base Hplaying Hk Hlen Hpainted.
  - rewrite Nat.add_0_r in Hk. subst k.
    destruct (playback_last_round l st base Hplaying Hlen Hpainted)
      as (st' & Hrun & Hrest).
    exists st'. split; [exact Hrun|].
    rewrite Nat.add_1_r. exact Hrest.
  - destruct (lookup_lt_is_Some_2 l k ltac:(lia)) as [pixel Hpixel].
    destruct (playback_round l k st pixel base Hplaying Hpixel Hpainted)
      as (st1 & Hrun1 & Hplaying1 & Hpainted1 & Hdark & Hnext & Hinv).
    rewrite <- Hdark in Hpainted1.
    destruct (IH (S k) st1 base Hplaying1 ltac:(lia) Hlen Hpainted1)
      as (st' & Hrun & Hp & Hrest).
    exists st'. split.
    + change (playback (next_handle st) (S (S m)))
        with ([EffectRuns; FrameFires (next_handle st)]
              ++ playback (S (S (next_handle st))) (S m)).
      rewrite visualizer_run_app, Hrun1. simpl. rewrite <- Hnext. exact Hrun.
    + rewrite <- Hdark, Hp. split; [done|].
      destruct Hrest as (? & ? & ? & ? & ? & ? & Hinv').
      split_and!; try done. rewrite Hinv', Hinv. lia.
Qed.

Lemma clearGraphicsCanvas_coords (resetAll : bool) (st : AppState) :
  coords (react (clearGraphicsCanvas resetAll st))
  = (if resetAll then default_coords else coords (react st)) /\
  darkMode (react (clearGraphicsCanvas resetAll st)) = darkMode (react st) /\
  next_handle (clearGraphicsCanvas resetAll st) = next_handle st.
Proof.
  destruct st as [r c raf tmo fr tm nh inv]. unfold clearGraphicsCanvas.
  by destruct resetAll, raf, tmo.
Qed.

(** When the rasterizer returns pixels, a click on Start stores them
    and switches the animation on. *)
Lemma handleStartVisualization_started (st : AppState)
    (pixels : list (PixelStep num)) :
  generate (currentAlgorithm (react st)) (coords (react st)) = Pixels pixels ->
  (0 < length pixels)%nat ->
  handleStartVisualization st
  = Completed
      (with_react (setIsAnimating true)
         (with_react (setPixelData pixels)
            (with_react (setCurrentIndex (fun _ => 0%nat))
               (clearGraphicsCanvas false st)))).
Proof.
  intros Hgen Hlen. unfold handleStartVisualization.
  rewrite react_with_react, clearGraphicsCanvas_false_react. simpl.
  rewrite Hgen. by rewrite bool_decide_eq_true_2.
Qed.

Lemma handleStartVisualization_coords (st st' : AppState) :
  handleStartVisualization st = Completed st' ->
  coords (react st') = coords (react st).
Proof.
  unfold handleStartVisualization.
  destruct (generate _ _) as [msg|pixels| |]; try discriminate.
  - intros [= <-]. rewrite !react_with_react, clearGraphicsCanvas_false_react.
    done.
  - destruct (bool_decide _); intros [= <-];
      rewrite !react_with_react, clearGraphicsCanvas_false_react; done.
Qed.

Lemma animateGraphicsVisualization_coords (seen : Closure) (st : AppState) :
  coords (react (animateGraphicsVisualization seen st)) = coords (react st).
Proof.
  unfold animateGraphicsVisualization.
  destruct (seen_pixelData seen !! seen_currentIndex seen) as [pixel|].
  - by destruct (seen_currentIndex seen) as [|previous];
      [|destruct (seen_pixelData seen !! previous)].
  - by destruct (last (seen_pixelData seen)).
Qed.

Lemma animation_effect_react (st : AppState) :
  react (animation_effect st) = react st.
Proof.
  destruct st as [r c raf tmo fr tm nh inv]. unfold animation_effect.
  destruct raf, tmo; simpl;
    by destruct (isAnimating r && bool_decide (0 < length (pixelData r))%nat).
Qed.

Lemma or_zero_not_NaN (v : Parsed) : isNaN (or_zero v) = false.
Proof. by destruct v. Qed.

Lemma step_no_NaN (e : Event) (st st' : AppState) :
  no_NaN (coords (react st)) -> step e st = Some st' ->
  no_NaN (coords (react st')).
Proof.
  intros Hc. destruct e; simpl.
  - destruct (handleStartVisualization st) as [st''| |] eqn:Hstart;
      intros [= <-]. by rewrite (handleStartVisualization_coords _ _ Hstart).
  - intros [= <-]. by rewrite (proj1 (clearGraphicsCanvas_coords false st)).
  - intros [= <-]. by rewrite (proj1 (clearGraphicsCanvas_coords true st)).
  - intros [= <-]. by rewrite (proj1 (clearGraphicsCanvas_coords false _)).
  - intros [= <-]. simpl. destruct Hc as (? & ? & ? & ? & ? & ? & ?).
    destruct id; unfold no_NaN; simpl; split_and!;
      try done; apply or_zero_not_NaN.
  - by intros [= <-].
  - by intros [= <-].
  - intros [= <-]. unfold resizeGraphicsCanvas. case_bool_decide; [|done].
    by rewrite (proj1 (clearGraphicsCanvas_coords false _)).
  - destruct (find_handle id (frames st)); intros [= <-]; [|done].
    by rewrite animateGraphicsVisualization_coords.
  - by destruct (find_handle id (timeouts st)); intros [= <-].
  - intros [= <-]. by rewrite animation_effect_react.
Qed.

Lemma run_no_NaN (events : list Event) :
  forall st st',
    no_NaN (coords (react st)) -> run events st = Some st' ->
    no_NaN (coords (react st')).
Proof.
  induction events as [|e rest IH]; intros st st' Hc; simpl.
  - by intros [= <-].
  - destruct (step e st) as [st1|] eqn:Hstep; [|discriminate]. simpl.
    apply IH. by eapply step_no_NaN.
Qed.

Lemma started_playing (st0 : AppState) (pixels : list (PixelStep num)) :
  frames st0 = [] -> timeouts st0 = [] -> painted (graphicsCanvas st0) = [] ->
  let st1 :=
    with_react (setIsAnimating true)
      (with_react (setPixelData pixels)
         (with_react (setCurrentIndex (fun _ => 0%nat)) st0)) in
  playing pixels 0 st1 /\
  painted (graphicsCanvas st1) = [] /\
  darkMode (react st1) = darkMode (react st0) /\
  next_handle st1 = next_handle st0 /\
  invocations st1 = invocations st0.
Proof.
  destruct st0 as [r c raf tmo fr tm nh inv]. simpl.
  intros -> -> ->. unfold playing. simpl. split_and!; try done. by left.
Qed.

End visualizer_more.

Section visualizer_more_theorems.
Context `{JSNumber}.
Import Visualizer Playback.

(** X9.  When every input field holds an integer of absolute value at most
    [2^50] and the parameters of the selected algorithm are finite (and
    the radius positive), a click on Start shows no message: the
    rasterizer returns at least one pixel (in binary64 as in the model,
    and equally many), the pixels are stored, the animation is switched on
    at index 0 on a cleared canvas.  The branch that reports that no
    pixels were generated is never taken. *)
Theorem start_on_valid_parameters (st : AppState) :
  safe_coords (coords (react st)) ->
  invalid (currentAlgorithm (react st)) (coords (react st)) = false ->
  exists pixels st',
    generate (currentAlgorithm (react st)) (coords (react st)) = Pixels pixels /\
    double_rasterize_returns (currentAlgorithm (react st)) (coords (react st))
      pixels /\
    pixels <> [] /\
    handleStartVisualization st = Completed st' /\
    pixelData (react st') = pixels /\
    isAnimating (react st') = true /\
    currentIndex (react st') = 0%nat /\
    painted (graphicsCanvas st') = [] /\
    message (react st') = message (react st) /\
    showMessage (react st') = showMessage (react st) /\
    invocations st' = invocations st.
Proof.
  intros Hsafe Hvalid.
  destruct (generate_valid _ _ Hvalid) as (pixels & Hgen & Hlen).
  exists pixels. eexists. split; [exact Hgen|].
  split; [by apply generate_double|]. split.
  { intros ->. simpl in Hlen. lia. }
  split; [by apply handleStartVisualization_started|].
  rewrite !react_with_react, !graphicsCanvas_with_react, !invocations_with_react,
    clearGraphicsCanvas_false_react, clearGraphicsCanvas_painted,
    clearGraphicsCanvas_invocations.
  done.
Qed.

(** X10.  From a state the component can reach in which no animation is
    on (the Start button is disabled while one is), with safe integers in
    the input fields and valid parameters, a click on Start followed by an
    undisturbed playback (React runs the effect, the frame fires, once per
    pixel and once more) paints for every pixel of the rasterizer's
    sequence, in order, the red highlight and then the pixel in the normal
    colour, on a canvas that shows nothing else; it ends with the read-out
    on ["Algorithm complete!"], the animation off and nothing pending,
    after one run of the callback per pixel and one more. *)
Theorem start_plays_every_pixel (st : AppState) :
  reachable st ->
  isAnimating (react st) = false ->
  safe_coords (coords (react st)) ->
  invalid (currentAlgorithm (react st)) (coords (react st)) = false ->
  exists pixels st',
    generate (currentAlgorithm (react st)) (coords (react st)) = Pixels pixels /\
    double_rasterize_returns (currentAlgorithm (react st)) (coords (react st))
      pixels /\
    run (ClickStart :: playback (next_handle st) (S (length pixels))) st
      = Some st' /\
    painted (graphicsCanvas st')
      = flat_map (playback_rects (darkMode (react st))) pixels /\
    currentPixelInfo (react st') = done_readout /\
    isAnimating (react st') = false /\
    currentIndex (react st') = length pixels /\
    frames st' = [] /\ timeouts st' = [] /\
    invocations st' = (invocations st + S (length pixels))%nat.
Proof.
  intros Hreach _ Hsafe Hvalid.
  pose proof (reachable_pending_tracked st Hreach) as Htracked.
  destruct (generate_valid _ _ Hvalid) as (pixels & Hgen & Hlen).
  pose proof (handleStartVisualization_started st pixels Hgen Hlen) as Hstart.
  destruct (clearGraphicsCanvas_cancelled false st Htracked)
    as ((Hf0 & Ht0 & _) & Hp0 & _).
  destruct (clearGraphicsCanvas_coords false st) as (_ & Hdark0 & Hnext0).
  pose proof (clearGraphicsCanvas_invocations false st) as Hinv0.
  destruct (started_playing (clearGraphicsCanvas false st) pixels Hf0 Ht0 Hp0)
    as (Hplaying & Hpainted & Hdark1 & Hnext1 & Hinv1).
  remember (with_react (setIsAnimating true)
              (with_react (setPixelData pixels)
                 (with_react (setCurrentIndex (fun _ => 0%nat))
                    (clearGraphicsCanvas false st)))) as st1 eqn:Hst1.
  clear Hst1.
  assert (Hshown : painted (graphicsCanvas st1)
                   = [] ++ shown (darkMode (react st1)) pixels 0)
    by (by rewrite Hpainted).
  destruct (playback_runs pixels (length pixels) 0 st1 [] Hplaying
              (Nat.add_0_l _) Hlen Hshown)
    as (st' & Hrun & Hp & Hinfo & Hanim & Hidx & _ & Hf' & Ht' & Hinv').
  rewrite Hnext1, Hnext0 in Hrun. rewrite Hdark1, Hdark0 in Hp.
  rewrite Hinv1, Hinv0 in Hinv'.
  exists pixels, st'. split; [exact Hgen|].
  split; [by apply generate_double|]. split.
  { cbn [run step mbind option_bind]. rewrite Hstart. exact Hrun. }
  split_and!; done.
Qed.

(** X11.  In every state the component can reach no coordinate is NaN:
    [handleCoordChange] stores 0 for an input that does not parse.  So the
    checks for valid numeric coordinates never fire, and the only message a
    click on Start can report for its parameters is the one about the
    radius of a circle. *)
Theorem reachable_coordinates_are_numbers (st : AppState) :
  reachable st ->
  no_NaN (coords (react st)) /\
  forall msg,
    generate (currentAlgorithm (react st)) (coords (react st)) = Threw msg ->
    currentAlgorithm (react st) = MidpointCircle /\
    msg = "Radius must be a positive number.".
Proof.
  intros (w & h & events & Hrun).
  assert (Hc : no_NaN (coords (react st))).
  { eapply run_no_NaN; [|exact Hrun]. by unfold no_NaN. }
  split; [exact Hc|].
  destruct Hc as (Hx0 & Hy0 & Hx1 & Hy1 & Hcx & Hcy & Hr).
  intros msg. unfold generate.
  rewrite Hx0, Hy0, Hx1, Hy1, Hcx, Hcy, Hr. simpl.
  destruct (currentAlgorithm (react st)).
  - destruct (x0 _), (y0 _), (x1 _), (y1 _); try discriminate;
      unfold of_pixels; by destruct (line_pixels _ _ _ _ _).
  - destruct (x0 _), (y0 _), (x1 _), (y1 _); try discriminate;
      unfold of_pixels; by destruct (line_pixels _ _ _ _ _).
  - destruct (le_zero _); [by intros [= <-]|].
    destruct (cx _), (cy _), (radius _); try discriminate;
      unfold of_pixels; by destruct (_ <$> midpointCircle _ _ _ _).
Qed.

(** X12.  In every state the component can reach at most one callback is
    pending, a frame or a timeout: a playback never runs twice at once. *)
Theorem at_most_one_callback_pending (st : AppState) :
  reachable st -> (length (frames st) + length (timeouts st) <= 1)%nat.
Proof.
  intros Hreach.
  destruct (reachable_pending_tracked st Hreach)
    as [[-> ->] | [(id & cb & -> & -> & _) | (id & cb & -> & -> & _)]];
    simpl; lia.
Qed.

End visualizer_more_theorems.


Lemma start_on_valid_parameters_witness :
  Visualizer.invalid Visualizer.Dda Visualizer.default_coords = false /\
  exists pixels st',
    Visualizer.handleStartVisualization
      (H := Visualizer.example_numbers) (Visualizer.initial 500 500)
      = Visualizer.Completed st' /\
    double_rasterize_returns Visualizer.Dda Visualizer.default_coords pixels /\
    Visualizer.pixelData (Visualizer.react st') = pixels /\
    pixels <> [] /\
    Visualizer.isAnimating (Visualizer.react st') = true.
Proof.
  split; [reflexivity|].
  destruct (start_on_valid_parameters
              (H := Visualizer.example_numbers) (Visualizer.initial 500 500)
              default_coords_safe eq_refl)
    as (pixels & st' & _ & Hdouble & Hne & Hstart & Hdata & Hanim & _).
  exists pixels, st'. split_and!; assumption.
Defined.

Lemma start_plays_every_pixel_witness :
  Visualizer.reachable (H := Visualizer.example_numbers)
    (Visualizer.initial 500 500) /\
  exists pixels (st' : Visualizer.AppState (H := Visualizer.example_numbers)),
    Visualizer.run
      (Visualizer.ClickStart :: Playback.playback 1 (S (length pixels)))
      (Visualizer.initial 500 500) = Some st' /\
    painted (Visualizer.graphicsCanvas st')
      = flat_map (Playback.playback_rects (H := Visualizer.example_numbers) true)
          pixels /\
    Visualizer.currentPixelInfo (Visualizer.react st')
      = Visualizer.done_readout.
Proof.
  assert (Hreach : Visualizer.reachable (H := Visualizer.example_numbers)
                     (Visualizer.initial 500 500)).
  { by exists 500%nat, 500%nat, []. }
  split; [exact Hreach|].
  destruct (start_plays_every_pixel (Visualizer.initial 500 500) Hreach eq_refl
              default_coords_safe eq_refl)
    as (pixels & st' & _ & _ & Hrun & Hpainted & Hinfo & _).
  exists pixels, st'. split_and!; assumption.
Defined.

Lemma reachable_coordinates_are_numbers_witness :
  Visualizer.reachable example_radius_typed /\
  Visualizer.generate (H := Visualizer.example_numbers)
    (Visualizer.currentAlgorithm (Visualizer.react example_radius_typed))
    (Visualizer.coords (Visualizer.react example_radius_typed))
  = Visualizer.Threw "Radius must be a positive number." /\
  Playback.no_NaN (Visualizer.coords (Visualizer.react example_radius_typed)).
Proof.
  assert (Hreach : Visualizer.reachable example_radius_typed).
  { exists 500%nat, 500%nat, example_radius_events. vm_compute. reflexivity. }
  split_and!; [exact Hreach|vm_compute; reflexivity|].
  exact (proj1 (reachable_coordinates_are_numbers example_radius_typed Hreach)).
Defined.

Lemma at_most_one_callback_pending_witness :
  Visualizer.reachable Visualizer.example_playing /\
  (length (Visualizer.frames Visualizer.example_playing)
   + length (Visualizer.timeouts Visualizer.example_playing) <= 1)%nat.
Proof.
  assert (Hreach : Visualizer.reachable Visualizer.example_playing).
  { exists 500%nat, 500%nat, Visualizer.example_events.
    vm_compute. reflexivity. }
  split; [exact Hreach|].
  exact (at_most_one_callback_pending Visualizer.example_playing Hreach).
Defined.

(** ** The HTML page *)

Section page_facts.
Context `{JSNumber}.
Import Page.

Lemma pending_only (id : nat) :
  bool_decide (id ∈ [id]) = true /\
  filter (fun pending : nat => pending <> id) [id] = [].
Proof.
  split.
  - apply bool_decide_eq_true_2. by left.
  - by rewrite filter_cons_False, filter_nil by (simpl; tauto).
Qed.

Lemma page_playback_round (l : list (PixelStep num)) (k t : nat) (st : State)
    (pixel : PixelStep num) (base : list Visualizer.PixelRect) :
  playing l k t st -> l !! k = Some pixel ->
  painted (canvas st) = base ++ shown l k ->
  exists st',
    run [TimeoutFires t; FrameFires (S t)] st = Some st' /\
    playing l (S k) (S (S t)) st' /\
    painted (canvas st') = base ++ shown l (S k) /\
    invocations st' = S (invocations st).
Proof.
  destruct st as [p info c al alg raf pd idx delay fr tm nh inv].
  destruct c as [cw ch w h ptd].
  unfold playing; simpl.
  intros (-> & -> & -> & -> & ->) Hpixel ->.
  destruct (pending_only t) as [Hin Hout].
  destruct (pending_only (S t)) as [Hin' Hout'].
  rewrite Hin, Hout. simpl. rewrite Hin', Hout'.
  unfold animateVisualization. simpl. rewrite Hpixel.
  eexists; split; [reflexivity|].
  destruct k as [|j]; simpl.
  - split_and!; try done. by rewrite app_nil_r.
  - destruct (l !! j) as [prev|] eqn:Hprev.
    + simpl. split_and!; try done.
      rewrite (take_S_r _ _ _ Hprev), flat_map_app. simpl.
      by rewrite <- !app_assoc.
    + apply lookup_ge_None in Hprev. apply lookup_lt_Some in Hpixel. lia.
Qed.

Lemma page_playback_last_round (l : list (PixelStep num)) (t : nat) (st : State)
    (base : list Visualizer.PixelRect) :
  playing l (length l) t st -> (0 < length l)%nat ->
  painted (canvas st) = base ++ shown l (length l) ->
  exists st',
    run [TimeoutFires t; FrameFires (S t)] st = Some st' /\
    painted (canvas st') = base ++ flat_map playback_rects l /\
    visualizationInfo st' = Visualizer.done_readout /\
    animationFrameId st' = None /\
    currentIndex st' = length l /\
    pixelData st' = l /\
    frames st' = [] /\ timeouts st' = [] /\
    invocations st' = S (invocations st).
Proof.
  destruct st as [p info c al alg raf pd idx delay fr tm nh inv].
  destruct c as [cw ch w h ptd].
  unfold playing; simpl.
  intros (-> & Hidx & -> & -> & ->) Hlen ->. subst idx.
  destruct (pending_only t) as [Hin Hout].
  destruct (pending_only (S t)) as [Hin' Hout'].
  rewrite Hin, Hout. simpl. rewrite Hin', Hout'.
  unfold animateVisualization. simpl.
  rewrite (lookup_ge_None_2 l (length l)) by done.
  destruct (last l) as [lastPixel|] eqn:Hlast.
  - eexists; split; [reflexivity|]. simpl. split_and!; try done.
    destruct (length l) as [|j] eqn:Hj; [lia|]. simpl.
    rewrite last_lookup, Hj in Hlast. simpl in Hlast. rewrite Hlast.
    rewrite <- !app_assoc. do 2 f_equal. simpl.
    rewrite <- (take_drop j l) at 2.
    rewrite flat_map_app. f_equal.
    rewrite (drop_S _ _ _ Hlast), drop_ge by lia. done.
  - apply last_None in Hlast. subst l. simpl in Hlen. lia.
Qed.

Lemma page_run_app (events1 events2 : list Event) (st : State) :
  run (events1 ++ events2) st = run events1 st ≫= run events2.
Proof.
  revert st. induction events1 as [|e rest IH]; intros st; simpl; [done|].
  destruct (step e st); simpl; [apply IH|done].
Qed.

Lemma page_playback_runs (l : list (PixelStep num)) (m : nat) :
  forall (k t : nat) (st : State) (base : list Visualizer.PixelRect),
    playing l k t st -> (k + m = length l)%nat -> (0 < length l)%nat ->
    painted (canvas st) = base ++ shown l k ->
    exists st',
      run (playback t (S m)) st = Some st' /\
      painted (canvas st') = base ++ flat_map playback_rects l /\
      visualizationInfo st' = Visualizer.done_readout /\
      animationFrameId st' = None /\
      currentIndex st' = length l /\
      pixelData st' = l /\
      frames st' = [] /\ timeouts st' = [] /\
      invocations st' = (invocations st + S m)%nat.
Proof.
  induction m as [|m IH]; intros k t st base Hplaying Hk Hlen Hpainted.
  - rewrite Nat.add_0_r in Hk. subst k.
    destruct (page_playback_last_round l t st base Hplaying Hlen Hpainted)
      as (st' & Hrun & Hrest).
    exists st'. split; [exact Hrun|].
    rewrite Nat.add_1_r. exact Hrest.
  - destruct (lookup_lt_is_Some_2 l k ltac:(lia)) as [pixel Hpixel].
    destruct (page_playback_round l k t st pixel base Hplaying Hpixel Hpainted)
      as (st1 & Hrun1 & Hplaying1 & Hpainted1 & Hinv).
    destruct (IH (S k) (S (S t)) st1 base Hplaying1 ltac:(lia) Hlen Hpainted1)
      as (st' & Hrun & Hp & Hrest).
    exists st'. split.
    + change (playback t (S (S m)))
        with ([TimeoutFires t; FrameFires (S t)] ++ playback (S (S t)) (S m)).
      rewrite page_run_app, Hrun1. exact Hrun.
    + split; [done|].
      destruct Hrest as (? & ? & ? & ? & ? & ? & Hinv').
      split_and!; try done. rewrite Hinv', Hinv. lia.
Qed.

(** [clearCanvas] leaves the timeouts, the handle counter and the
    invocation count as they are, empties the canvas and the pixel data,
    and forgets the frame it has cancelled. *)
Lemma clearCanvas_spec (st : State) :
  let st' := clearCanvas st in
  timeouts st' = timeouts st /\ next_handle st' = next_handle st /\
  invocations st' = invocations st /\ alerts st' = alerts st /\
  panel st' = panel st /\ currentAlgorithm st' = currentAlgorithm st /\
  animationDelay st' = animationDelay st /\
  painted (canvas st') = [] /\ pixelData st' = [] /\ currentIndex st' = 0%nat /\
  visualizationInfo st' = Visualizer.blank_readout /\
  animationFrameId st' = None /\
  (frames st = [] -> frames st' = []).
Proof.
  destruct st as [p info c al alg raf pd idx delay fr tm nh inv].
  unfold clearCanvas. destruct raf; simpl; split_and!; try done.
  unfold cancelAnimationFrame; simpl. by intros ->.
Qed.

Lemma passes_checks_spec (a : Visualizer.Algorithm) (c : Visualizer.Coords) :
  Visualizer.startBtn_checks a c = None <-> passes_checks a c = true.
Proof.
  unfold Visualizer.startBtn_checks, passes_checks.
  destruct a, (Visualizer.isNaN (Visualizer.x0 c)),
    (Visualizer.isNaN (Visualizer.y0 c)), (Visualizer.isNaN (Visualizer.x1 c)),
    (Visualizer.isNaN (Visualizer.y1 c)), (Visualizer.isNaN (Visualizer.cx c)),
    (Visualizer.isNaN (Visualizer.cy c)), (Visualizer.isNaN (Visualizer.radius c)),
    (Visualizer.le_zero (Visualizer.radius c)); simpl; split; congruence.
Qed.

Lemma rasterize_valid (a : Visualizer.Algorithm) (c : Visualizer.Coords) :
  Visualizer.invalid a c = false ->
  exists pixels, rasterize a c = Some pixels /\ (0 < length pixels)%nat.
Proof.
  unfold Visualizer.invalid, rasterize. intros Hvalid.
  destruct a.
  - destruct (Visualizer.x0 c) as [x0| | |], (Visualizer.y0 c) as [y0| | |],
      (Visualizer.x1 c) as [x1| | |], (Visualizer.y1 c) as [y1| | |];
      try discriminate.
    by apply line_pixels_returns.
  - destruct (Visualizer.x0 c) as [x0| | |], (Visualizer.y0 c) as [y0| | |],
      (Visualizer.x1 c) as [x1| | |], (Visualizer.y1 c) as [y1| | |];
      try discriminate.
    by apply line_pixels_returns.
  - destruct (Visualizer.cx c) as [cx| | |], (Visualizer.cy c) as [cy| | |],
      (Visualizer.radius c) as [r| | |]; try discriminate. simpl in Hvalid.
    case_bool_decide as Hr; [discriminate|].
    apply circle_pixels_returns. lia.
Qed.

End page_facts.

Section page_theorems.
Context `{JSNumber}.
Import Page.

(** The click on Start, when the checks pass and the parameters are
    finite: the first pixel is drawn in the click itself. *)
Lemma startBtn_click_started (st : State) (pixels : list (PixelStep num)) :
  frames st = [] ->
  Visualizer.startBtn_checks (currentAlgorithm st) (fields (panel st)) = None ->
  rasterize (currentAlgorithm st) (fields (panel st)) = Some pixels ->
  (0 < length pixels)%nat ->
  exists st',
    startBtn_click st = Some st' /\
    pixelData st' = pixels /\ currentIndex st' = 1%nat /\ frames st' = [] /\
    timeouts st' = timeouts st ++ [next_handle st] /\
    next_handle st' = S (next_handle st) /\
    painted (canvas st') = [] ++ shown pixels 1 /\
    invocations st' = S (invocations st).
Proof.
  destruct st as [p info c al alg raf pd idx delay fr tm nh inv].
  simpl. intros -> Hchecks Hraster Hlen.
  unfold startBtn_click, clearCanvas.
  destruct raf; simpl; rewrite Hchecks, Hraster; simpl;
    unfold cancelAnimationFrame; simpl;
    rewrite bool_decide_eq_true_2 by done;
    unfold animateVisualization; simpl;
    (destruct pixels as [|pixel rest]; [simpl in Hlen; lia|]); simpl;
    eexists; (split; [reflexivity|]); simpl; split_and!; done.
Qed.

(** X13.  On the page, when nothing is pending, the input fields hold
    integers of absolute value at most [2^50], the checks pass and the
    parameters are finite, a click on Start followed by an undisturbed
    playback (the timeout fires, the frame fires, once per pixel) paints
    for every pixel of the rasterizer's sequence, in order, the red
    highlight and then the pixel in black, on a canvas that shows nothing
    else, and ends with the read-out on ["Algorithm complete!"] and nothing
    pending, after one run of [animateVisualization] per pixel and one
    more. *)
Theorem page_start_plays_every_pixel (st : State) :
  frames st = [] -> timeouts st = [] ->
  safe_coords (fields (panel st)) ->
  passes_checks (currentAlgorithm st) (fields (panel st)) = true ->
  Visualizer.invalid (currentAlgorithm st) (fields (panel st)) = false ->
  exists pixels st',
    rasterize (currentAlgorithm st) (fields (panel st)) = Some pixels /\
    double_rasterize_returns (currentAlgorithm st) (fields (panel st)) pixels /\
    run (StartClick :: playback (next_handle st) (length pixels)) st = Some st' /\
    painted (canvas st') = flat_map playback_rects pixels /\
    visualizationInfo st' = Visualizer.done_readout /\
    currentIndex st' = length pixels /\
    frames st' = [] /\ timeouts st' = [] /\
    invocations st' = (invocations st + S (length pixels))%nat.
Proof.
  intros Hf Ht Hsafe Hchecks Hvalid.
  apply passes_checks_spec in Hchecks.
  destruct (rasterize_valid _ _ Hvalid) as (pixels & Hraster & Hlen).
  destruct (startBtn_click_started st pixels Hf Hchecks Hraster Hlen)
    as (st1 & Hstart & Hdata & Hidx & Hf1 & Ht1 & Hnext & Hpainted & Hinv).
  rewrite Ht in Ht1. simpl in Ht1.
  assert (Hplaying : playing pixels 1 (next_handle st) st1) by done.
  pose proof (rasterize_double _ _ _ Hsafe Hraster) as Hdouble.
  destruct (length pixels) as [|m] eqn:Hm; [lia|].
  destruct (page_playback_runs pixels m 1 (next_handle st) st1 [] Hplaying
              ltac:(lia) ltac:(lia) Hpainted)
    as (st' & Hrun & Hp & Hinfo & _ & Hidx' & _ & Hf' & Ht' & Hinv').
  exists pixels, st'. split; [done|]. split; [done|]. split.
  { cbn [run step mbind option_bind]. rewrite Hstart. rewrite Hm. exact Hrun. }
  rewrite Hm in *. split_and!; try done. rewrite Hinv', Hinv. lia.
Qed.

(** X14.  On the page a click on Clear does not stop a pending timeout:
    the timeout still fires, the frame it requests runs
    [animateVisualization] once more, and the read-out of the cleared page
    changes to ["Algorithm complete!"]. *)
Theorem page_clear_leaves_timeout (st : State) (t : nat) :
  timeouts st = [t] -> frames st = [] ->
  exists cleared st',
    step ClearClick st = Some cleared /\
    visualizationInfo cleared = Visualizer.blank_readout /\
    timeouts cleared = [t] /\
    run [TimeoutFires t; FrameFires (next_handle st)] cleared = Some st' /\
    invocations st' = S (invocations st) /\
    visualizationInfo st' = Visualizer.done_readout /\
    painted (canvas st') = [].
Proof.
  destruct st as [p info c al alg raf pd idx delay fr tm nh inv].
  simpl. intros -> ->.
  destruct (pending_only t) as [Hin Hout].
  destruct (pending_only nh) as [Hin' Hout'].
  eexists. eexists. split; [reflexivity|].
  unfold clearCanvas, cancelAnimationFrame.
  destruct raf; simpl; rewrite Hin, Hout; simpl; rewrite Hin', Hout';
    (split_and!; [done|done| |..]);
    try (unfold animateVisualization; simpl; reflexivity); done.
Qed.

(** X15.  On the page a click on Start does not stop a pending timeout
    either (input fields with integers of absolute value at most [2^50],
    checks passed): after the click the timeout of the earlier playback and
    the one of the new playback are both pending, so two playbacks advance
    the same index. *)
Theorem page_restart_keeps_timeout (st : State) (t : nat) :
  timeouts st = [t] -> frames st = [] ->
  safe_coords (fields (panel st)) ->
  passes_checks (currentAlgorithm st) (fields (panel st)) = true ->
  Visualizer.invalid (currentAlgorithm st) (fields (panel st)) = false ->
  exists pixels st',
    rasterize (currentAlgorithm st) (fields (panel st)) = Some pixels /\
    double_rasterize_returns (currentAlgorithm st) (fields (panel st)) pixels /\
    step StartClick st = Some st' /\
    timeouts st' = [t; next_handle st] /\
    currentIndex st' = 1%nat /\
    invocations st' = S (invocations st).
Proof.
  intros Ht Hf Hsafe Hchecks Hvalid.
  apply passes_checks_spec in Hchecks.
  destruct (rasterize_valid _ _ Hvalid) as (pixels & Hraster & Hlen).
  destruct (startBtn_click_started st pixels Hf Hchecks Hraster Hlen)
    as (st1 & Hstart & Hdata & Hidx & Hf1 & Ht1 & Hnext & Hpainted & Hinv).
  exists pixels, st1. rewrite Ht in Ht1.
  split_and!; try done. by apply rasterize_double.
Qed.

(** X16.  The checks of the Start button of the page look at x0, y0, x1,
    cx and cy whatever the algorithm is, and at y1 or at the radius only
    for the algorithm that uses it.  When a check fails the click raises
    the alert and returns: the canvas has been cleared, there is no pixel
    data, and [animateVisualization] has not run. *)
Theorem page_start_validation (st : State) :
  (Visualizer.startBtn_checks (currentAlgorithm st) (fields (panel st)) = None
   <-> passes_checks (currentAlgorithm st) (fields (panel st)) = true) /\
  (forall msg,
     Visualizer.startBtn_checks (currentAlgorithm st) (fields (panel st))
       = Some msg ->
     exists st',
       step StartClick st = Some st' /\
       alerts st' = alerts st ++ [msg] /\
       pixelData st' = [] /\
       painted (canvas st') = [] /\
       visualizationInfo st' = Visualizer.blank_readout /\
       timeouts st' = timeouts st /\
       invocations st' = invocations st).
Proof.
  split; [apply passes_checks_spec|].
  intros msg Hchecks.
  destruct st as [p info c al alg raf pd idx delay fr tm nh inv].
  simpl in *. unfold startBtn_click, clearCanvas.
  destruct raf; simpl; rewrite Hchecks; eexists; (split; [reflexivity|]);
    done.
Qed.

(** X17.  Reset View on the page puts the input fields, the algorithm,
    the slider and its label back to their first values and clears the
    canvas, but it does not assign [animationDelay]: the label reads
    [50 ms] while the playback keeps the delay it had.  A pending timeout
    stays pending. *)
Theorem page_reset_keeps_delay (st : State) :
  panel (resetView st) = panel (loaded 0 0) /\
  currentAlgorithm (resetView st) = Visualizer.Dda /\
  visualizationInfo (resetView st) = Visualizer.blank_readout /\
  pixelData (resetView st) = [] /\
  painted (canvas (resetView st)) = [] /\
  animationDelay (resetView st) = animationDelay st /\
  timeouts (resetView st) = timeouts st.
Proof.
  destruct st as [p info c al alg raf pd idx delay fr tm nh inv].
  unfold resetView, clearCanvas. by destruct raf.
Qed.

End page_theorems.

Lemma page_start_plays_every_pixel_witness :
  exists pixels (st' : Page.State (H := Visualizer.example_numbers)),
    Page.run (Page.StartClick :: Page.playback 1 (length pixels))
      (Page.loaded 500 500) = Some st' /\
    double_rasterize_returns Visualizer.Dda Visualizer.default_coords pixels /\
    painted (Page.canvas st') = flat_map Page.playback_rects pixels /\
    Page.visualizationInfo st' = Visualizer.done_readout.
Proof.
  destruct (page_start_plays_every_pixel
              (H := Visualizer.example_numbers) (Page.loaded 500 500)
              eq_refl eq_refl default_coords_safe eq_refl eq_refl)
    as (pixels & st' & _ & Hdouble & Hrun & Hpainted & Hinfo & _).
  exists pixels, st'. split_and!; assumption.
Defined.

Lemma page_clear_leaves_timeout_witness :
  Page.timeouts example_page_playing = [1%nat] /\
  exists cleared st',
    Page.step Page.ClearClick example_page_playing = Some cleared /\
    Page.run [Page.TimeoutFires 1; Page.FrameFires 2] cleared = Some st' /\
    Page.invocations st' = 2%nat /\
    Page.visualizationInfo st' = Visualizer.done_readout.
Proof.
  assert (Ht : Page.timeouts example_page_playing = [1%nat])
    by (vm_compute; reflexivity).
  assert (Hf : Page.frames example_page_playing = [])
    by (vm_compute; reflexivity).
  split; [exact Ht|].
  destruct (page_clear_leaves_timeout example_page_playing 1 Ht Hf)
    as (cleared & st' & Hclear & _ & _ & Hrun & Hinv & Hinfo & _).
  exists cleared, st'. split_and!; assumption.
Defined.

Lemma page_restart_keeps_timeout_witness :
  exists st',
    Page.step Page.StartClick example_page_playing = Some st' /\
    Page.timeouts st' = [1%nat; 2%nat].
Proof.
  assert (Ht : Page.timeouts example_page_playing = [1%nat])
    by (vm_compute; reflexivity).
  assert (Hf : Page.frames example_page_playing = [])
    by (vm_compute; reflexivity).
  assert (Hsafe : safe_coords (Page.fields (Page.panel example_page_playing))).
  { repeat split; vm_compute; discriminate. }
  assert (Hchecks :
    Page.passes_checks (Page.currentAlgorithm example_page_playing)
      (Page.fields (Page.panel example_page_playing)) = true)
    by (vm_compute; reflexivity).
  assert (Hvalid :
    Visualizer.invalid (Page.currentAlgorithm example_page_playing)
      (Page.fields (Page.panel example_page_playing)) = false)
    by (vm_compute; reflexivity).
  destruct (page_restart_keeps_timeout example_page_playing 1 Ht Hf Hsafe
              Hchecks Hvalid)
    as (pixels & st' & _ & _ & Hstart & Htimeouts & _).
  exists st'. split; assumption.
Defined.

(** ** The simulator: framebuffer and frames *)

Lemma cell_insert (buffer : list (list Color)) (cells : list Color)
    (r c : nat) (color : Color) (row col : nat) :
  buffer !! r = Some cells -> (c < length cells)%nat ->
  cell (<[r := <[c := color]> cells]> buffer) row col
  = if bool_decide (row = r /\ col = c) then Some color else cell buffer row col.
Proof.
  intros Hcells Hc. unfold cell.
  destruct (decide (row = r)) as [->|Hrow].
  - rewrite list_lookup_insert_eq by (by eapply lookup_lt_Some). simpl.
    rewrite Hcells. simpl.
    destruct (decide (col = c)) as [->|Hcol].
    + rewrite list_lookup_insert_eq by done.
      by rewrite bool_decide_eq_true_2.
    + rewrite list_lookup_insert_ne by done.
      rewrite bool_decide_eq_false_2 by tauto. done.
  - rewrite list_lookup_insert_ne by done.
    rewrite bool_decide_eq_false_2 by tauto. done.
Qed.

Lemma buffer_write_cell (w h : nat) (buffer : list (list Color))
    (r c : nat) (color : Color) :
  buffer_shape w h buffer -> (r < h)%nat -> (c < w)%nat ->
  exists buffer',
    buffer_write buffer (Z.of_nat r) (Z.of_nat c) color = Ok buffer' /\
    buffer_shape w h buffer' /\
    forall row col,
      cell buffer' row col
      = if bool_decide (row = r /\ col = c) then Some color
        else cell buffer row col.
Proof.
  intros [Hlen Hrows] Hr Hc. unfold buffer_write.
  rewrite !bool_decide_eq_true_2 by lia. simpl. rewrite !Nat2Z.id.
  destruct (buffer !! r) as [cells|] eqn:Hcells.
  - assert (Hw : length cells = w).
    { eapply (proj1 (Forall_lookup _ _) Hrows); eassumption. }
    rewrite bool_decide_eq_true_2 by lia.
    eexists; split; [reflexivity|]. split.
    + split; [by rewrite length_insert|].
      apply Forall_insert; [done|]. by rewrite length_insert.
    + intros row col. apply cell_insert; [done|lia].
  - apply lookup_ge_None in Hcells. lia.
Qed.

(** After [plot_pixels] a cell of the canvas holds the colour exactly
    when its position is among the pixels. *)
Lemma plot_pixels_cell (w h : nat) (color : Color) (pixels : list Point) :
  forall buffer,
    buffer_shape w h buffer ->
    exists buffer',
      plot_pixels (Z.of_nat w) (Z.of_nat h) color buffer pixels = Ok buffer' /\
      buffer_shape w h buffer' /\
      forall row col, (row < h)%nat -> (col < w)%nat ->
        cell buffer' row col
        = if bool_decide (mkPoint (Z.of_nat col) (Z.of_nat row) ∈ pixels)
          then Some color else cell buffer row col.
Proof.
  induction pixels as [|p rest IH]; intros buffer Hshape; simpl.
  - exists buffer. split_and!; [done|done|].
    intros row col _ _.
    first [done | by rewrite bool_decide_eq_false_2 by apply not_elem_of_nil].
  - destruct (bool_decide (point_y p >= 0) && bool_decide (point_y p < Z.of_nat h)
              && bool_decide (point_x p >= 0) && bool_decide (point_x p < Z.of_nat w))
      eqn:Hguard.
    + rewrite !andb_true_iff, !bool_decide_eq_true in Hguard.
      destruct p as [px py]. simpl in *.
      destruct (buffer_write_cell w h buffer (Z.to_nat py) (Z.to_nat px) color Hshape)
        as (buffer1 & Hwrite & Hshape1 & Hcell1); [lia|lia|].
      rewrite !Z2Nat.id in Hwrite by lia. rewrite Hwrite. simpl.
      destruct (IH buffer1 Hshape1) as (buffer' & -> & Hshape' & Hcell').
      exists buffer'. split_and!; [done|done|].
      intros row col Hrow Hcol. rewrite Hcell' by done.
      destruct (decide (mkPoint (Z.of_nat col) (Z.of_nat row) ∈ rest)) as [Hin|Hout].
      * rewrite !bool_decide_eq_true_2; [done| |done]. by right.
      * rewrite (bool_decide_eq_false_2 (_ ∈ rest)) by done.
        rewrite Hcell1.
        destruct (decide (row = Z.to_nat py /\ col = Z.to_nat px)) as [[-> ->]|Hne].
        -- rewrite !bool_decide_eq_true_2; [done| |done].
           rewrite !Z2Nat.id by lia. by left.
        -- rewrite !bool_decide_eq_false_2; [done| |done].
           intros Hin. apply elem_of_cons in Hin as [Heq|Hin]; [|done].
           injection Heq as <- <-. apply Hne. by rewrite !Nat2Z.id.
    + simpl. destruct (IH buffer Hshape) as (buffer' & -> & Hshape' & Hcell').
      exists buffer'. split_and!; [done|done|].
      intros row col Hrow Hcol. rewrite Hcell' by done.
      destruct (decide (mkPoint (Z.of_nat col) (Z.of_nat row) ∈ rest)) as [Hin|Hout].
      * rewrite !bool_decide_eq_true_2; [done| |done]. by right.
      * rewrite !bool_decide_eq_false_2; [done| |done].
        intros Hin. apply elem_of_cons in Hin as [Heq|Hin]; [|done].
        subst p. simpl in Hguard.
        rewrite !bool_decide_eq_true_2 in Hguard by lia. done.
Qed.

(** On the canvas the pixels [bresenhamLinePixels] keeps are the pixels
    of the segment. *)
Lemma bresenhamLinePixels_segment (line : Line) (w h : nat) :
  exists pixels,
    bresenhamLinePixels
      (line_fuel (line_x1 line) (line_y1 line) (line_x2 line) (line_y2 line))
      (line_x1 line) (line_y1 line) (line_x2 line) (line_y2 line)
      (Z.of_nat w) (Z.of_nat h) = Some pixels /\
    forall row col, (row < h)%nat -> (col < w)%nat ->
      mkPoint (Z.of_nat col) (Z.of_nat row) ∈ pixels
      <-> mkPoint (Z.of_nat col) (Z.of_nat row) ∈ segment_pixels line.
Proof.
  destruct (bresenhamLinePixels_returns (line_x1 line) (line_y1 line)
              (line_x2 line) (line_y2 line) (Z.of_nat w) (Z.of_nat h) 0)
    as (l & Hl & Hpx).
  rewrite Nat.add_0_r in Hl, Hpx.
  exists (visible_positions (Z.of_nat w) (Z.of_nat h) l). split; [done|].
  intros row col Hrow Hcol. unfold segment_pixels. rewrite Hl.
  unfold visible_positions. rewrite list_elem_of_filter.
  split; [tauto|]. intros Hin. split; [|done].
  apply Is_true_true, point_in_canvas_bounds. simpl. lia.
Qed.

Lemma plot_lines_cell (w h : nat) (color : Color) (lines : list Line) :
  forall buffer,
    buffer_shape w h buffer ->
    exists buffer',
      plot_lines (Z.of_nat w) (Z.of_nat h) color buffer lines = Ok buffer' /\
      buffer_shape w h buffer' /\
      forall row col, (row < h)%nat -> (col < w)%nat ->
        cell buffer' row col
        = if lit lines row col then Some color else cell buffer row col.
Proof.
  induction lines as [|line rest IH]; intros buffer Hshape; simpl.
  - exists buffer. split_and!; [done|done|].
    intros row col _ _.
    first [done | unfold lit; by rewrite bool_decide_eq_false_2 by (by rewrite Exists_nil)].
  - destruct (bresenhamLinePixels_segment line w h) as (pixels & -> & Hpixels).
    simpl.
    destruct (plot_pixels_cell w h color pixels buffer Hshape)
      as (buffer1 & -> & Hshape1 & Hcell1).
    simpl.
    destruct (IH buffer1 Hshape1) as (buffer' & -> & Hshape' & Hcell').
    exists buffer'. split_and!; [done|done|].
    intros row col Hrow Hcol. rewrite Hcell', Hcell1 by done.
    unfold lit.
    destruct (decide (Exists (fun line0 =>
                mkPoint (Z.of_nat col) (Z.of_nat row) ∈ segment_pixels line0) rest))
      as [Hrest|Hrest].
    + rewrite !bool_decide_eq_true_2; [done| |done]. by apply Exists_cons_tl.
    + rewrite (bool_decide_eq_false_2 _ Hrest).
      destruct (decide (mkPoint (Z.of_nat col) (Z.of_nat row) ∈ pixels))
        as [Hin|Hout].
      * rewrite !bool_decide_eq_true_2; [done| |done].
        apply Exists_cons_hd. by apply Hpixels.
      * rewrite !bool_decide_eq_false_2; [done| |done].
        intros Hex. apply Exists_cons in Hex as [Hhd|Htl]; [|done].
        apply Hout. by apply Hpixels.
Qed.

Lemma cell_replicate (w h : nat) (c : Color) (row col : nat) :
  (row < h)%nat -> (col < w)%nat ->
  cell (replicate h (replicate w c)) row col = Some c.
Proof.
  intros Hrow Hcol. unfold cell.
  rewrite lookup_replicate_2 by done. simpl. by rewrite lookup_replicate_2.
Qed.

(** [initializeRasterBuffer] in full: the canvas takes its layout size
    and is cleared, the cursor is on [(0, 0)] and every cell holds the
    colour of its position. *)
Lemma initializeRasterBuffer_cells (env : Env) (sim : RasterSim) :
  exists sim0,
    initializeRasterBuffer env sim = Ok sim0 /\
    rasterCanvas sim0
    = mkCanvas (clientWidth (rasterCanvas sim)) (clientHeight (rasterCanvas sim))
        (clientWidth (rasterCanvas sim)) (clientHeight (rasterCanvas sim)) [] /\
    raster_wf sim0 /\
    raster_cursor sim0 = (0%nat, 0%nat) /\
    rasterPixelInfo sim0 = rasterPixelInfo sim /\
    rasterScheduled sim0 = rasterScheduled sim /\
    forall row col,
      (row < clientHeight (rasterCanvas sim))%nat ->
      (col < clientWidth (rasterCanvas sim))%nat ->
      cell (buffer (rasterDisplayData sim0)) row col
      = Some (cell_color (darkMode env) (drawnLines env) row col).
Proof.
  unfold initializeRasterBuffer.
  assert (Hcanvas : clearCanvas (resizeCanvas (rasterCanvas sim))
    = mkCanvas (clientWidth (rasterCanvas sim)) (clientHeight (rasterCanvas sim))
        (clientWidth (rasterCanvas sim)) (clientHeight (rasterCanvas sim)) []).
  { destruct (rasterCanvas sim) as [cw ch w h ptd].
    unfold resizeCanvas, clearCanvas. simpl.
    case_bool_decide as Hne; simpl; [done|].
    destruct (decide (w = cw)) as [->|]; [|exfalso; apply Hne; by left].
    destruct (decide (h = ch)) as [->|]; [|exfalso; apply Hne; by right].
    done. }
  rewrite Hcanvas. simpl.
  set (cw := clientWidth (rasterCanvas sim)).
  set (ch := clientHeight (rasterCanvas sim)).
  destruct (plot_lines_cell cw ch (line_color (darkMode env)) (drawnLines env)
              (replicate ch (replicate cw (background_color (darkMode env))))
              (replicate_shape _ _ _)) as (buffer' & -> & Hshape & Hcell).
  simpl. eexists; split; [reflexivity|]. simpl.
  split_and!; try done.
  intros row col Hrow Hcol. rewrite Hcell by done.
  unfold cell_color. destruct (lit _ _ _); [done|].
  by apply cell_replicate.
Qed.

Lemma row_major_in_range (w h : nat) (row col : nat) :
  (row, col) ∈ row_major w h -> (row < h)%nat /\ (col < w)%nat.
Proof.
  intros Hin. apply list_elem_of_lookup in Hin as [k Hk].
  assert (Hlt : (k < h * w)%nat).
  { rewrite <- row_major_length. by eapply lookup_lt_Some. }
  rewrite row_major_lookup in Hk by done. injection Hk as <- <-.
  assert (0 < w)%nat by lia. split.
  - apply Nat.Div0.div_lt_upper_bound. lia.
  - apply Nat.mod_upper_bound. lia.
Qed.

Lemma painted_strokes (canvas : Canvas Stroke) (f : Line -> Stroke)
    (lines : list Line) :
  painted (foldl (fun canvas line => paint canvas (f line)) canvas lines)
  = painted canvas ++ (f <$> lines).
Proof.
  revert canvas. induction lines as [|line rest IH]; intros canvas; simpl.
  - by rewrite app_nil_r.
  - rewrite IH. simpl. by rewrite <- app_assoc.
Qed.

Lemma final_color_cell (darkMode : bool) (lines : list Line) (row col : nat) :
  final_color darkMode (Some (cell_color darkMode lines row col))
  = cell_color darkMode lines row col.
Proof.
  unfold final_color, cell_color.
  by destruct (lit lines row col), darkMode.
Qed.

(** X18.  [initializeRasterBuffer] leaves a framebuffer of the layout
    size of the canvas in which a cell holds the line colour exactly when
    a pixel of one of the drawn segments falls on it, and the background
    colour otherwise. *)
Theorem framebuffer_holds_segments (env : Env) (sim : RasterSim) :
  exists sim0,
    initializeRasterBuffer env sim = Ok sim0 /\
    width (rasterCanvas sim0) = clientWidth (rasterCanvas sim) /\
    height (rasterCanvas sim0) = clientHeight (rasterCanvas sim) /\
    forall row col,
      (row < height (rasterCanvas sim0))%nat ->
      (col < width (rasterCanvas sim0))%nat ->
      cell (buffer (rasterDisplayData sim0)) row col
      = Some (if lit (drawnLines env) row col
              then line_color (darkMode env)
              else background_color (darkMode env)).
Proof.
  destruct (initializeRasterBuffer_cells env sim)
    as (sim0 & Hinit & Hcanvas & _ & _ & _ & _ & Hcell).
  exists sim0. rewrite Hcanvas. simpl. split_and!; try done.
Qed.

(** X19.  For drawn segments with integer end points: when the
    simulation is switched on, the effect builds the framebuffer and
    schedules the sweep, and the [w * h] ticks of the first frame paint
    every cell of the canvas once, in row-major order, in the line colour
    where a pixel of a drawn segment falls on the cell and in the
    background colour elsewhere. *)
Theorem raster_frame_shows_segments (env : Env) (sim : RasterSim) :
  isSimulating env = true ->
  (0 < clientWidth (rasterCanvas sim))%nat ->
  exists sim0 sim_end,
    raster_effect env sim = Ok sim0 /\
    rasterScheduled sim0 = true /\
    raster_ticks env
      (clientHeight (rasterCanvas sim) * clientWidth (rasterCanvas sim)) sim0
      = Ok sim_end /\
    painted (rasterCanvas sim_end)
    = (fun cell : nat * nat =>
         mkFillRect (Z.of_nat cell.2) (Z.of_nat cell.1) 2
           (cell_color (darkMode env) (drawnLines env) cell.1 cell.2))
        <$> row_major (clientWidth (rasterCanvas sim))
              (clientHeight (rasterCanvas sim)).
Proof.
  intros Hsim Hw. unfold raster_effect. rewrite Hsim.
  destruct (initializeRasterBuffer_cells env sim)
    as (sim1 & -> & Hcanvas & Hwf & Hcursor & _ & _ & Hcell).
  simpl.
  set (sim0 := mkRasterSim (rasterCanvas sim1) (rasterDisplayData sim1)
                 (rasterPixelInfo sim1) true).
  set (w := clientWidth (rasterCanvas sim)) in *.
  set (h := clientHeight (rasterCanvas sim)) in *.
  destruct (raster_sweep env sim0 (h * w) Hsim Hwf Hcursor)
    as (sim_end & Hticks & Hcanvas_end & _).
  { simpl. by rewrite Hcanvas. }
  { simpl. by rewrite Hcanvas. }
  exists sim0, sim_end. split_and!; [done|done|done|].
  rewrite Hcanvas_end. simpl. rewrite Hcanvas. simpl.
  rewrite take_ge by (by rewrite row_major_length).
  apply list_fmap_ext. intros k [row col] Hk.
  apply list_elem_of_lookup_2, row_major_in_range in Hk as [Hrow Hcol].
  unfold cell_rect. simpl. fold (cell (buffer (rasterDisplayData sim1)) row col).
  rewrite Hcell by done. by rewrite final_color_cell.
Qed.

Lemma raster_frame_shows_segments_witness :
  exists sim0 sim_end,
    raster_effect example_env example_blank_raster = Ok sim0 /\
    raster_ticks example_env (3 * 4) sim0 = Ok sim_end /\
    painted (rasterCanvas sim_end)
    = (fun cell : nat * nat =>
         mkFillRect (Z.of_nat cell.2) (Z.of_nat cell.1) 2
           (cell_color true (drawnLines example_env) cell.1 cell.2))
        <$> row_major 4 3.
Proof.
  destruct (raster_frame_shows_segments example_env example_blank_raster
              eq_refl ltac:(simpl; lia))
    as (sim0 & sim_end & Heffect & _ & Hticks & Hpainted).
  exists sim0, sim_end. split_and!; assumption.
Defined.

(** X20.  While the simulation is on and there is a segment, every tick
    of the random-scan display clears the canvas and strokes each drawn
    segment once in the faded colour and then the segment at the index in
    the highlight colour: nothing of an earlier tick stays.  The index it
    leaves is inside the list. *)
Theorem random_tick_paints (env : Env) (sim : RandomSim) :
  isSimulating env = true -> drawnLines env <> [] ->
  painted (randomCanvas (animateRandomDisplay env sim))
  = ((fun line => mkStroke line (faded_color (darkMode env)) 2) <$> drawnLines env)
    ++ match drawnLines env !! currentLineIndex (randomDisplayData sim) with
       | Some line => [mkStroke line (highlight_color (darkMode env)) 3]
       | None => []
       end /\
  (currentLineIndex (randomDisplayData (animateRandomDisplay env sim))
   < length (drawnLines env))%nat.
Proof.
  intros Hsim Hlines. unfold animateRandomDisplay. rewrite Hsim. simpl.
  assert (Hlen : (0 < length (drawnLines env))%nat).
  { destruct (drawnLines env); [done|simpl; lia]. }
  rewrite bool_decide_eq_false_2 by lia.
  destruct (drawnLines env !! currentLineIndex (randomDisplayData sim))
    as [line|] eqn:Hline.
  - case_bool_decide as Hwrap; simpl;
      rewrite painted_strokes; simpl;
      (split; [first [done | by rewrite <- app_assoc]|]).
    + lia.
    + apply lookup_lt_Some in Hline. lia.
  - simpl. rewrite painted_strokes. simpl.
    split; [first [done | by rewrite app_nil_r]|lia].
Qed.

Lemma random_tick_paints_witness :
  painted (randomCanvas (animateRandomDisplay example_env example_random))
  = [mkStroke (mkLine 0 0 3 2) "rgba(203, 213, 225, 0.8)" 2;
     mkStroke (mkLine 2 1 6 (-1)) "rgba(203, 213, 225, 0.8)" 2;
     mkStroke (mkLine 2 1 6 (-1)) "#fde047" 3].
Proof.
  exact (proj1 (random_tick_paints example_env example_random eq_refl
                  ltac:(discriminate))).
Defined.

(** ** The simulator: the component *)

Section simulator_facts.
Import Simulator.

Lemma draw_lines_painted (darkMode : bool) (lines : list Line) :
  forall canvas,
    painted (draw_lines darkMode canvas lines)
    = painted canvas ++ (solid darkMode <$> lines).
Proof.
  unfold draw_lines.
  induction lines as [|line lines IH]; intros canvas; simpl.
  - by rewrite app_nil_r.
  - rewrite IH. simpl. by rewrite <- app_assoc.
Qed.

Lemma input_effect_painted (st : State) :
  painted (inputCanvas (input_effect st))
  = solid (darkMode (env st)) <$> drawnLines (env st).
Proof.
  unfold input_effect. simpl. rewrite draw_lines_painted.
  unfold resizeCanvas. by case_bool_decide.
Qed.

Lemma raster_effect_ok (e : Env) (sim : RasterSim) :
  exists sim',
    raster_effect e sim = Ok sim' /\
    (raster_ok sim -> raster_ok sim') /\
    rasterScheduled sim' = isSimulating e.
Proof.
  unfold raster_effect. destruct (isSimulating e).
  - destruct (initializeRasterBuffer_ok e sim)
      as (sim0 & -> & _ & _ & _ & Hshape & _).
    simpl. eexists; split; [reflexivity|]. split; [|done].
    intros _. right. exact Hshape.
  - eexists; split; [reflexivity|]. split; [|done].
    intros [Hempty|Hwf]; [by left|by right].
Qed.

Lemma animateRasterDisplay_ok (e : Env) (sim : RasterSim) :
  raster_ok sim ->
  exists sim', animateRasterDisplay e sim = Ok sim' /\ raster_ok sim'.
Proof.
  intros [Hempty|Hwf].
  - unfold animateRasterDisplay. rewrite Hempty. simpl.
    rewrite orb_true_r. eexists; split; [reflexivity|]. by left.
  - destruct (animateRasterDisplay_safe e sim Hwf) as (sim' & Hsim' & Hwf').
    exists sim'. split; [done|by right].
Qed.

Lemma simulator_effects_next (st : State) :
  exists sim,
    raster_effect (env st) (raster st) = Ok sim /\
    simulator_effects st
    = Next (set_random (random_effect (env st) (random st)) (set_raster sim st)).
Proof.
  destruct (raster_effect_ok (env st) (raster st)) as (sim & Hsim & _).
  exists sim. split; [done|]. unfold simulator_effects. by rewrite Hsim.
Qed.

Lemma simulator_effects_consistent (st : State) :
  consistent st ->
  exists st',
    simulator_effects st = Next st' /\ consistent st' /\
    env st' = env st /\ pen st' = pen st /\
    inputCanvas st' = inputCanvas st /\ restarts st' = restarts st.
Proof.
  intros [Hraster Hpen].
  destruct (raster_effect_ok (env st) (raster st)) as (sim & Hsim & Hok & _).
  unfold simulator_effects. rewrite Hsim.
  eexists; split; [reflexivity|]. split_and!; try done.
  split; [exact (Hok Hraster)|exact Hpen].
Qed.

Lemma input_effect_consistent (st : State) :
  consistent st -> consistent (input_effect st).
Proof. by intros [Hraster Hpen]. Qed.

Lemma step_consistent (e : Event) (st : State) :
  consistent st -> exists st', step e st = Next st' /\ consistent st'.
Proof.
  intros Hst. pose proof Hst as [Hraster Hpen].
  destruct e as [p|p| | | | | |value|input rasterSize randomSize| | |]; simpl.
  - eexists; split; [reflexivity|]. split; [exact Hraster|].
    intros _. simpl. by eexists.
  - unfold handleMouseMove.
    destruct (isDrawing (pen st)) eqn:Hdrawing; simpl; [|by exists st].
    destruct (Hpen eq_refl) as [prev ->].
    eexists; split; [reflexivity|]. split; [exact Hraster|].
    intros _. simpl. by eexists.
  - unfold handleMouseUp.
    destruct (isDrawing (pen st)) eqn:Hdrawing; [|by exists st].
    destruct (currentLinePreview (pen st)) as [line|] eqn:Hpreview;
      [|by exists st].
    match goal with
    | |- context [simulator_effects ?s] =>
        destruct (simulator_effects_consistent s) as (st' & -> & Hst' & _)
    end.
    + apply input_effect_consistent.
      destruct (isSimulating (env st)); (split; [exact Hraster|done]).
    + by exists st'.
  - unfold handleStartSimulation. case_bool_decide; [by eexists|].
    destruct (isSimulating (env st)); [by exists st|].
    destruct (simulator_effects_consistent (setIsSimulating true st))
      as (st' & -> & Hst' & _); [done|]. by exists st'.
  - unfold handlePauseSimulation.
    destruct (isSimulating (env st)); [|by exists st].
    destruct (simulator_effects_consistent (setIsSimulating false st))
      as (st' & -> & Hst' & _); [done|]. by exists st'.
  - unfold handleClearAll.
    match goal with
    | |- context [simulator_effects ?s] =>
        destruct (simulator_effects_consistent s) as (st' & -> & Hst' & _)
    end.
    + apply input_effect_consistent. split; [by left|exact Hpen].
    + by exists st'.
  - unfold toggleDarkMode.
    destruct (isSimulating (env st)).
    + match goal with
      | |- context [initializeRasterBuffer ?e ?s] =>
          destruct (initializeRasterBuffer_ok e s)
            as (sim0 & -> & _ & _ & _ & Hshape & _)
      end.
      match goal with
      | |- context [simulator_effects ?s] =>
          destruct (simulator_effects_consistent s) as (st' & -> & Hst' & _)
      end.
      * apply input_effect_consistent. split; [by right|exact Hpen].
      * by exists st'.
    + match goal with
      | |- context [simulator_effects ?s] =>
          destruct (simulator_effects_consistent s) as (st' & -> & Hst' & _)
      end.
      * apply input_effect_consistent. split; [|exact Hpen].
        destruct Hraster as [Hempty|Hwf]; [by left|by right].
      * by exists st'.
  - unfold handleSpeedChange. case_bool_decide; [by exists st|].
    match goal with
    | |- context [simulator_effects ?s] =>
        destruct (simulator_effects_consistent s) as (st' & -> & Hst' & _)
    end; [done|]. by exists st'.
  - eexists; split; [reflexivity|]. split; [|exact Hpen].
    destruct Hraster as [Hempty|Hwf]; [by left|by right].
  - destruct (restarts st) as [|n]; [by exists st|].
    simpl. destruct (isSimulating (env st)); [by eexists|].
    match goal with
    | |- context [simulator_effects ?s] =>
        destruct (simulator_effects_consistent s) as (st' & -> & Hst' & _)
    end; [done|]. by exists st'.
  - unfold raster_tick. destruct (rasterScheduled (raster st)); [|by exists st].
    match goal with
    | |- context [animateRasterDisplay ?e ?s] =>
        destruct (animateRasterDisplay_ok e s) as (sim' & -> & Hsim')
    end.
    + destruct Hraster as [Hempty|Hwf]; [by left|by right].
    + eexists; split; [reflexivity|]. split; [exact Hsim'|exact Hpen].
  - unfold random_tick. destruct (randomScheduled (random st)); [|by exists st].
    eexists; split; [reflexivity|]. split; [exact Hraster|exact Hpen].
Qed.

Lemma run_consistent (events : list Event) :
  forall st,
    consistent st -> exists st', run events st = Next st' /\ consistent st'.
Proof.
  induction events as [|e events IH]; intros st Hst; simpl.
  - by exists st.
  - destruct (step_consistent e st Hst) as (st1 & -> & Hst1). by apply IH.
Qed.

Lemma initial_consistent (input rasterSize randomSize : nat * nat) :
  consistent (initial input rasterSize randomSize).
Proof. split; [by left|done]. Qed.

Lemma reachable_consistent (st : State) : reachable st -> consistent st.
Proof.
  intros (input & rasterSize & randomSize & events & Hrun).
  destruct (run_consistent events _ (initial_consistent input rasterSize randomSize))
    as (st' & Hst' & Hcons).
  congruence.
Qed.

Lemma simulator_run_app (l1 l2 : list Event) :
  forall st st1,
    run l1 st = Next st1 -> run (l1 ++ l2) st = run l2 st1.
Proof.
  induction l1 as [|e l1 IH]; intros st st1; simpl.
  - by intros [= ->].
  - destruct (step e st) as [st2| | |]; try done. apply IH.
Qed.

(** The moves of a gesture: the pen stays down, the preview keeps its
    start and follows the mouse, nothing else changes but the input
    canvas. *)
Lemma moves_run (p : Point) (moves : list Point) :
  forall (q : Point) (st : State),
    pen st = mkPen true p
               (Some (mkLine (point_x p) (point_y p) (point_x q) (point_y q))) ->
    exists st',
      run (MouseMove <$> moves) st = Next st' /\
      pen st' = mkPen true p
                  (Some (let q' := default q (last moves) in
                         mkLine (point_x p) (point_y p) (point_x q') (point_y q'))) /\
      env st' = env st /\ raster st' = raster st /\ random st' = random st /\
      restarts st' = restarts st /\ currentPixelInfo st' = currentPixelInfo st.
Proof.
  induction moves as [|m moves IH]; intros q st Hpen; simpl.
  - by exists st.
  - unfold handleMouseMove. rewrite Hpen. simpl.
    match goal with
    | |- context [run _ ?s] =>
        destruct (IH m s) as (st' & Hrun & Hpen' & Henv & Hraster & Hrandom & Hrestarts & Hinfo)
    end; [done|].
    exists st'. split; [exact Hrun|].
    split_and!; try done.
    rewrite Hpen'. simpl. rewrite (last_cons m moves).
    by destruct (last moves).
Qed.

Lemma gesture_run (st : State) (p : Point) (moves : list Point) :
  exists st',
    run (gesture p moves) st = Next st' /\
    env st'
    = mkEnv (drawnLines (env st) ++ [gesture_line p moves])
        (simulationSpeed (env st)) false (darkMode (env st)) /\
    pen st' = mkPen false p None /\
    painted (inputCanvas st')
    = solid (darkMode (env st)) <$> (drawnLines (env st) ++ [gesture_line p moves]) /\
    raster st'
    = mkRasterSim (rasterCanvas (raster st)) (rasterDisplayData (raster st))
        (rasterPixelInfo (raster st)) false /\
    random st'
    = mkRandomSim (clearCanvas (randomCanvas (random st)))
        (randomDisplayData (random st)) (randomPixelInfo (random st)) false /\
    restarts st'
    = if isSimulating (env st) then S (restarts st) else restarts st.
Proof.
  unfold gesture.
  change (run (MouseDown p :: (MouseMove <$> moves) ++ [MouseUp]) st)
    with (run ((MouseMove <$> moves) ++ [MouseUp]) (handleMouseDown p st)).
  destruct (moves_run p moves p (handleMouseDown p st) eq_refl)
    as (st1 & Hrun & Hpen & Henv & Hraster & Hrandom & Hrestarts & _).
  rewrite (simulator_run_app _ _ _ _ Hrun). simpl in Henv, Hraster, Hrandom, Hrestarts |- *.
  unfold handleMouseUp. rewrite Hpen. simpl. rewrite !Henv, Hrestarts.
  fold (gesture_line p moves).
  match goal with
  | |- context [simulator_effects ?s] =>
      remember s as st2 eqn:Hst2;
      destruct (simulator_effects_next st2) as (sim & Hsim & ->)
  end.
  assert (Henv2 : env st2
                  = mkEnv (drawnLines (env st) ++ [gesture_line p moves])
                      (simulationSpeed (env st)) false (darkMode (env st))).
  { subst st2. by destruct (isSimulating (env st)). }
  assert (Hpen2 : pen st2 = mkPen false p None).
  { subst st2. by destruct (isSimulating (env st)). }
  assert (Hrestarts2 : restarts st2
                       = if isSimulating (env st) then S (restarts st)
                         else restarts st).
  { subst st2. by destruct (isSimulating (env st)). }
  assert (Hpainted2 : painted (inputCanvas st2)
                      = solid (darkMode (env st))
                          <$> (drawnLines (env st) ++ [gesture_line p moves])).
  { subst st2. rewrite input_effect_painted.
    by destruct (isSimulating (env st)). }
  assert (Hraster2 : raster st2 = raster st).
  { subst st2. rewrite <- Hraster. by destruct (isSimulating (env st)). }
  assert (Hrandom2 : random st2 = random st).
  { subst st2. rewrite <- Hrandom. by destruct (isSimulating (env st)). }
  clear Hst2.
  unfold raster_effect in Hsim. rewrite Henv2, Hraster2 in Hsim. simpl in Hsim.
  injection Hsim as <-.
  eexists; split; [reflexivity|]. simpl.
  unfold random_effect. rewrite Henv2, Hrandom2. simpl.
  split_and!; done.
Qed.

End simulator_facts.

Section simulator_theorems.
Import Simulator.

(** X21.  From the mounted component, whatever the user and the browser
    do, every event is handled without an index outside the framebuffer,
    without a rasterizer loop overrunning its budget and without a preview
    that lacks its start. *)
Theorem simulator_never_faults (st : State) (e : Event) :
  reachable st -> exists st', step e st = Next st' /\ reachable st'.
Proof.
  intros Hreach.
  destruct (step_consistent e st (reachable_consistent st Hreach))
    as (st' & Hstep & _).
  exists st'. split; [done|].
  destruct Hreach as (input & rasterSize & randomSize & events & Hrun).
  exists input, rasterSize, randomSize, (events ++ [e]).
  rewrite (simulator_run_app _ _ _ _ Hrun). simpl. by rewrite Hstep.
Qed.

(** X22.  A drawing gesture on the input canvas (press, any number of
    moves, release) adds exactly one segment, from where the mouse went
    down to where it last was, after the segments drawn before; afterwards
    the pen is up, the input canvas shows every segment as a solid stroke
    and no preview, and the simulation is off with no tick scheduled.  If
    the simulation was running, one more timer is waiting to switch it on
    again. *)
Theorem gesture_draws_segment (st : State) (p : Point) (moves : list Point) :
  exists st',
    run (gesture p moves) st = Next st' /\
    drawnLines (env st') = drawnLines (env st) ++ [gesture_line p moves] /\
    pen st' = mkPen false p None /\
    painted (inputCanvas st')
    = solid (darkMode (env st)) <$> (drawnLines (env st) ++ [gesture_line p moves]) /\
    isSimulating (env st') = false /\
    rasterScheduled (raster st') = false /\
    randomScheduled (random st') = false /\
    restarts st'
    = if isSimulating (env st) then S (restarts st) else restarts st.
Proof.
  destruct (gesture_run st p moves)
    as (st' & Hrun & Henv & Hpen & Hpainted & Hraster & Hrandom & Hrestarts).
  exists st'. rewrite Henv, Hraster, Hrandom. simpl. split_and!; done.
Qed.

(** X23.  For a gesture at integer mouse positions, over segments with
    integer end points: a segment drawn while the simulation runs restarts
    it.  Once the timer set on release has fired, the simulation is on
    again, both loops have a tick scheduled and start from the beginning,
    and the framebuffer has been built anew from all segments, the new one
    included. *)
Theorem drawing_restarts_simulation (st : State) (p : Point) (moves : list Point) :
  isSimulating (env st) = true ->
  exists st',
    run (gesture p moves ++ [RestartFires]) st = Next st' /\
    env st'
    = mkEnv (drawnLines (env st) ++ [gesture_line p moves])
        (simulationSpeed (env st)) true (darkMode (env st)) /\
    restarts st' = restarts st /\
    rasterScheduled (raster st') = true /\
    randomScheduled (random st') = true /\
    raster_cursor (raster st') = (0%nat, 0%nat) /\
    currentLineIndex (randomDisplayData (random st')) = 0%nat /\
    forall row col,
      (row < clientHeight (rasterCanvas (raster st)))%nat ->
      (col < clientWidth (rasterCanvas (raster st)))%nat ->
      cell (buffer (rasterDisplayData (raster st'))) row col
      = Some (cell_color (darkMode (env st))
                (drawnLines (env st) ++ [gesture_line p moves]) row col).
Proof.
  intros Hsim.
  destruct (gesture_run st p moves)
    as (st1 & Hrun & Henv & Hpen & Hpainted & Hraster & Hrandom & Hrestarts).
  rewrite (simulator_run_app _ _ _ _ Hrun). rewrite Hsim in Hrestarts.
  simpl. rewrite Hrestarts. simpl. rewrite Henv. simpl.
  match goal with
  | |- context [simulator_effects ?s] =>
      remember s as st2 eqn:Hst2;
      destruct (simulator_effects_next st2) as (sim & Heffect & ->)
  end.
  assert (Henv2 : env st2
                  = mkEnv (drawnLines (env st) ++ [gesture_line p moves])
                      (simulationSpeed (env st)) true (darkMode (env st))).
  { subst st2. simpl. by rewrite Henv. }
  assert (Hraster2 : raster st2 = raster st1) by (by subst st2).
  assert (Hrandom2 : random st2 = random st1) by (by subst st2).
  assert (Hrestarts2 : restarts st2 = restarts st) by (by subst st2).
  clear Hst2.
  unfold raster_effect in Heffect. rewrite Henv2 in Heffect. simpl in Heffect.
  destruct (initializeRasterBuffer_cells
              (mkEnv (drawnLines (env st) ++ [gesture_line p moves])
                 (simulationSpeed (env st)) true (darkMode (env st)))
              (raster st2))
    as (sim0 & Hinit & Hcanvas & _ & Hcursor & _ & _ & Hcell).
  rewrite Hinit in Heffect. simpl in Heffect. injection Heffect as <-.
  rewrite Hraster2, Hraster in Hcell. simpl in Hcell.
  eexists; split; [reflexivity|]. simpl.
  unfold random_effect. rewrite Henv2. simpl.
  split_and!; done.
Qed.

(** X24.  Clear All does not cancel the timer that a release during a
    simulation has set.  After Clear All the Start button refuses to
    start, there being no segment; but when the timer fires the
    simulation is switched on all the same, with no segment, and both
    loops get a tick scheduled. *)
Theorem clear_all_keeps_restart (st : State) :
  (0 < restarts st)%nat ->
  exists st1 st',
    step ClickClearAll st = Next st1 /\
    step ClickStart st1
    = Next (showCustomMessage
              "Please draw at least one line on the input canvas first!" st1) /\
    step RestartFires st1 = Next st' /\
    drawnLines (env st') = [] /\
    isSimulating (env st') = true /\
    rasterScheduled (raster st') = true /\
    randomScheduled (random st') = true.
Proof.
  intros Hrestarts.
  assert (Hclear : exists st1,
             step ClickClearAll st = Next st1 /\
             env st1 = mkEnv [] (simulationSpeed (env st)) false (darkMode (env st)) /\
             restarts st1 = restarts st).
  { cbn [step]. unfold handleClearAll.
    match goal with
    | |- context [simulator_effects ?s] =>
        remember s as st0 eqn:Hst0;
        destruct (simulator_effects_next st0) as (sim & _ & ->)
    end.
    eexists; split; [reflexivity|]. by subst st0. }
  destruct Hclear as (st1 & Hclear & Henv1 & Hrestarts1).
  assert (Hfire : exists st',
             step RestartFires st1 = Next st' /\
             drawnLines (env st') = [] /\
             isSimulating (env st') = true /\
             rasterScheduled (raster st') = true /\
             randomScheduled (random st') = true).
  { simpl. rewrite Hrestarts1. destruct (restarts st) as [|n]; [lia|].
    simpl. rewrite Henv1. simpl.
    match goal with
    | |- context [simulator_effects ?s] =>
        remember s as st2 eqn:Hst2;
        destruct (simulator_effects_next st2) as (sim2 & Heffect2 & ->)
    end.
    assert (Henv2 : env st2
                    = mkEnv [] (simulationSpeed (env st)) true (darkMode (env st))).
    { subst st2. simpl. by rewrite Henv1. }
    clear Hst2.
    destruct (raster_effect_ok (env st2) (raster st2))
      as (sim3 & Hsim3 & _ & Hsched).
    rewrite Hsim3 in Heffect2. injection Heffect2 as <-.
    eexists; split; [reflexivity|]. simpl.
    unfold random_effect. rewrite Hsched, Henv2. simpl. split_and!; done. }
  destruct Hfire as (st' & Hfire & Hlines & Hsim & Hraster & Hrandom).
  exists st1, st'. split_and!; try done.
  simpl. unfold handleStartSimulation. by rewrite Henv1.
Qed.

End simulator_theorems.

Lemma simulator_never_faults_witness :
  exists st',
    Simulator.step Simulator.ToggleDarkMode Simulator.example_restart_pending
    = Simulator.Next st' /\
    Simulator.reachable st'.
Proof.
  apply simulator_never_faults.
  exists (4, 3)%nat, (4, 3)%nat, (4, 3)%nat, Simulator.example_second_events.
  vm_compute. reflexivity.
Defined.

Lemma drawing_restarts_simulation_witness :
  isSimulating (Simulator.env Simulator.example_simulating) = true /\
  exists st',
    Simulator.run
      (Simulator.gesture (mkPoint 0 2) [mkPoint 3 0] ++ [Simulator.RestartFires])
      Simulator.example_simulating
    = Simulator.Next st' /\
    drawnLines (Simulator.env st') = [mkLine 0 0 3 2; mkLine 0 2 3 0] /\
    isSimulating (Simulator.env st') = true /\
    cell (buffer (rasterDisplayData (Simulator.raster st'))) 2 0
    = Some (line_color true).
Proof.
  split; [reflexivity|].
  destruct (drawing_restarts_simulation Simulator.example_simulating
              (mkPoint 0 2) [mkPoint 3 0] eq_refl)
    as (st' & Hrun & Henv & _ & _ & _ & _ & _ & Hcell).
  exists st'. split; [exact Hrun|]. rewrite Henv. split; [reflexivity|].
  split; [reflexivity|].
  rewrite (Hcell 2%nat 0%nat); [reflexivity|vm_compute; lia|vm_compute; lia].
Defined.

Lemma clear_all_keeps_restart_witness :
  (0 < Simulator.restarts Simulator.example_restart_pending)%nat /\
  exists st1 st',
    Simulator.step Simulator.ClickClearAll Simulator.example_restart_pending
    = Simulator.Next st1 /\
    Simulator.step Simulator.RestartFires st1 = Simulator.Next st' /\
    drawnLines (Simulator.env st') = [] /\
    isSimulating (Simulator.env st') = true.
Proof.
  split; [vm_compute; lia|].
  destruct (clear_all_keeps_restart Simulator.example_restart_pending)
    as (st1 & st' & Hclear & _ & Hfire & Hlines & Hsim & _).
  { vm_compute. lia. }
  exists st1, st'. split_and!; assumption.
Defined.
